(** * Crop-geometry engine and hardware pipeline of the extraction lab

    A shallow embedding of the C++ sources
      - [core/cpp/crop_n_frame.cpp]  (border detection, goodness test,
        crop command construction, phase-1 handler, per-image border trim,
        scene frames and their fallback, the selection of the two phases)
      - [core/cpp/crop/main.cpp]     (command line, decode / filter / encode
        pipeline and its resources)
    followed by the properties established about them.

    Conventions.  A C++ [int] is a [Z] in the range of [CInt.wrap32], an
    [int64_t] / [long long] a [Z] in the range of [CInt.wrap64]; additions
    that can leave the range are written with the wrap.  Signed overflow is
    undefined in C++; the wrap is what the targeted compilers produce, and
    every property that depends on it states the range it needs.  A [double]
    is a binary64 value of the [SpecFloat] library.  Functions that can throw
    return a [Result]. *)

From Stdlib Require Import ZArith List Bool Lia String Ascii.
From Stdlib Require Import Floats.SpecFloat.
From stdpp Require Import base option list gmap strings pretty sorting.

Local Open Scope Z_scope.

(* ===================================================================== *)
(** * Part I.  The model                                                  *)
(* ===================================================================== *)

(** ** Machine integers *)

Module CInt.

Definition INT_MAX : Z := 2 ^ 31 - 1.
Definition INT_MIN : Z := - 2 ^ 31.
Definition INT64_MAX : Z := 2 ^ 63 - 1.
Definition INT64_MIN : Z := - 2 ^ 63.

Definition wrap32 (z : Z) : Z := (z + 2 ^ 31) mod 2 ^ 32 - 2 ^ 31.
Definition wrap64 (z : Z) : Z := (z + 2 ^ 63) mod 2 ^ 64 - 2 ^ 63.

Definition in_int (z : Z) : Prop := INT_MIN <= z <= INT_MAX.
Definition in_int64 (z : Z) : Prop := INT64_MIN <= z <= INT64_MAX.

(** [a + b], [a - b] on [int]. *)
Definition add32 (a b : Z) : Z := wrap32 (a + b).
Definition sub32 (a b : Z) : Z := wrap32 (a - b).

End CInt.

(** ** Exceptions *)

Inductive Result (A : Type) : Type :=
| Ok (a : A)
| Throw (what : string).
Arguments Ok {A} a.
Arguments Throw {A} what.

Definition bindR {A B : Type} (m : Result A) (k : A -> Result B) : Result B :=
  match m with
  | Ok a => k a
  | Throw what => Throw what
  end.

Notation "'let*' a ':=' m 'in' k" := (bindR m (fun a => k))
  (at level 10, a name, m at level 100, k at level 200).

(** ** Presentation clock of the decode stage ([crop/main.cpp]) *)

Module Pts.
Import CInt.

(** The two timestamp fields of an [AVFrame] the decode stage reads. *)
Record AVFrame : Type := mkFrame { pts : Z; pkt_dts : Z }.

Definition AV_NOPTS_VALUE : Z := INT64_MIN.

(** Lines 675-686: the body of the main decode loop.  Takes
    [last_input_pts] and the frame just received, returns the frame as it is
    fed to the filter graph and the new [last_input_pts]. *)
Definition decode_pts (last_input_pts : Z) (frame : AVFrame) : AVFrame * Z :=
  let frame :=
    if pts frame =? AV_NOPTS_VALUE
    then mkFrame (pkt_dts frame) (pkt_dts frame)
    else frame in
  if negb (pts frame =? AV_NOPTS_VALUE) then
    let frame :=
      if negb (last_input_pts =? AV_NOPTS_VALUE) && (pts frame <=? last_input_pts)
      then mkFrame (wrap64 (last_input_pts + 1)) (pkt_dts frame)
      else frame in
    (frame, pts frame)
  else
    (frame, last_input_pts).

(** Lines 763-766: the same spot of the decoder-flush loop. *)
Definition flush_pts (last_input_pts : Z) (frame : AVFrame) : AVFrame * Z :=
  if (pts frame =? AV_NOPTS_VALUE) && negb (last_input_pts =? AV_NOPTS_VALUE)
  then
    let frame := mkFrame (wrap64 (last_input_pts + 1)) (pkt_dts frame) in
    (frame, pts frame)
  else
    (frame, last_input_pts).

(** A loop that threads [last_input_pts] through the frames the decoder
    emits, in order. *)
Fixpoint pts_loop (body : Z -> AVFrame -> AVFrame * Z)
    (last_input_pts : Z) (frames : list AVFrame) : list AVFrame * Z :=
  match frames with
  | [] => ([], last_input_pts)
  | frame :: rest =>
      let '(frame', last') := body last_input_pts frame in
      let '(out, last'') := pts_loop body last' rest in
      (frame' :: out, last'')
  end.

(** The decode stage: the frames of the main loop, then the frame the
    flush of the decoder hands on.  The flush loop (lines 754-787) runs its
    body at most once: the drain of the filter sink inside it ends with a
    negative [ret], which is the exit condition of the loop.
    [last_input_pts] starts at [AV_NOPTS_VALUE] (line 638) and is shared by
    both loops. *)
Definition decode_stage (decoded : list AVFrame) (flushed : option AVFrame)
  : list AVFrame :=
  let '(out1, last) := pts_loop decode_pts AV_NOPTS_VALUE decoded in
  match flushed with
  | Some frame => out1 ++ [(flush_pts last frame).1]
  | None => out1
  end.

(** The timestamp a frame arrives with: [pts], or [pkt_dts] when [pts] is
    the sentinel (line 676). *)
Definition arrival_ts (frame : AVFrame) : Z :=
  if pts frame =? AV_NOPTS_VALUE then pkt_dts frame else pts frame.

Definition strictly_increasing (l : list Z) : Prop :=
  forall (i j : nat) (a b : Z),
    (i < j)%nat -> l !! i = Some a -> l !! j = Some b -> a < b.

(** [chain prev l]: [l] is strictly increasing and starts above [prev]. *)
Fixpoint chain (prev : Z) (l : list Z) : Prop :=
  match l with
  | [] => True
  | a :: l' => prev < a /\ chain a l'
  end.

(** What the main loop makes of a frame that arrives with timestamp [t]
    when the previous frame left with [prev]. *)
Definition rewritten (prev t : Z) : Z := if prev <? t then t else prev + 1.

(** [follows prev ins outs]: each output is the arrival timestamp when that
    is above the previous output, and the previous output plus one when
    it is not. *)
Fixpoint follows (prev : Z) (ins outs : list Z) : Prop :=
  match ins, outs with
  | [], [] => True
  | t :: ins', o :: outs' => o = rewritten prev t /\ follows o ins' outs'
  | _, _ => False
  end.

(** The timestamps among [outs]: what is left without the sentinels. *)
Definition stamped (outs : list Z) : list Z :=
  List.filter (fun o => negb (o =? AV_NOPTS_VALUE)) outs.

(** The clock after the timestamps [outs] have left, when it stood at [c]
    before: the last of them that is not the sentinel. *)
Definition clock_from (c : Z) (outs : list Z) : Z :=
  fold_left (fun c o => if o =? AV_NOPTS_VALUE then c else o) outs c.

(** The clock starts unset (line 638). *)
Definition clock (outs : list Z) : Z := clock_from AV_NOPTS_VALUE outs.

End Pts.


(** ** Binary64 *)

Module Double.
Import CInt.

Definition prec : Z := 53.
Definition emax : Z := 1024.

(** Conversion [int -> double] (exact: an [int] has at most 31 bits). *)
Definition of_int (z : Z) : spec_float := binary_normalize prec emax z 0 false.

Definition mul : spec_float -> spec_float -> spec_float := SFmul prec emax.
Definition sub : spec_float -> spec_float -> spec_float := SFsub prec emax.
Definition div : spec_float -> spec_float -> spec_float := SFdiv prec emax.
Definition ltb : spec_float -> spec_float -> bool := SFltb.
Definition eqb : spec_float -> spec_float -> bool := SFeqb.

(** The decimal literal [n/d] (as [0.10] is 10/100): the binary64 value
    nearest to the quotient. *)
Definition literal (n d : Z) : spec_float := div (of_int n) (of_int d).

(** [static_cast<int>] of a [double]: truncation toward zero.  Out of the
    range of [int] the cast is undefined; the value returned there is the
    one of the x86 conversion instruction. *)
Definition to_int (f : spec_float) : Z :=
  match f with
  | S754_zero _ => 0
  | S754_finite s m e =>
      let magnitude :=
        if 0 <=? e then Z.pos m * 2 ^ e else Z.pos m / 2 ^ (- e) in
      let v := if s then - magnitude else magnitude in
      if (INT_MIN <=? v) && (v <=? INT_MAX) then v else INT_MIN
  | _ => INT_MIN
  end.

End Double.

(** ** Library functions on strings and paths *)

Module Cxx.
Import CInt.

(** The double-quote character. *)
Definition dquote : string := String (ascii_of_nat 34) EmptyString.

(** [std::isspace] in the C locale. *)
Definition isspace (c : ascii) : bool :=
  let n := nat_of_ascii c in
  (n =? 32)%nat || ((9 <=? n)%nat && (n <=? 13)%nat).

Definition digit_of (c : ascii) : option Z :=
  let n := nat_of_ascii c in
  if (48 <=? n)%nat && (n <=? 57)%nat then Some (Z.of_nat n - 48) else None.

Fixpoint skip_spaces (s : string) : string :=
  match s with
  | String c rest => if isspace c then skip_spaces rest else s
  | EmptyString => s
  end.

(** The value of the longest prefix of decimal digits, [None] when the
    string does not start with a digit. *)
Fixpoint read_digits (s : string) (acc : option Z) : option Z :=
  match s with
  | String c rest =>
      match digit_of c with
      | Some d => read_digits rest (Some (10 * default 0 acc + d))
      | None => acc
      end
  | EmptyString => acc
  end.

(** [std::stoi(s)]: leading white space, an optional sign, decimal digits;
    [std::invalid_argument] without a digit, [std::out_of_range] when the
    value is not an [int]. *)
Definition stoi (s : string) : Result Z :=
  let s := skip_spaces s in
  let '(negative, s) :=
    match s with
    | String "-" rest => (true, rest)
    | String "+" rest => (false, rest)
    | _ => (false, s)
    end in
  match read_digits s None with
  | None => Throw "stoi: invalid_argument"
  | Some v =>
      let v := if negative : bool then - v else v in
      if (INT_MIN <=? v) && (v <=? INT_MAX) then Ok v
      else Throw "stoi: out_of_range"
  end.

(** [std::filesystem::path::filename]: what follows the last separator. *)
Fixpoint filename_from (p acc : string) : string :=
  match p with
  | String c rest =>
      if Ascii.eqb c "/" then filename_from rest EmptyString
      else filename_from rest (acc +:+ String c EmptyString)
  | EmptyString => acc
  end.
Definition filename (p : string) : string := filename_from p EmptyString.

(** [dir / name] for a relative [name]. *)
Definition path_append (dir name : string) : string := dir +:+ "/" +:+ name.

(** [operator<<] of an [int] on a stream: its decimal numeral. *)
Definition show_int (z : Z) : string := pretty z.

End Cxx.

(** ** Crop rectangles, detectors, goodness test and the phase-1 handler
       ([crop_n_frame.cpp]) *)

Module Crop.
Import CInt Cxx.

Record CropRect : Type := mkRect { x : Z; y : Z; w : Z; h : Z; valid : bool }.

(** [{0,0,0,0,false}] *)
Definition no_rect : CropRect := mkRect 0 0 0 0 false.

(** Global configuration (lines 27-53). *)
Definition INPUT_DIR : string := "../videos".
Definition CROPPED_DIR : string := "../tmp".
Definition MIN_CROP_RATIO : spec_float := Double.literal 10 100.
Definition DOWNSCALE : spec_float := Double.literal 5 10.
Definition FFMPEG_PROBES : nat := 3.
Definition SAFE_MARGIN_PX : Z := 4.
Definition FFMPEG : string := "ffmpeg".

(** One match of the regular expression
    [crop=([0-9]+):([0-9]+):([0-9]+):([0-9]+)] in a probe's log: each group
    is a non-empty string of decimal digits, kept here as the number it
    spells. *)
Record CropMatch : Type := mkMatch { g1 : N; g2 : N; g3 : N; g4 : N }.

(** [cv::Rect]. *)
Record cvRect : Type :=
  mkCvRect { rect_x : Z; rect_y : Z; rect_width : Z; rect_height : Z }.

(** What lies outside the program: the external processes it launches and
    the library calls whose result it only reads.
    - [ffprobe_val path key]: the function of lines 86-94, i.e. the trimmed,
      lower-cased output of ffprobe; it throws when [popen] fails.
    - [stod]: [std::stod].
    - [cropdetect path k]: the matches of the regular expression in the log
      of the [k]-th cropdetect run on the file (lines 144-158), in order.
    - [gradient_best_rect path]: [best_rect] at line 276 of
      [detect_gradient], [None] when the function has returned before.
    - [HAS_CROP_CUDA]: the global of line 108.
    - [system cmd]: the exit status of the command and what it leaves in
      its output file ([None]: no file written). *)
Record World : Type := mkWorld {
  ffprobe_val : string -> string -> Result string;
  stod : string -> Result spec_float;
  cropdetect : string -> nat -> Result (list CropMatch);
  gradient_best_rect : string -> option cvRect;
  HAS_CROP_CUDA : bool;
  system : string -> Z * option string
}.

(** [std::stoi] on a string of decimal digits: the value, or
    [std::out_of_range] when it does not fit an [int]. *)
Definition stoi_digits (n : N) : Result Z :=
  if Z.of_N n <=? INT_MAX then Ok (Z.of_N n) else Throw "stoi: out_of_range".

(** Lines 167-173: the rectangle pushed for the last match of a probe. *)
Definition rect_of_match (m : CropMatch) : Result CropRect :=
  let* vx := stoi_digits (g3 m) in
  let* vy := stoi_digits (g4 m) in
  let* vw := stoi_digits (g1 m) in
  let* vh := stoi_digits (g2 m) in
  Ok (mkRect vx vy vw vh true).

(** Lines 143-176: probes [k], [k+1], ... ([n] of them); only the last
    match of a probe is kept. *)
Fixpoint probe_loop (probe : nat -> Result (list CropMatch)) (k n : nat)
    (rects : list CropRect) : Result (list CropRect) :=
  match n with
  | O => Ok rects
  | S n' =>
      let* matches := probe k in
      match last matches with
      | Some m =>
          let* r := rect_of_match m in
          probe_loop probe (S k) n' (rects ++ [r])
      | None => probe_loop probe (S k) n' rects
      end
  end.

(** Lines 180-189: the running minimum / maximum over [rects[1..]]. *)
Definition extent_step (acc : Z * Z * Z * Z) (r : CropRect) : Z * Z * Z * Z :=
  let '(min_x, min_y, max_x_plus_w, max_y_plus_h) := acc in
  (Z.min min_x (x r), Z.min min_y (y r),
   Z.max max_x_plus_w (add32 (x r) (w r)),
   Z.max max_y_plus_h (add32 (y r) (h r))).

(** Lines 178-201 with the margin as a parameter.  The first values given
    to [final_w] and [final_h] (lines 193-194) are overwritten at lines
    197-198 before they are read. *)
Definition union_with_margin (margin : Z) (rects : list CropRect) : CropRect :=
  match rects with
  | [] => no_rect
  | r0 :: rest =>
      let '(min_x, min_y, max_x_plus_w, max_y_plus_h) :=
        fold_left extent_step rest
          (x r0, y r0, add32 (x r0) (w r0), add32 (y r0) (h r0)) in
      let final_x := Z.max 0 (sub32 min_x margin) in
      let final_y := Z.max 0 (sub32 min_y margin) in
      let final_w :=
        sub32 (add32 max_x_plus_w margin) (Z.max 0 (sub32 min_x margin)) in
      let final_h :=
        sub32 (add32 max_y_plus_h margin) (Z.max 0 (sub32 min_y margin)) in
      mkRect final_x final_y final_w final_h true
  end.

(** Lines 140-201 with the margin as a parameter: [duration] is the value
    of the variable at line 140, [probe k] the matches of the [k]-th run. *)
Definition detect_crop_core (margin : Z) (duration : spec_float)
    (probe : nat -> Result (list CropMatch)) : Result CropRect :=
  if Double.eqb duration (Double.of_int 0) then Ok no_rect
  else
    let* rects := probe_loop probe 0 FFMPEG_PROBES [] in
    Ok (union_with_margin margin rects).

(** Lines 130-139. *)
Definition probed_duration (W : World) (src_path : string) : Result spec_float :=
  let* duration_str := ffprobe_val W src_path "duration" in
  if String.eqb duration_str "" then Ok (Double.of_int 0)
  else
    match stod W duration_str with
    | Ok d => Ok d
    | Throw _ => Ok (Double.of_int 0)
    end.

(** [detect_crop_ffmpeg] (lines 129-202). *)
Definition detect_crop_ffmpeg (W : World) (src_path : string) : Result CropRect :=
  let* duration := probed_duration W src_path in
  detect_crop_core SAFE_MARGIN_PX duration (cropdetect W src_path).

(** [detect_gradient] from line 278 on: the bounding box found by the
    vision library, scaled back by [1.0 / DOWNSCALE]. *)
Definition detect_gradient (W : World) (src_path : string) (ow oh : Z) : CropRect :=
  match gradient_best_rect W src_path with
  | None => no_rect
  | Some best_rect =>
      let s := Double.div (Double.of_int 1) DOWNSCALE in
      let scaled (v : Z) := Double.to_int (Double.mul (Double.of_int v) s) in
      mkRect (scaled (rect_x best_rect)) (scaled (rect_y best_rect))
             (scaled (rect_width best_rect)) (scaled (rect_height best_rect)) true
  end.

(** Line 291: the test on one dimension,
    [v < o * (1.0 - MIN_CROP_RATIO)]. *)
Definition below_ratio (v o : Z) : bool :=
  Double.ltb (Double.of_int v)
    (Double.mul (Double.of_int o) (Double.sub (Double.of_int 1) MIN_CROP_RATIO)).

(** Line 292: the test on one dimension, [v > 0.05 * o]. *)
Definition above_sliver (v o : Z) : bool :=
  Double.ltb (Double.mul (Double.literal 5 100) (Double.of_int o)) (Double.of_int v).

Definition significant_crop (rect : CropRect) (ow oh : Z) : bool :=
  below_ratio (w rect) ow || below_ratio (h rect) oh.

Definition sensible_size (rect : CropRect) (ow oh : Z) : bool :=
  above_sliver (w rect) ow && above_sliver (h rect) oh.

(** [is_good_crop] (lines 289-294). *)
Definition is_good_crop (rect : CropRect) (ow oh : Z) : bool :=
  if negb (valid rect) || (w rect <=? 0) || (h rect <=? 0) then false
  else significant_crop rect ow oh && sensible_size rect ow oh.

(** [make_even] (lines 111-113); [%] truncates toward zero. *)
Definition make_even (v : Z) : Z :=
  if Z.rem v 2 =? 0 then v else add32 v 1.

(** [DECODER_MAP] (lines 116-119). *)
Definition DECODER_MAP : list (string * string) :=
  [("h264", "h264_cuvid"); ("hevc", "hevc_cuvid"); ("vp9", "vp9_cuvid");
   ("av1", "av1_cuvid"); ("mpeg2video", "mpeg2_cuvid")].

(** Lines 302-305: the decoder of the codec, empty when it has none. *)
Definition cuvid_decoder_of (codec_name : string) : string :=
  match find (fun kv => String.eqb (fst kv) codec_name) DECODER_MAP with
  | Some kv => snd kv
  | None => ""
  end.

(** Lines 307-344: the command line of the crop, as [cmd_ss.str()]. *)
Definition crop_command (has_crop_cuda : bool) (cuvid_decoder : string)
    (src_path dst_path : string) (rect : CropRect) (ow oh : Z) : string :=
  let crop_w := make_even (w rect) in
  let crop_h := make_even (h rect) in
  let has_cuvid := negb (String.eqb cuvid_decoder "") in
  let input_options :=
    if has_crop_cuda then
      if has_cuvid then
        "-c:v " +:+ cuvid_decoder
          +:+ " -hwaccel_device 0 -hwaccel_output_format cuda "
      else "-hwaccel cuda -hwaccel_device 0 -hwaccel_output_format cuda "
    else if has_cuvid then
      let top := y rect in
      let bottom := sub32 oh (add32 (y rect) (h rect)) in
      let left := x rect in
      let right := sub32 ow (add32 (x rect) (w rect)) in
      "-c:v " +:+ cuvid_decoder +:+ " -hwaccel_device 0 "
        +:+ "-crop " +:+ show_int top +:+ "x" +:+ show_int bottom +:+ "x"
        +:+ show_int left +:+ "x" +:+ show_int right +:+ " "
    else "" in
  let filter_options :=
    if has_crop_cuda then
      "-vf " +:+ dquote +:+ "crop_cuda=w=" +:+ show_int crop_w
        +:+ ":h=" +:+ show_int crop_h +:+ ":x=" +:+ show_int (x rect)
        +:+ ":y=" +:+ show_int (y rect) +:+ ",setsar=1:1,format=nv12"
        +:+ dquote +:+ " "
    else if has_cuvid then
      "-vf " +:+ dquote +:+ "setsar=1:1,format=nv12" +:+ dquote +:+ " "
    else
      "-vf " +:+ dquote +:+ "crop=" +:+ show_int crop_w +:+ ":"
        +:+ show_int crop_h +:+ ":" +:+ show_int (x rect) +:+ ":"
        +:+ show_int (y rect) +:+ ",setsar=1:1,format=nv12" +:+ dquote +:+ " " in
  FFMPEG +:+ " -hide_banner -loglevel error " +:+ input_options
    +:+ "-i " +:+ dquote +:+ src_path +:+ dquote +:+ " "
    +:+ filter_options
    +:+ "-c:v h264_nvenc -preset p5 -tune hq -cq 23 -c:a copy -movflags +faststart -y "
    +:+ dquote +:+ dst_path +:+ dquote.

(** The width and height of the picture a crop command keeps: the size
    given to the crop filter, or, with the decoder's [-crop] margins, what
    the margins leave of the [ow] x [oh] picture. *)
Definition cropped_size (has_crop_cuda : bool) (cuvid_decoder : string)
    (rect : CropRect) (ow oh : Z) : Z * Z :=
  if has_crop_cuda || String.eqb cuvid_decoder "" then
    (make_even (w rect), make_even (h rect))
  else
    let top := y rect in
    let bottom := sub32 oh (add32 (y rect) (h rect)) in
    let left := x rect in
    let right := sub32 ow (add32 (x rect) (w rect)) in
    (sub32 (sub32 ow left) right, sub32 (sub32 oh top) bottom).

(** The files of the machine: path to content. *)
Abbreviation FS := (gmap string string).

(** [crop_gpu] (lines 297-351): [Throw] is the [std::runtime_error] of
    line 349, or the one of [ffprobe_val]. *)
Definition crop_gpu (W : World) (src_path dst_path : string) (rect : CropRect)
    (ow oh : Z) (fs : FS) : Result unit * FS :=
  match ffprobe_val W src_path "codec_name" with
  | Throw what => (Throw what, fs)
  | Ok codec_name =>
      let cmd := crop_command (HAS_CROP_CUDA W) (cuvid_decoder_of codec_name)
                   src_path dst_path rect ow oh in
      let '(ret, written) := system W cmd in
      let fs' := match written with
                 | Some content => <[dst_path := content]> fs
                 | None => fs
                 end in
      if negb (ret =? 0)
      then (Throw ("ffmpeg crop_gpu command failed for " +:+ src_path), fs')
      else (Ok tt, fs')
  end.

(** [fs::copy_file(src, dst, overwrite_existing)].  The library reports an
    error, thrown here as [filesystem_error], when there is no file to copy
    and when the destination exists and is the source itself; otherwise the
    destination gets the content of the source.  A path stands for its file:
    two paths are the same file when they are the same string.  The files
    are regular files, directories are not in [FS]. *)
Definition copy_file (src dst : string) (fs : FS) : Result FS :=
  match fs !! src with
  | None => Throw "filesystem_error: copy_file"
  | Some content =>
      let equivalent :=
        match fs !! dst with
        | Some _ => String.eqb src dst
        | None => false
        end in
      if equivalent then Throw "filesystem_error: copy_file"
      else Ok (<[dst := content]> fs)
  end.

(** Calls the handler makes, in order. *)
Inductive Event : Type :=
| CallCropGpu (src_path dst_path : string) (rect : CropRect) (ow oh : Z)
| CallCopyFile (src dst : string).

(** Lines 359-373: the dimensions, [None] for the two returns of
    ["error_dimensions"]. *)
Definition probed_dimensions (W : World) (src_path : string) : Result (option (Z * Z)) :=
  let* width_str := ffprobe_val W src_path "width" in
  let* height_str := ffprobe_val W src_path "height" in
  if negb (String.eqb width_str "") && negb (String.eqb height_str "") then
    match stoi width_str with
    | Throw _ => Ok None
    | Ok ow =>
        match stoi height_str with
        | Throw _ => Ok None
        | Ok oh => Ok (Some (ow, oh))
        end
    end
  else Ok None.

(** Lines 379-392: the rectangle and the mode the handler goes on with. *)
Definition selected_rect (W : World) (src_path : string) (ow oh : Z)
  : Result (CropRect * string) :=
  let* rect := detect_crop_ffmpeg W src_path in
  if negb (is_good_crop rect ow oh) then
    let alt_rect := detect_gradient W src_path ow oh in
    if is_good_crop alt_rect ow oh then Ok (alt_rect, "gradient")
    else Ok (rect, "ffmpeg")
  else Ok (rect, "ffmpeg").

(** [handle_video_phase1] (lines 355-411): the status returned or the
    exception that leaves the function, the files afterwards, and the
    calls made. *)
Definition handle_video_phase1 (W : World) (src_path : string) (fs : FS)
  : Result string * FS * list Event :=
  match probed_dimensions W src_path with
  | Throw what => (Throw what, fs, [])
  | Ok None => (Ok "error_dimensions", fs, [])
  | Ok (Some (ow, oh)) =>
      let dst_path := path_append CROPPED_DIR (filename src_path) in
      match selected_rect W src_path ow oh with
      | Throw what => (Throw what, fs, [])
      | Ok (rect, mode) =>
          if valid rect && is_good_crop rect ow oh then
            let call := CallCropGpu src_path dst_path rect ow oh in
            match crop_gpu W src_path dst_path rect ow oh fs with
            | (Ok _, fs1) => (Ok ("crop[" +:+ mode +:+ "]"), fs1, [call])
            | (Throw _, fs1) =>
                let copy := CallCopyFile src_path dst_path in
                match copy_file src_path dst_path fs1 with
                | Ok fs2 => (Ok "copy_after_error", fs2, [call; copy])
                | Throw what => (Throw what, fs1, [call; copy])
                end
            end
          else
            let copy := CallCopyFile src_path dst_path in
            match copy_file src_path dst_path fs with
            | Ok fs2 => (Ok "copy", fs2, [copy])
            | Throw what => (Throw what, fs, [copy])
            end
      end
  end.

(** The bounding box of a set of rectangles: corner [(x0, y0)] and far
    corner [(x1, y1)], each coordinate attained by one of them. *)
Definition is_union_box (rects : list CropRect) (x0 y0 x1 y1 : Z) : Prop :=
  (forall r, r ∈ rects ->
     x0 <= x r /\ y0 <= y r /\ x r + w r <= x1 /\ y r + h r <= y1)
  /\ (exists r, r ∈ rects /\ x r = x0)
  /\ (exists r, r ∈ rects /\ y r = y0)
  /\ (exists r, r ∈ rects /\ x r + w r = x1)
  /\ (exists r, r ∈ rects /\ y r + h r = y1).

(** The rectangle a log line [crop=W:H:X:Y] spells. *)
Definition rect_logged (m : CropMatch) : CropRect :=
  mkRect (Z.of_N (g3 m)) (Z.of_N (g4 m)) (Z.of_N (g1 m)) (Z.of_N (g2 m)) true.

(** [r] is the rectangle of one of the probes: the one spelled by the last
    match in the log of that probe. *)
Definition probe_rect (probe : nat -> Result (list CropMatch)) (r : CropRect) : Prop :=
  exists k ms m, (k < FFMPEG_PROBES)%nat /\ probe k = Ok ms
                 /\ last ms = Some m /\ r = rect_logged m.

(** The bounding box of the rectangles that satisfy [P]. *)
Definition is_union_of (P : CropRect -> Prop) (x0 y0 x1 y1 : Z) : Prop :=
  (forall r, P r ->
     x0 <= x r /\ y0 <= y r /\ x r + w r <= x1 /\ y r + h r <= y1)
  /\ (exists r, P r /\ x r = x0)
  /\ (exists r, P r /\ y r = y0)
  /\ (exists r, P r /\ x r + w r = x1)
  /\ (exists r, P r /\ y r + h r = y1).

(** A rectangle read from a probe log: valid, with components in
    [0, INT_MAX]. *)
Definition parsed (r : CropRect) : Prop :=
  valid r = true /\ 0 <= x r <= INT_MAX /\ 0 <= y r <= INT_MAX
  /\ 0 <= w r <= INT_MAX /\ 0 <= h r <= INT_MAX.

(** Components in range, sums included. *)
Definition fits (r : CropRect) : Prop :=
  0 <= x r /\ 0 <= y r /\ 0 <= w r /\ 0 <= h r
  /\ x r + w r <= INT_MAX /\ y r + h r <= INT_MAX.



End Crop.

(** ** Per-image border trim ([crop_n_frame.cpp], phase 2) *)

Module ImageCrop.
Import CInt Crop.

(** [cv::Vec3b]: three [uchar] channels. *)
Record Vec3b : Type := mkVec3b { c0 : Z; c1 : Z; c2 : Z }.

(** [cv::Scalar], of which three channels are read. *)
Record Scalar : Type := mkScalar { s0 : spec_float; s1 : spec_float; s2 : spec_float }.

(** A 3-channel 8-bit [cv::Mat]: its size and its pixels by (row, column). *)
Record Mat : Type := mkMat { rows : nat; cols : nat; at_ : nat -> nat -> Vec3b }.

Definition TOLERANCE : Z := 5.

Definition empty (img : Mat) : bool :=
  (rows img =? 0)%nat || (cols img =? 0)%nat.

(** [img.row(y)] and [img.col(x)], as the pixels they run over. *)
Definition row (img : Mat) (yy : nat) : list Vec3b :=
  map (fun i => at_ img yy i) (seq 0 (cols img)).
Definition col (img : Mat) (xx : nat) : list Vec3b :=
  map (fun i => at_ img i xx) (seq 0 (rows img)).

Section WithMean.

(** [cv::mean] of the vision library, on the pixels of a line. *)
Variable cv_mean : list Vec3b -> Scalar.

(** Line 445-447: [diff_sum] of pixel [p] against the truncated mean. *)
Definition diff_sum (mean_val : Scalar) (p : Vec3b) : Z :=
  Z.abs (c0 p - Double.to_int (s0 mean_val))
  + Z.abs (c1 p - Double.to_int (s1 mean_val))
  + Z.abs (c2 p - Double.to_int (s2 mean_val)).

(** The loop of lines 443-451 over the pixels of the line. *)
Fixpoint all_close (mean_val : Scalar) (tol : Z) (pixels : list Vec3b) : bool :=
  match pixels with
  | [] => true
  | p :: rest =>
      if diff_sum mean_val p >? wrap32 (tol * 3) then false
      else all_close mean_val tol rest
  end.

(** The lambda [is_blank_line] (lines 421-453).  Its flag [is_row] only
    selects the axis along which the line is read; here the line is already
    the list of its pixels. *)
Definition is_blank_line (tol : Z) (line_roi : list Vec3b) : bool :=
  match line_roi with
  | [] => true
  | _ => all_close (cv_mean line_roi) tol line_roi
  end.

(** A scan loop of lines 457-460: the first index of [idxs] whose line is
    not blank, [dflt] when there is none. *)
Fixpoint scan (blank : nat -> bool) (idxs : list nat) (dflt : Z) : Z :=
  match idxs with
  | [] => dflt
  | i :: rest => if negb (blank i) then Z.of_nat i else scan blank rest dflt
  end.

(** [detect_image_crop_cv] (lines 416-464). *)
Definition detect_image_crop_cv (img : Mat) (tol : Z) : CropRect :=
  if empty img then no_rect
  else
    let hh := rows img in
    let ww := cols img in
    let blank_col := fun i => is_blank_line tol (col img i) in
    let blank_row := fun i => is_blank_line tol (row img i) in
    let x0 := scan blank_col (seq 0 ww) (Z.of_nat ww) in
    let x1 := scan blank_col (rev (seq 0 ww)) 0 in
    let y0 := scan blank_row (seq 0 hh) (Z.of_nat hh) in
    let y1 := scan blank_row (rev (seq 0 hh)) 0 in
    if (x0 >=? x1) || (y0 >=? y1) then no_rect
    else mkRect x0 y0 (x1 - x0 + 1) (y1 - y0 + 1) true.

(** The reading of the blank test by channel: each channel of the pixel is
    within [tol] of the (truncated) mean of the line. *)
Definition within_per_channel (mean_val : Scalar) (tol : Z) (p : Vec3b) : Prop :=
  Z.abs (c0 p - Double.to_int (s0 mean_val)) <= tol
  /\ Z.abs (c1 p - Double.to_int (s1 mean_val)) <= tol
  /\ Z.abs (c2 p - Double.to_int (s2 mean_val)) <= tol.

End WithMean.

(** A mean for concrete lines: per channel, the sum of the values divided
    by their number, rounded once to binary64. *)
Definition mean_of (line : list Vec3b) : Scalar :=
  let n := Double.of_int (Z.of_nat (length line)) in
  let total (c : Vec3b -> Z) := Double.of_int (fold_right Z.add 0 (map c line)) in
  mkScalar (Double.div (total c0) n) (Double.div (total c1) n)
           (Double.div (total c2) n).

End ImageCrop.


(** ** Resources of the hardware pipeline ([crop/main.cpp]) *)

Module Pipeline.

(** The pointers through which [main] and [init_filters] own something.
    A slot is named after the variable or field; [FrameData] and
    [FrameHwFramesCtx] are the buffers and the [hw_frames_ctx] reference a
    filled [AVFrame] carries, and likewise for the filtered frame and the
    packets.  [new_enc_hw_frames_ctx] (line 591) is stored into
    [encoder_ctx_global->hw_frames_ctx] at line 604 without a new
    reference and is not used afterwards: one slot stands for both. *)
Inductive Slot : Type :=
| InputFormatCtx
| DecoderCtx
| HwDeviceCtxRef
| DecoderHwDeviceCtx
| DecoderHwFramesCtx
| FramesRef
| DecoderHwFramesCtxRef
| OutputFormatCtx
| OutputPb
| EncoderCtx
| EncoderHwFramesCtx
| TempDecCtx
| TempHwFramesCtx
| FilterGraph
| FilterInputs
| FilterOutputs
| SrcPar
| SrcParHwFramesCtx
| Frame
| FrameData
| FrameHwFramesCtx
| FiltFrame
| FiltFrameData
| FiltFrameHwFramesCtx
| Packet
| PacketData
| EncPkt
| EncPktData.

Definition all_slots : list Slot :=
  [InputFormatCtx; DecoderCtx; HwDeviceCtxRef; DecoderHwDeviceCtx;
   DecoderHwFramesCtx; FramesRef; DecoderHwFramesCtxRef; OutputFormatCtx;
   OutputPb; EncoderCtx; EncoderHwFramesCtx; TempDecCtx; TempHwFramesCtx;
   FilterGraph; FilterInputs; FilterOutputs; SrcPar; SrcParHwFramesCtx;
   Frame; FrameData; FrameHwFramesCtx; FiltFrame; FiltFrameData;
   FiltFrameHwFramesCtx; Packet; PacketData; EncPkt; EncPktData].

Definition slot_index (s : Slot) : nat :=
  match s with
  | InputFormatCtx => 0 | DecoderCtx => 1 | HwDeviceCtxRef => 2
  | DecoderHwDeviceCtx => 3 | DecoderHwFramesCtx => 4 | FramesRef => 5
  | DecoderHwFramesCtxRef => 6 | OutputFormatCtx => 7 | OutputPb => 8
  | EncoderCtx => 9 | EncoderHwFramesCtx => 10 | TempDecCtx => 11
  | TempHwFramesCtx => 12 | FilterGraph => 13 | FilterInputs => 14
  | FilterOutputs => 15 | SrcPar => 16 | SrcParHwFramesCtx => 17
  | Frame => 18 | FrameData => 19 | FrameHwFramesCtx => 20
  | FiltFrame => 21 | FiltFrameData => 22 | FiltFrameHwFramesCtx => 23
  | Packet => 24 | PacketData => 25 | EncPkt => 26 | EncPktData => 27
  end.

Definition slot_eqb (a b : Slot) : bool := (slot_index a =? slot_index b)%nat.

(** The slots that hold a reference to a hardware device context or to a
    hardware frame pool. *)
Definition is_hw_context_ref (s : Slot) : bool :=
  match s with
  | HwDeviceCtxRef | DecoderHwDeviceCtx | DecoderHwFramesCtx | FramesRef
  | DecoderHwFramesCtxRef | EncoderHwFramesCtx | TempHwFramesCtx
  | SrcParHwFramesCtx | FrameHwFramesCtx | FiltFrameHwFramesCtx => true
  | _ => false
  end.

(** The ledger of a run: which slots own something now, how often each
    slot acquired and released, how many resources were lost because a
    slot was overwritten while it owned one, and whether a null handle was
    passed where the library dereferences it. *)
Record Ledger : Type := mkLedger {
  held : Slot -> bool;
  acquired : Slot -> nat;
  released : Slot -> nat;
  lost : nat;
  faulted : bool
}.

Definition upd {A : Type} (s : Slot) (v : A) (f : Slot -> A) : Slot -> A :=
  fun s' => if slot_eqb s s' then v else f s'.

Definition start : Ledger :=
  mkLedger (fun _ => false) (fun _ => O) (fun _ => O) O false.

(** The slot receives a fresh resource or reference ([..._alloc],
    [av_buffer_ref], a frame filled by the library, ...). *)
Definition acquire (s : Slot) (L : Ledger) : Ledger :=
  mkLedger (upd s true (held L))
           (upd s (S (acquired L s)) (acquired L))
           (released L)
           (if held L s then S (lost L) else lost L)
           (faulted L).

(** [av_buffer_unref(&p)], [av_frame_free(&p)], [avcodec_free_context(&p)]
    and the like: nothing on a null pointer, otherwise release and set the
    pointer to null. *)
Definition release (s : Slot) (L : Ledger) : Ledger :=
  if held L s then
    mkLedger (upd s false (held L)) (acquired L)
             (upd s (S (released L s)) (released L)) (lost L) (faulted L)
  else L.

(** A call that dereferences the handle. *)
Definition deref (s : Slot) (L : Ledger) : Ledger :=
  if held L s then L
  else mkLedger (held L) (acquired L) (released L) (lost L) true.

Definition av_frame_unref_frame (L : Ledger) : Ledger :=
  release FrameHwFramesCtx (release FrameData L).
Definition av_frame_unref_filt_frame (L : Ledger) : Ledger :=
  release FiltFrameHwFramesCtx (release FiltFrameData L).

(** *** Outcomes of the library calls *)

(** One call of [encode_write_frame]: [written] has one entry per packet
    the encoder hands out, telling whether writing it succeeds;
    [drain_negative] tells whether the function returns a negative value
    once the encoder has no more packets. *)
Record EncodeRun : Type := mkEncodeRun {
  enc_pkt_alloc_ok : bool;
  send_frame_fatal : bool;
  written : list bool;
  drain_negative : bool
}.

(** One frame out of the filter sink. *)
Record SinkStep : Type := mkSinkStep {
  filt_cuda : bool;
  filt_has_hw_frames_ctx : bool;
  filt_ref_ok : bool;
  encode_run : EncodeRun
}.

(** One frame out of the decoder, and what the sink yields after it was
    fed to the graph; [sink_fails]: the sink ends with an error rather
    than with EAGAIN or EOF. *)
Record FrameStep : Type := mkFrameStep {
  frame_cuda : bool;
  frame_has_hw_frames_ctx : bool;
  frame_ref_ok : bool;
  add_frame_ok : bool;
  sink_steps : list SinkStep;
  sink_fails : bool
}.

(** One packet read from the input. *)
Record PacketStep : Type := mkPacketStep {
  is_video : bool;
  send_packet_ok : bool;
  frame_steps : list FrameStep;
  receive_fails : bool
}.

Record FilterSetup : Type := mkFilterSetup {
  outputs_alloc_ok : bool;
  inputs_alloc_ok : bool;
  graph_alloc_ok : bool;
  create_src_ok : bool;
  src_par_alloc_ok : bool;
  src_par_ref_ok : bool;
  parameters_set_ok : bool;
  create_sink_ok : bool;
  set_pix_fmts_ok : bool;
  parse_ok : bool;
  config_ok : bool
}.

Record Run : Type := mkRun {
  open_input_ok : bool;
  find_stream_info_ok : bool;
  video_stream_found : bool;
  decoder_found : bool;
  decoder_ctx_alloc_ok : bool;
  parameters_to_context_ok : bool;
  is_hw_decoder : bool;
  hwdevice_ctx_create_ok : bool;
  decoder_device_ref_ok : bool;
  decoder_open_sets_hw_frames_ctx : bool;
  decoder_open_ok : bool;
  decoder_pix_fmt_cuda : bool;
  frames_alloc_ok : bool;
  frames_init_ok : bool;
  decoder_frames_ref_ok : bool;
  decoder_frames_second_ref_ok : bool;
  output_ctx_alloc_ok : bool;
  encoder_found : bool;
  new_stream_ok : bool;
  encoder_ctx_alloc_ok : bool;
  temp_ctx_alloc_ok : bool;
  temp_frames_ref_ok : bool;
  filter_setup : FilterSetup;
  enc_frames_alloc_ok : bool;
  enc_frames_init_ok : bool;
  encoder_open_ok : bool;
  parameters_from_context_ok : bool;
  output_nofile : bool;
  avio_open_ok : bool;
  write_header_ok : bool;
  frame_alloc_ok : bool;
  filt_frame_alloc_ok : bool;
  packet_alloc_ok : bool;
  packets : list PacketStep;
  flush_send_ok : bool;
  flush_frame : option FrameStep;
  flush_sink_steps : list SinkStep;
  flush_encode_run : EncodeRun
}.

(** *** [encode_write_frame] (lines 221-274) *)

(** The loop of lines 244-266.  A packet received owns its data;
    [av_interleaved_write_frame] takes that reference over and leaves the
    packet blank, whether it succeeds or not.  Returns the ledger at
    [end_encode] and whether the value returned is negative. *)
Fixpoint receive_packets (ws : list bool) (drain_neg : bool) (L : Ledger)
  : Ledger * bool :=
  match ws with
  | [] => (L, drain_neg)
  | write_ok :: rest =>
      (* avcodec_receive_packet *)
      let L := acquire EncPktData L in
      (* av_interleaved_write_frame *)
      let L := release EncPktData L in
      if write_ok
      then receive_packets rest drain_neg ((* av_packet_unref *) release EncPktData L)
      else (L, true)
  end.

Definition encode_write_frame (o : EncodeRun) (L : Ledger) : Ledger * bool :=
  if negb (enc_pkt_alloc_ok o) then (L, true)
  else
    let L := acquire EncPkt L in
    let '(L, negative) :=
      if send_frame_fatal o then (L, true)
      else receive_packets (written o) (drain_negative o) L in
    (* end_encode: av_packet_free(&enc_pkt) *)
    (release EncPkt (release EncPktData L), negative).

(** *** The loops of [main] *)

(** How a loop is left: by falling out of it, or by the jump to
    [end_processing_loop]. *)
Inductive Exit : Type := FallThrough | GotoEnd.

(** Lines 717-724: a filtered CUDA frame without [hw_frames_ctx] gets a
    reference to the encoder's pool, when the encoder has one. *)
Definition attach_encoder_pool (s : SinkStep) (L : Ledger) : Ledger :=
  if filt_cuda s && negb (held L FiltFrameHwFramesCtx)
     && held L EncoderHwFramesCtx
  then if filt_ref_ok s then acquire FiltFrameHwFramesCtx L else L
  else L.

(** [av_buffersink_get_frame] succeeded: the frame owns its data and, if
    the graph gave it one, a pool reference. *)
Definition sink_frame_received (s : SinkStep) (L : Ledger) : Ledger :=
  let L := acquire FiltFrameData L in
  if filt_has_hw_frames_ctx s then acquire FiltFrameHwFramesCtx L else L.

(** Lines 703-737. *)
Fixpoint sink_loop (steps : list SinkStep) (fails : bool) (L : Ledger)
  : Ledger * Exit :=
  match steps with
  | [] => (L, if fails then GotoEnd else FallThrough)
  | s :: rest =>
      let L := sink_frame_received s L in
      let L := attach_encoder_pool s L in
      let '(L, negative) := encode_write_frame (encode_run s) L in
      if negative then (av_frame_unref_filt_frame L, GotoEnd)
      else sink_loop rest fails (av_frame_unref_filt_frame L)
  end.

(** [avcodec_receive_frame] unreferences the frame it is given before
    anything else; on success the frame owns its data and, if the decoder
    gave it one, a pool reference. *)
Definition frame_received (s : FrameStep) (L : Ledger) : Ledger :=
  let L := av_frame_unref_frame L in
  let L := acquire FrameData L in
  if frame_has_hw_frames_ctx s then acquire FrameHwFramesCtx L else L.

(** Lines 661-673. *)
Definition attach_decoder_pool (s : FrameStep) (L : Ledger) : Ledger :=
  if frame_cuda s && negb (held L FrameHwFramesCtx) then
    if held L DecoderHwFramesCtx then
      if frame_ref_ok s then acquire FrameHwFramesCtx L else L
    else L
  else L.

(** Lines 653-741. *)
Fixpoint receive_loop (steps : list FrameStep) (fails : bool) (L : Ledger)
  : Ledger * Exit :=
  match steps with
  | [] => (av_frame_unref_frame L, if fails then GotoEnd else FallThrough)
  | s :: rest =>
      let L := frame_received s L in
      let L := attach_decoder_pool s L in
      if negb (add_frame_ok s) then (av_frame_unref_frame L, FallThrough)
      else
        match sink_loop (sink_steps s) (sink_fails s) L with
        | (L, GotoEnd) => (L, GotoEnd)
        | (L, FallThrough) => receive_loop rest fails (av_frame_unref_frame L)
        end
  end.

(** Lines 645-745: the ledger at [end_processing_loop].  [av_read_frame]
    fills the packet; a failed [avcodec_send_packet] breaks out of the
    loop with the packet still filled. *)
Fixpoint read_loop (steps : list PacketStep) (L : Ledger) : Ledger :=
  match steps with
  | [] => L
  | p :: rest =>
      let L := acquire PacketData L in
      if is_video p then
        if negb (send_packet_ok p) then L
        else
          match receive_loop (frame_steps p) (receive_fails p) L with
          | (L, GotoEnd) => L
          | (L, FallThrough) => read_loop rest (release PacketData L)
          end
      else read_loop rest (release PacketData L)
  end.

(** The sink drains of the flush stages (lines 773-785 and 795-808): the
    value of [encode_write_frame] is not looked at. *)
Fixpoint flush_sink_loop (steps : list SinkStep) (L : Ledger) : Ledger :=
  match steps with
  | [] => L
  | s :: rest =>
      let L := sink_frame_received s L in
      let L := attach_encoder_pool s L in
      let L := (encode_write_frame (encode_run s) L).1 in
      flush_sink_loop rest (av_frame_unref_filt_frame L)
  end.

(** Lines 752-787: the ledger at [end_flush_filter].  The body runs at
    most once, the sink drain ending with a negative [ret]. *)
Definition flush_decoder (o : Run) (L : Ledger) : Ledger :=
  if flush_send_ok o then
    match flush_frame o with
    | None => av_frame_unref_frame L
    | Some s =>
        let L := frame_received s L in
        let L :=
          if frame_cuda s && negb (held L FrameHwFramesCtx)
             && held L DecoderHwFramesCtx
          then if frame_ref_ok s then acquire FrameHwFramesCtx L else L
          else L in
        if negb (add_frame_ok s) then av_frame_unref_frame L
        else av_frame_unref_frame (flush_sink_loop (sink_steps s) L)
    end
  else L.

(** *** [init_filters] (lines 70-219) *)

(** The label [end] (lines 209-218). *)
Definition init_filters_end (L : Ledger) : Ledger :=
  let L := release SrcParHwFramesCtx L in
  let L := release SrcPar L in
  let L := release FilterInputs L in
  release FilterOutputs L.

(** Returns the ledger and whether the value returned is 0.  The pixel
    format of the context passed by [main] is never [AV_PIX_FMT_NONE]
    (lines 532-546), and the descriptor of [AV_PIX_FMT_CUDA] has the
    hardware flag.  [avfilter_graph_parse_ptr] consumes both lists. *)
Definition init_filters (o : FilterSetup) (L : Ledger) : Ledger * bool :=
  let L := if outputs_alloc_ok o then acquire FilterOutputs L else L in
  let L := if inputs_alloc_ok o then acquire FilterInputs L else L in
  let L := if graph_alloc_ok o then acquire FilterGraph L else L in
  if negb (outputs_alloc_ok o && inputs_alloc_ok o && graph_alloc_ok o)
  then (init_filters_end L, false)
  else if negb (create_src_ok o) then (init_filters_end L, false)
  else if negb (src_par_alloc_ok o) then (init_filters_end L, false)
  else
    let L := acquire SrcPar L in
    if negb (held L TempHwFramesCtx) then (init_filters_end L, false)
    else if negb (src_par_ref_ok o) then (init_filters_end L, false)
    else
      let L := acquire SrcParHwFramesCtx L in
      if negb (parameters_set_ok o) then (init_filters_end L, false)
      else if negb (create_sink_ok o) then (init_filters_end L, false)
      else if negb (set_pix_fmts_ok o) then (init_filters_end L, false)
      else
        let L := release FilterOutputs (release FilterInputs L) in
        if negb (parse_ok o) then (init_filters_end L, false)
        else if negb (config_ok o) then (init_filters_end L, false)
        else (init_filters_end L, true).

(** *** [main] from line 333 on *)

(** [avcodec_free_context(&ctx)] also drops the references the context
    still has. *)
Definition free_temp_dec_ctx (L : Ledger) : Ledger :=
  release TempDecCtx (release TempHwFramesCtx L).

(** Lines 645-816: the main loop and the three flush stages, entered with
    [packet] allocated. *)
Definition streaming (o : Run) (L : Ledger) : Ledger :=
  let L := read_loop (packets o) L in
  (* end_processing_loop: av_packet_free(&packet) *)
  let L := release Packet (release PacketData L) in
  let L := flush_decoder o L in
  (* end_flush_filter *)
  let L := flush_sink_loop (flush_sink_steps o) L in
  (encode_write_frame (flush_encode_run o) L).1.

(** Lines 632-816, entered with the pipeline set up. *)
Definition transcode_loop (o : Run) (L : Ledger) : Ledger :=
  let L := if frame_alloc_ok o then acquire Frame L else L in
  let L := if filt_frame_alloc_ok o then acquire FiltFrame L else L in
  if negb (frame_alloc_ok o && filt_frame_alloc_ok o) then L
  else if negb (packet_alloc_ok o) then L
  else streaming o (acquire Packet L).

(** Lines 576-630: the filter graph, the encoder and the output file, once
    the temporary context is filled in. *)
Definition filters_and_encoder (o : Run) (L : Ledger) : Ledger :=
  let '(L, filters_ok) := init_filters (filter_setup o) L in
  let L := free_temp_dec_ctx (release TempHwFramesCtx L) in
  if negb filters_ok then L
  else
    let L := deref HwDeviceCtxRef L in
    if negb (enc_frames_alloc_ok o) then L
    else
      let L := acquire EncoderHwFramesCtx L in
      if negb (enc_frames_init_ok o) then release EncoderHwFramesCtx L
      else if negb (encoder_open_ok o) then L
      else if negb (parameters_from_context_ok o) then L
      else
        let opened :=
          if negb (output_nofile o) then
            if avio_open_ok o then (acquire OutputPb L, true)
            else (L, false)
          else (L, true) in
        let '(L, io_ok) := opened in
        if negb io_ok then L
        else if negb (write_header_ok o) then L
        else transcode_loop o L.

(** Lines 482-630. *)
Definition open_output (o : Run) (L : Ledger) : Ledger :=
  if negb (output_ctx_alloc_ok o) then L
  else
    let L := acquire OutputFormatCtx L in
    if negb (encoder_found o) then L
    else if negb (new_stream_ok o) then L
    else if negb (encoder_ctx_alloc_ok o) then L
    else
      let L := acquire EncoderCtx L in
      if negb (temp_ctx_alloc_ok o) then L
      else
        let L := acquire TempDecCtx L in
        let attach :=
          if is_hw_decoder o && held L DecoderHwFramesCtx then
            if temp_frames_ref_ok o then (acquire TempHwFramesCtx L, true)
            else (free_temp_dec_ctx L, false)
          else (L, true) in
        let '(L, attached) := attach in
        if negb attached then L
        else filters_and_encoder o L.

(** Lines 417-463. *)
Definition decoder_frame_pool (o : Run) (L : Ledger) : Ledger * bool :=
  let made :=
    if is_hw_decoder o && decoder_pix_fmt_cuda o
       && negb (held L DecoderHwFramesCtx)
    then
      let L := deref HwDeviceCtxRef L in
      if negb (frames_alloc_ok o) then (L, false)
      else
        let L := acquire FramesRef L in
        if negb (frames_init_ok o) then (release FramesRef L, false)
        else
          let L := if decoder_frames_ref_ok o
                   then acquire DecoderHwFramesCtx L else L in
          (release FramesRef L, true)
    else (L, true) in
  let '(L, ok) := made in
  if negb ok then (L, false)
  else if is_hw_decoder o then
    if decoder_pix_fmt_cuda o then
      if held L DecoderHwFramesCtx then
        (if decoder_frames_second_ref_ok o
         then acquire DecoderHwFramesCtxRef L else L, true)
      else (L, false)
    else (L, false)
  else (L, true).

(** The [try] block (lines 333-816): the ledger when the block is left,
    normally or by a [throw]. *)
Definition try_block (o : Run) (L : Ledger) : Ledger :=
  if negb (open_input_ok o) then L
  else
    let L := acquire InputFormatCtx L in
    if negb (find_stream_info_ok o) then L
    else if negb (video_stream_found o && decoder_found o) then L
    else if negb (decoder_ctx_alloc_ok o) then L
    else
      let L := acquire DecoderCtx L in
      if negb (parameters_to_context_ok o) then L
      else
        let device :=
          if is_hw_decoder o then
            if negb (hwdevice_ctx_create_ok o) then (L, false)
            else
              let L := acquire HwDeviceCtxRef L in
              if negb (decoder_device_ref_ok o)
              then (release HwDeviceCtxRef L, false)
              else (acquire DecoderHwDeviceCtx L, true)
          else (L, true) in
        let '(L, device_ok) := device in
        if negb device_ok then L
        else
          let L := if decoder_open_sets_hw_frames_ctx o
                   then acquire DecoderHwFramesCtx L else L in
          if negb (decoder_open_ok o) then L
          else
            let '(L, pool_ok) := decoder_frame_pool o L in
            if negb pool_ok then L
            else open_output o L.

(** The cleanup after the [try] block (lines 826-862). *)
Definition cleanup (o : Run) (L : Ledger) : Ledger :=
  let L := if held L Frame
           then release Frame (av_frame_unref_frame L) else L in
  let L := if held L FiltFrame
           then release FiltFrame (av_frame_unref_filt_frame L) else L in
  let L := release FilterGraph L in
  let L :=
    if held L DecoderCtx then
      let L := release DecoderHwFramesCtx L in
      let L := release DecoderHwDeviceCtx L in
      release DecoderCtx L
    else L in
  let L := release DecoderHwFramesCtxRef L in
  let L :=
    if held L EncoderCtx then
      release EncoderCtx (release EncoderHwFramesCtx L)
    else L in
  let L := release InputFormatCtx L in
  let L :=
    if held L OutputFormatCtx then
      let L := if negb (output_nofile o) then release OutputPb L else L in
      release OutputFormatCtx L
    else L in
  release HwDeviceCtxRef L.

Definition main (o : Run) : Ledger := cleanup o (try_block o start).

(** Totals over the slots that hold hardware-context references. *)
Definition total (count : Slot -> nat) (keep : Slot -> bool) : nat :=
  fold_right Nat.add O (map count (filter keep all_slots)).

(** Every slot is empty and has released as often as it acquired, and
    nothing was lost or dereferenced null. *)
Definition settled (L : Ledger) : Prop :=
  (forall s, held L s = false)
  /\ (forall s, acquired L s = released L s)
  /\ lost L = O /\ faulted L = false.

(** The same check as a function. *)
Definition settledb (L : Ledger) : bool :=
  forallb (fun s => negb (held L s) && (acquired L s =? released L s)%nat)
          all_slots
  && (lost L =? 0)%nat && negb (faulted L).

(** Counters in step with the slots. *)
Definition balanced (L : Ledger) : Prop :=
  (forall s, acquired L s = (released L s + if held L s then 1 else 0)%nat)
  /\ lost L = O /\ faulted L = false.

Definition balancedb (L : Ledger) : bool :=
  forallb (fun s => (acquired L s
                     =? released L s + if held L s then 1 else 0)%nat)
          all_slots
  && (lost L =? 0)%nat && negb (faulted L).

(** [L'] has the same slots filled as [L]. *)
Definition same_slots (L L' : Ledger) : Prop :=
  forall s, held L' s = held L s.

(** The two slots of the decoded frame's contents. *)
Definition frame_slot (s : Slot) : bool :=
  match s with FrameData | FrameHwFramesCtx => true | _ => false end.

(** [L'] has the same slots filled as [L], but for the two of the decoded
    frame. *)
Definition same_but_frame (L L' : Ledger) : Prop :=
  forall s, frame_slot s = false -> held L' s = held L s.

(** The filtered frame and the encoder's packet are blank. *)
Definition sink_ready (L : Ledger) : Prop :=
  held L FiltFrameData = false /\ held L FiltFrameHwFramesCtx = false
  /\ held L EncPkt = false /\ held L EncPktData = false.

(** The slots the loops of [streaming] may leave changed. *)
Definition stream_slot (s : Slot) : bool :=
  match s with
  | FrameData | FrameHwFramesCtx | Packet | PacketData => true
  | _ => false
  end.

Definition emptyb (slots : list Slot) (L : Ledger) : bool :=
  forallb (fun s => negb (held L s)) slots.

(** The slots of [init_filters], of the temporary context and of the
    packets: nothing outside the function or loop that fills them sees
    them filled. *)
Definition local_slots : list Slot :=
  [FramesRef; TempDecCtx; TempHwFramesCtx; FilterInputs; FilterOutputs;
   SrcPar; SrcParHwFramesCtx; Packet; PacketData; EncPkt; EncPktData].

(** What the cleanup relies on: the slots it does not visit are empty, and
    a slot it visits only behind a guard is empty when the guard is. *)
Definition tidyb (o : Run) (L : Ledger) : bool :=
  emptyb local_slots L
  && (held L Frame || negb (held L FrameData || held L FrameHwFramesCtx))
  && (held L FiltFrame
      || negb (held L FiltFrameData || held L FiltFrameHwFramesCtx))
  && (held L DecoderCtx
      || negb (held L DecoderHwFramesCtx || held L DecoderHwDeviceCtx))
  && (held L EncoderCtx || negb (held L EncoderHwFramesCtx))
  && (negb (held L OutputPb)
      || (held L OutputFormatCtx && negb (output_nofile o))).

Definition good (o : Run) (L : Ledger) : Prop :=
  balanced L /\ tidyb o L = true.

(** The slots [init_filters] fills. *)
Definition filter_slots : list Slot :=
  [FilterOutputs; FilterInputs; FilterGraph; SrcPar; SrcParHwFramesCtx].

(** The slots of the frames and packets of the loops. *)
Definition frame_slots : list Slot :=
  [Frame; FrameData; FrameHwFramesCtx; FiltFrame; FiltFrameData;
   FiltFrameHwFramesCtx; Packet; PacketData; EncPkt; EncPktData].

(** The slots first filled from line 482 on: all but those of the input
    and of the decoder. *)
Definition output_slots : list Slot :=
  [FramesRef; OutputFormatCtx; OutputPb; EncoderCtx; EncoderHwFramesCtx;
   TempDecCtx; TempHwFramesCtx; FilterGraph; FilterInputs; FilterOutputs;
   SrcPar; SrcParHwFramesCtx; Frame; FrameData; FrameHwFramesCtx; FiltFrame;
   FiltFrameData; FiltFrameHwFramesCtx; Packet; PacketData; EncPkt;
   EncPktData].

(** The slots still empty when [init_filters] is called. *)
Definition pending_slots : list Slot :=
  [FramesRef; OutputPb; EncoderHwFramesCtx; FilterGraph; FilterInputs;
   FilterOutputs; SrcPar; SrcParHwFramesCtx; Frame; FrameData;
   FrameHwFramesCtx; FiltFrame; FiltFrameData; FiltFrameHwFramesCtx; Packet;
   PacketData; EncPkt; EncPktData].

(** The slots filled only once [init_filters] has succeeded. *)
Definition after_filters (s : Slot) : bool :=
  match s with
  | EncoderHwFramesCtx | OutputPb | Frame | FrameData | FrameHwFramesCtx
  | FiltFrame | FiltFrameData | FiltFrameHwFramesCtx | Packet | PacketData
  | EncPkt | EncPktData => true
  | _ => false
  end.

End Pipeline.

(** ** The pixel-format callback ([crop/main.cpp], lines 49-58) *)

Module HwFormat.

(** [enum AVPixelFormat], of which the callback tells two values apart. *)
Inductive AVPixelFormat : Type :=
| AV_PIX_FMT_NONE
| AV_PIX_FMT_CUDA
| AV_PIX_FMT_other (id : Z).

(** [get_hw_format]: [pix_fmts] is the array the decoder offers, read up to
    its terminator [AV_PIX_FMT_NONE]; the end of the list stands for a
    terminator. *)
Fixpoint get_hw_format (pix_fmts : list AVPixelFormat) : AVPixelFormat :=
  match pix_fmts with
  | [] => AV_PIX_FMT_NONE
  | AV_PIX_FMT_NONE :: _ => AV_PIX_FMT_NONE
  | AV_PIX_FMT_CUDA :: _ => AV_PIX_FMT_CUDA
  | AV_PIX_FMT_other _ :: rest => get_hw_format rest
  end.

(** The formats offered: those before the terminator. *)
Fixpoint offered (pix_fmts : list AVPixelFormat) : list AVPixelFormat :=
  match pix_fmts with
  | [] => []
  | AV_PIX_FMT_NONE :: _ => []
  | p :: rest => p :: offered rest
  end.

End HwFormat.

(** ** Command line of the pipeline ([crop/main.cpp], lines 277-318) *)

Module Args.
Import CInt Cxx.

Definition EXIT_SUCCESS : Z := 0.
Definition EXIT_FAILURE : Z := 1.

(** [CROP_W_val], [CROP_H_val], [CROP_X_val], [CROP_Y_val]. *)
Record CropArgs : Type :=
  mkCropArgs { crop_w : Z; crop_h : Z; crop_x : Z; crop_y : Z }.

(** Their initial values (lines 25-28). *)
Definition default_crop : CropArgs := mkCropArgs 640 360 100 50.

(** [main] returns before it opens anything, or goes on with the two file
    names and the crop window. *)
Inductive Startup : Type :=
| Exits (code : Z)
| Proceeds (input_filename output_filename : string) (crop : CropArgs).

(** [argv[i]]. *)
Definition arg (argv : list string) (i : nat) : string := nth i argv "".

(** Lines 293-303: the four values are parsed in order, then checked; both
    exceptions of [std::stoi] and the two [std::out_of_range] thrown by the
    checks are caught at lines 306-312. *)
Definition parse_crop (argv : list string) : Result CropArgs :=
  let* cw := stoi (arg argv 3) in
  let* ch := stoi (arg argv 4) in
  let* cx := stoi (arg argv 5) in
  let* cy := stoi (arg argv 6) in
  if (cw <=? 0) || (ch <=? 0)
  then Throw "Crop width and height must be positive."
  else if (cx <? 0) || (cy <? 0)
  then Throw "Crop X and Y offsets must be non-negative."
  else Ok (mkCropArgs cw ch cx cy).

(** Lines 281-318, [argc] being the length of [argv]. *)
Definition parse_args (argv : list string) : Startup :=
  let argc := Z.of_nat (length argv) in
  if argc <? 3 then
    Exits (if argc =? 1 then EXIT_SUCCESS else EXIT_FAILURE)
  else
    let input_filename := arg argv 1 in
    let output_filename := arg argv 2 in
    if argc >=? 7 then
      match parse_crop argv with
      | Ok crop => Proceeds input_filename output_filename crop
      | Throw _ => Exits EXIT_FAILURE
      end
    else Proceeds input_filename output_filename default_crop.

End Args.

(** ** The text ffprobe prints ([crop_n_frame.cpp], lines 90-92) *)

Module ProbeText.

(** The characters of [" \n\r\t"]. *)
Definition is_trim_char (c : ascii) : bool :=
  let n := nat_of_ascii c in
  (n =? 32)%nat || (n =? 10)%nat || (n =? 13)%nat || (n =? 9)%nat.

(** [output.erase(0, output.find_first_not_of(" \n\r\t"))]; without such a
    character the position is [npos] and the whole string goes. *)
Fixpoint erase_leading (s : string) : string :=
  match s with
  | String c rest => if is_trim_char c then erase_leading rest else s
  | EmptyString => EmptyString
  end.

(** [output.erase(output.find_last_not_of(" \n\r\t") + 1)]; without such a
    character [npos + 1] is 0 and the whole string goes. *)
Fixpoint erase_trailing (s : string) : string :=
  match s with
  | String c rest =>
      match erase_trailing rest with
      | EmptyString => if is_trim_char c then EmptyString else String c EmptyString
      | kept => String c kept
      end
  | EmptyString => EmptyString
  end.

(** [::tolower] in the C locale. *)
Definition tolower (c : ascii) : ascii :=
  let n := nat_of_ascii c in
  if (65 <=? n)%nat && (n <=? 90)%nat then ascii_of_nat (n + 32) else c.

(** [std::transform(s.begin(), s.end(), s.begin(), ::tolower)]. *)
Fixpoint lower (s : string) : string :=
  match s with
  | String c rest => String (tolower c) (lower rest)
  | EmptyString => EmptyString
  end.

(** What [ffprobe_val] makes of the output of the command. *)
Definition trimmed_lower (output : string) : string :=
  lower (erase_trailing (erase_leading output)).

Definition first_char (s : string) : option ascii :=
  match s with
  | String c _ => Some c
  | EmptyString => None
  end.

Fixpoint last_char (s : string) : option ascii :=
  match s with
  | String c EmptyString => Some c
  | String _ rest => last_char rest
  | EmptyString => None
  end.

Fixpoint all_chars (p : ascii -> bool) (s : string) : bool :=
  match s with
  | String c rest => p c && all_chars p rest
  | EmptyString => true
  end.

Definition is_upper (c : ascii) : bool :=
  let n := nat_of_ascii c in (65 <=? n)%nat && (n <=? 90)%nat.

End ProbeText.

(** ** Paths *)

Module Paths.
Import Cxx ProbeText.

(** The suffix that starts at the last period of [s], if it has one. *)
Fixpoint from_last_period (s : string) : option string :=
  match s with
  | String c rest =>
      match from_last_period rest with
      | Some e => Some e
      | None => if Ascii.eqb c "." then Some s else None
      end
  | EmptyString => None
  end.

(** [std::filesystem::path::extension] of a file name: what starts at the
    rightmost period, unless that period is the first character or the
    name is [.] or [..]. *)
Definition extension (name : string) : string :=
  if String.eqb name "." || String.eqb name ".." then ""
  else
    match name with
    | String _ rest => default "" (from_last_period rest)
    | EmptyString => ""
    end.

(** [std::filesystem::path::stem]: the file name without its extension. *)
Definition stem (name : string) : string :=
  substring 0 (String.length name - String.length (extension name)) name.

End Paths.

(** ** The two phases ([crop_n_frame.cpp], lines 626-756) *)

Module Phases.
Import CInt Cxx ProbeText Paths Crop.

(** Line 628. *)
Definition video_extensions : list string :=
  [".mp4"; ".mkv"; ".mov"; ".avi"; ".webm"].

(** Lines 635-641: a regular file of the input directory is taken when its
    extension, in lower case, is one of the list. *)
Definition phase1_selects (path : string) : bool :=
  existsb (String.eqb (lower (extension (filename path)))) video_extensions.

(** Line 703: a regular file of the intermediate directory is taken when
    its extension is [.mp4]. *)
Definition phase2_selects (path : string) : bool :=
  String.eqb (extension (filename path)) ".mp4".

(** The path under which phase 1 leaves the intermediate file (line 376). *)
Definition intermediate (src_path : string) : string :=
  path_append CROPPED_DIR (filename src_path).

Definition MIN_FRAMES : Z := 4.

(** *** Scene frames (lines 467-502) *)

(** Lines 487-494, for a regular file: [.png] and a stem [std::stoi] reads;
    [std::invalid_argument] is caught, [std::out_of_range] is not. *)
Definition frame_file (entry : string) : Result bool :=
  if String.eqb (extension (filename entry)) ".png" then
    match stoi (stem (filename entry)) with
    | Ok _ => Ok true
    | Throw what =>
        if String.eqb what "stoi: invalid_argument" then Ok false
        else Throw what
    end
  else Ok false.

(** The entries the loop of lines 486-496 keeps. *)
Definition is_frame_file (entry : string) : bool :=
  String.eqb (extension (filename entry)) ".png"
  && match stoi (stem (filename entry)) with Ok _ => true | Throw _ => false end.

(** The loop of lines 486-496 over the entries of the directory. *)
Fixpoint collect_frames (entries : list string) : Result (list string) :=
  match entries with
  | [] => Ok []
  | entry :: rest =>
      let* keep := frame_file entry in
      let* jpgs := collect_frames rest in
      Ok (if keep : bool then entry :: jpgs else jpgs)
  end.

(** The key of the comparison of lines 498-500. *)
Definition frame_number (path : string) : Z :=
  match stoi (stem (filename path)) with
  | Ok n => n
  | Throw _ => 0
  end.

Definition frame_order (a b : string) : Prop :=
  frame_number a <= frame_number b.

#[global] Instance frame_order_dec a b : Decision (frame_order a b) :=
  Z_le_dec (frame_number a) (frame_number b).

(** [ffmpeg_scene_jpgs], from the exit status of the scene-detection
    command and the regular files found in the directory afterwards.
    [std::sort] is a sort by the key; which one is not specified. *)
Definition ffmpeg_scene_jpgs (ret : Z) (entries : list string)
  : Result (list string) :=
  if negb (ret =? 0) then Ok []
  else
    let* jpgs := collect_frames entries in
    Ok (merge_sort frame_order jpgs).

(** *** The fallback of [extract_frames_for_video] (lines 576-620) *)

(** What [cap.read] yields at a position: nothing, a frame that is of one
    colour once trimmed, or a picture. *)
Inductive Grab : Type := Unreadable | BlankFrame | Picture.

(** Line 584; [/] truncates. *)
Definition fallback_step (total_frames : Z) : Z :=
  Z.max 1 (Z.quot total_frames (MIN_FRAMES + 1)).

(** The loop of lines 589-617, [rounds] iterations being left: the frames
    written, as (number, position), and [current_fallback_count] at the
    end.  The count is at most 5 and the step at most a fifth of the frame
    count, so the product of line 590 is in range. *)
Fixpoint fallback_loop (grab : Z -> Grab) (total_frames step : Z)
    (rounds : nat) (count : Z) : list (Z * Z) * Z :=
  match rounds with
  | O => ([], count)
  | S rounds' =>
      if count <=? MIN_FRAMES then
        let pos := (count - 1) * step in
        if (pos >=? total_frames) && (total_frames >? 0) then ([], count)
        else
          match grab pos with
          | Unreadable => ([], count)
          | BlankFrame => fallback_loop grab total_frames step rounds' count
          | Picture =>
              let '(written, final) :=
                fallback_loop grab total_frames step rounds' (count + 1) in
              ((count, pos) :: written, final)
          end
      else ([], count)
  end.

(** Lines 576-620: [opened] tells whether the video could be opened. *)
Definition fallback (opened : bool) (grab : Z -> Grab) (total_frames : Z)
    (final_frame_idx : Z) : list (Z * Z) * Z :=
  if final_frame_idx <=? MIN_FRAMES then
    if negb opened then ([], final_frame_idx)
    else
      fallback_loop grab total_frames (fallback_step total_frames)
        (Z.to_nat (MIN_FRAMES * 2)) final_frame_idx
  else ([], final_frame_idx).

End Phases.

(** ** Probe logs *)

Module Detector.
Import Crop.

(** The log of a probe cut down to its last match. *)
Definition last_only (probe : nat -> Result (list CropMatch)) (k : nat)
  : Result (list CropMatch) :=
  match probe k with
  | Ok matches => Ok (option_list (last matches))
  | Throw what => Throw what
  end.

End Detector.


(** ** Concrete inputs used to exercise the statements *)

Module Examples.
Import CInt Crop ImageCrop.

(** A 200 x 100 h264 video whose probes all report [crop=92:42:4:4]. *)
Definition probe_200x100 (path key : string) : Result string :=
  if String.eqb key "width" then Ok "200"
  else if String.eqb key "height" then Ok "100"
  else if String.eqb key "duration" then Ok "10.0"
  else Ok "h264".

(** The engine encodes. *)
Definition world_encoding : World :=
  mkWorld probe_200x100 (fun _ => Ok (Double.of_int 10))
          (fun _ _ => Ok [mkMatch 92 42 4 4]) (fun _ => None) true
          (fun _ => (0, Some "encoded")).

(** The engine exits with status 1 and leaves a truncated file. *)
Definition world_failing : World :=
  mkWorld probe_200x100 (fun _ => Ok (Double.of_int 10))
          (fun _ _ => Ok [mkMatch 92 42 4 4]) (fun _ => None) true
          (fun _ => (1, Some "truncated")).

(** ffprobe reports nothing. *)
Definition world_silent : World :=
  mkWorld (fun _ _ => Ok "") (fun _ => Throw "stod") (fun _ _ => Ok [])
          (fun _ => None) true (fun _ => (0, Some "encoded")).


(** No probe logs a rectangle and the vision library finds none. *)
Definition world_silent_probes : World :=
  mkWorld probe_200x100 (fun _ => Ok (Double.of_int 10))
          (fun _ _ => Ok []) (fun _ => None) true
          (fun _ => (0, Some "encoded")).

Definition clip : string := "../videos/clip.mkv".
Definition clip_out : string := "../tmp/clip.mkv".
Definition disk : gmap string string := {[ clip := "original" ]}.

(** Three probes whose rectangles overlap without containing one
    another. *)
Definition spread_probes (k : nat) : Result (list CropMatch) :=
  match k with
  | O => Ok [mkMatch 1280 560 0 80]
  | S O => Ok [mkMatch 1000 500 10 90; mkMatch 1000 600 300 60]
  | _ => Ok [mkMatch 640 360 320 200]
  end.

(** A 4 x 4 image, black but for a white 2 x 2 centre. *)
Definition framed : Mat :=
  mkMat 4 4 (fun r c =>
    if ((r =? 1)%nat || (r =? 2)%nat) && ((c =? 1)%nat || (c =? 2)%nat)
    then mkVec3b 255 255 255 else mkVec3b 0 0 0).

Definition grey_line : list Vec3b :=
  [mkVec3b 10 10 10; mkVec3b 12 9 11; mkVec3b 8 10 12].

(** The vision library finds the box (10, 20, 30, 20) in the downscaled
    frames. *)
Definition world_gradient : World :=
  mkWorld probe_200x100 (fun _ => Ok (Double.of_int 10))
          (fun _ _ => Ok []) (fun _ => Some (mkCvRect 10 20 30 20)) true
          (fun _ => (0, Some "encoded")).

(** The first probe logs a width that is no [int]. *)
Definition world_overflow : World :=
  mkWorld probe_200x100 (fun _ => Ok (Double.of_int 10))
          (fun _ _ => Ok [mkMatch 99999999999 42 4 4]) (fun _ => None) true
          (fun _ => (0, Some "encoded")).

(** A 3 x 4 image, black but for one white column. *)
Definition striped : Mat :=
  mkMat 3 4 (fun r c => if (c =? 2)%nat then mkVec3b 255 255 255
                        else mkVec3b 0 0 0).

(** *** Runs of the pipeline *)

(** The encoder hands out one packet, which is written. *)
Definition encode_once : Pipeline.EncodeRun :=
  Pipeline.mkEncodeRun true false [true] false.
Definition sink_once : Pipeline.SinkStep :=
  Pipeline.mkSinkStep true false true encode_once.
Definition frame_once : Pipeline.FrameStep :=
  Pipeline.mkFrameStep true false true true [sink_once] false.
Definition packet_once : Pipeline.PacketStep :=
  Pipeline.mkPacketStep true true [frame_once] false.
Definition filters_fine : Pipeline.FilterSetup :=
  Pipeline.mkFilterSetup true true true true true true true true true true true.

(** A run in which every call succeeds: one packet, one frame. *)
Definition hw_run : Pipeline.Run :=
  Pipeline.mkRun true true true true true true true true true true true true
        true true true true true true true true true true filters_fine
        true true true true false true true true true true
        [packet_once] true None [] encode_once.

(** The same run with a software decoder. *)
Definition sw_run : Pipeline.Run :=
  Pipeline.mkRun true true true true true true false true true false true false
        true true true true true true true true true true filters_fine
        true true true true false true true true true true
        [packet_once] true None [] encode_once.

End Examples.

(* ===================================================================== *)
(** * Part II.  Properties                                                *)
(* ===================================================================== *)

(** ** Machine integers *)

Section CIntFacts.
Import CInt.

Lemma wrap32_id z : in_int z -> wrap32 z = z.
Proof.
  unfold in_int, INT_MIN, INT_MAX, wrap32. intros H.
  rewrite Z.mod_small; lia.
Qed.

Lemma wrap64_id z : in_int64 z -> wrap64 z = z.
Proof.
  unfold in_int64, INT64_MIN, INT64_MAX, wrap64. intros H.
  rewrite Z.mod_small; lia.
Qed.

Lemma wrap32_range z : in_int (wrap32 z).
Proof.
  unfold in_int, INT_MIN, INT_MAX, wrap32.
  pose proof (Z.mod_pos_bound (z + 2 ^ 31) (2 ^ 32)). lia.
Qed.

End CIntFacts.

(** ** Binary64: rounding of products and comparison *)

Section DoubleFacts.

Lemma iter_pos_iter {A : Type} (f : A -> A) (p : positive) :
  forall a, SpecFloat.iter_pos f p a = Pos.iter f a p.
Proof.
  induction p as [p IH|p IH|]; intros a; simpl.
  - rewrite !IH. rewrite <- !Pos.iter_swap. reflexivity.
  - rewrite !IH. reflexivity.
  - reflexivity.
Qed.

Lemma shr_1_nonneg m r s :
  0 <= m ->
  shr_1 (Build_shr_record m r s) = Build_shr_record (m / 2) (Z.odd m) (r || s).
Proof.
  intros Hm. rewrite <- Z.div2_div.
  destruct m as [|[p|p|]|p]; try reflexivity. lia.
Qed.

Lemma mod_pow2_succ m n :
  0 <= n ->
  m mod 2 ^ (n + 1) = m mod 2 ^ n + 2 ^ n * (if Z.odd (m / 2 ^ n) then 1 else 0).
Proof.
  intros Hn. rewrite Z.pow_add_r, Z.pow_1_r by lia.
  rewrite Z.rem_mul_r by lia. f_equal. f_equal.
  rewrite Zmod_odd. reflexivity.
Qed.

Lemma shr_iter m p :
  0 <= m ->
  Pos.iter shr_1 (Build_shr_record m false false) p =
  Build_shr_record (m / 2 ^ Z.pos p)
    (Z.odd (m / 2 ^ (Z.pos p - 1)))
    (negb (m mod 2 ^ (Z.pos p - 1) =? 0)).
Proof.
  intros Hm.
  apply (Pos.iter_ind _ shr_1 (Build_shr_record m false false)
           (fun p a => a = Build_shr_record (m / 2 ^ Z.pos p)
                             (Z.odd (m / 2 ^ (Z.pos p - 1)))
                             (negb (m mod 2 ^ (Z.pos p - 1) =? 0)))).
  - rewrite shr_1_nonneg by lia. simpl Z.sub. rewrite Z.pow_0_r, Z.pow_1_r.
    rewrite Z.div_1_r, Z.mod_1_r. reflexivity.
  - intros q a ->. rewrite shr_1_nonneg by (apply Z.div_pos; lia).
    rewrite Pos2Z.inj_succ.
    replace (Z.succ (Z.pos q) - 1) with (Z.pos q) by lia.
    rewrite Z.div_div by lia.
    replace (2 ^ Z.pos q * 2) with (2 ^ Z.succ (Z.pos q)) by (rewrite Z.pow_succ_r; lia).
    f_equal.
    replace (Z.pos q) with ((Z.pos q - 1) + 1) at 3 by lia.
    assert (Hk : 0 <= Z.pos q - 1) by lia.
    generalize dependent (Z.pos q - 1). intros k Hk.
    rewrite mod_pow2_succ by lia.
    assert (0 < 2 ^ k) by (apply Z.pow_pos_nonneg; lia).
    pose proof (Z.mod_pos_bound m (2 ^ k)) as Hb.
    destruct (Z.odd (m / 2 ^ k)); cbn [orb].
    + symmetry. apply negb_true_iff, Z.eqb_neq. lia.
    + rewrite Z.mul_0_r, Z.add_0_r. reflexivity.
Qed.

Lemma digits2_size p : digits2_pos p = Pos.size p.
Proof. induction p; simpl; congruence. Qed.

Lemma digits_bounds p :
  2 ^ (Z.pos (digits2_pos p) - 1) <= Z.pos p < 2 ^ Z.pos (digits2_pos p).
Proof.
  rewrite digits2_size.
  pose proof (Pos.size_gt p) as Hgt. pose proof (Pos.size_le p) as Hle.
  apply Pos2Z.pos_lt_pos in Hgt. apply Pos2Z.pos_le_pos in Hle.
  rewrite Pos2Z.inj_pow in Hgt, Hle.
  rewrite (Pos2Z.inj_xO p) in Hle.
  replace (Z.pos (Pos.size p)) with ((Z.pos (Pos.size p) - 1) + 1) in Hle at 1 by lia.
  rewrite Z.pow_add_r, Z.pow_1_r in Hle by lia.
  split; lia.
Qed.

Lemma digits_unique p d :
  2 ^ (d - 1) <= Z.pos p < 2 ^ d -> Z.pos (digits2_pos p) = d.
Proof.
  intros [Hlo Hhi]. destruct (digits_bounds p) as [Dlo Dhi].
  set (k := Z.pos (digits2_pos p)) in *.
  assert (0 < d).
  { destruct (Z_lt_le_dec 0 d) as [|Hd]; [assumption|].
    exfalso. destruct (Z.eq_dec d 0) as [->|]. 
    - simpl in Hhi. lia.
    - rewrite Z.pow_neg_r in Hhi by lia. lia. }
  destruct (Z.lt_trichotomy k d) as [Hlt|[Heq|Hgt]]; [|assumption|].
  - exfalso. assert (2 ^ k <= 2 ^ (d - 1)) by (apply Z.pow_le_mono_r; lia). lia.
  - exfalso. assert (2 ^ d <= 2 ^ (k - 1)) by (apply Z.pow_le_mono_r; lia). lia.
Qed.

(** Rounding to nearest even of [m] dropped by [n] bits. *)
Lemma round_shifted m p :
  0 <= m ->
  let st := Pos.iter shr_1 (Build_shr_record m false false) p in
  let m1 := round_nearest_even (shr_m st) (loc_of_shr_record st) in
  m / 2 ^ Z.pos p <= m1 <= m / 2 ^ Z.pos p + 1
  /\ 2 * Z.abs (m1 * 2 ^ Z.pos p - m) <= 2 ^ Z.pos p.
Proof.
  intros Hm st m1. unfold m1, st. rewrite shr_iter by assumption.
  cbn [shr_m].
  assert (Hn : Z.pos p = (Z.pos p - 1) + 1) by lia.
  assert (Hk : 0 <= Z.pos p - 1) by lia.
  revert Hn. generalize dependent (Z.pos p - 1). intros k Hk Hn.
  rewrite Hn.
  assert (Hp : 0 < 2 ^ k) by (apply Z.pow_pos_nonneg; lia).
  pose proof (Z.div_mod m (2 ^ (k + 1))) as Hdm.
  pose proof (mod_pow2_succ m k Hk) as Hmod.
  pose proof (Z.mod_pos_bound m (2 ^ k) Hp) as Hb.
  rewrite Z.pow_add_r, Z.pow_1_r in * by lia.
  set (q := m / (2 ^ k * 2)) in *.
  set (lo := m mod 2 ^ k) in *.
  destruct (Z.odd (m / 2 ^ k)) eqn:Eo; destruct (lo =? 0) eqn:El;
    cbn [negb loc_of_shr_record round_nearest_even].
  - apply Z.eqb_eq in El. destruct (Z.even q); split; lia.
  - apply Z.eqb_neq in El. split; lia.
  - apply Z.eqb_eq in El. split; lia.
  - apply Z.eqb_neq in El. split; lia.
Qed.

Lemma fexp_normal e : -1074 <= e - 53 -> fexp 53 1024 e = e - 53.
Proof. unfold fexp, emin. lia. Qed.

Lemma shr_fexp_exact53 m e :
  2 ^ 52 <= Z.pos m < 2 ^ 53 -> -1074 <= e ->
  shr_fexp 53 1024 (Z.pos m) e loc_Exact = (Build_shr_record (Z.pos m) false false, e).
Proof.
  intros Hm He. unfold shr_fexp. cbn [Zdigits2].
  rewrite (digits_unique m 53) by (simpl; lia).
  rewrite fexp_normal by lia.
  replace (53 + e - 53 - e) with 0 by lia. reflexivity.
Qed.

Lemma binary_round_aux_shift (m : positive) (e d : Z) :
  2 ^ (d - 1) <= Z.pos m < 2 ^ d -> 53 < d ->
  -1074 <= d + e - 53 -> d + e - 53 + 1 <= 971 ->
  exists m' e',
    binary_round_aux 53 1024 false (Z.pos m) e loc_Exact = S754_finite false m' e'
    /\ 2 ^ 52 <= Z.pos m' < 2 ^ 53
    /\ e + (d - 53) <= e'
    /\ (exists c, Z.pos m' * 2 ^ (e' - e) = c * 2 ^ (d - 53))
    /\ 2 * Z.abs (Z.pos m' * 2 ^ (e' - e) - Z.pos m) <= 2 ^ (d - 53).
Proof.
  intros Hm Hd Hlo Hhi.
  unfold binary_round_aux.
  unfold shr_fexp at 1. cbn [Zdigits2].
  rewrite (digits_unique m d Hm).
  rewrite fexp_normal by lia.
  destruct (d + e - 53 - e) as [|ps|ps] eqn:Es; try lia.
  assert (Hs : Z.pos ps = d - 53) by lia.
  cbn [shr shr_record_of_loc].
  rewrite iter_pos_iter.
  pose proof (round_shifted (Z.pos m) ps ltac:(lia)) as Hr. cbv zeta in Hr.
  set (st := Pos.iter shr_1 (Build_shr_record (Z.pos m) false false) ps) in *.
  set (m1 := round_nearest_even (shr_m st) (loc_of_shr_record st)) in *.
  destruct Hr as [Hq Hdiff]. rewrite Hs in Hq, Hdiff.
  assert (Hpow : 2 ^ (d - 1) = 2 ^ 52 * 2 ^ (d - 53)).
  { rewrite <- Z.pow_add_r by lia. f_equal. lia. }
  assert (Hpow' : 2 ^ d = 2 ^ 53 * 2 ^ (d - 53)).
  { rewrite <- Z.pow_add_r by lia. f_equal. lia. }
  assert (Hg : 0 < 2 ^ (d - 53)) by (apply Z.pow_pos_nonneg; lia).
  assert (Hqlo : 2 ^ 52 <= Z.pos m / 2 ^ (d - 53)).
  { apply Z.div_le_lower_bound; lia. }
  assert (Hqhi : Z.pos m / 2 ^ (d - 53) < 2 ^ 53).
  { apply Z.div_lt_upper_bound; lia. }
  replace (e + Z.pos ps) with (e + (d - 53)) by lia.
  destruct (Z_lt_le_dec m1 (2 ^ 53)) as [Hlt|Hge].
  - destruct m1 as [|pm1|pm1] eqn:Em1; try lia.
    rewrite shr_fexp_exact53 by lia. cbn [shr_m].
    destruct (Z.leb_spec (e + (d - 53)) (1024 - 53)); [|lia].
    exists pm1, (e + (d - 53)). split; [reflexivity|].
    replace (e + (d - 53) - e) with (d - 53) by lia.
    split; [lia|]. split; [lia|]. split; [|assumption].
    exists (Z.pos pm1). reflexivity.
  - assert (Em : m1 = 2 ^ 53) by lia. rewrite Em.
    unfold shr_fexp. 
    change (Zdigits2 (2 ^ 53)) with 54.
    rewrite fexp_normal by lia.
    replace (54 + (e + (d - 53)) - 53 - (e + (d - 53))) with 1 by lia.
    cbn [shr shr_record_of_loc SpecFloat.iter_pos].
    change (shr_m (shr_1 (Build_shr_record (2 ^ 53) false false))) with (Z.pos (2 ^ 52)).
    destruct (Z.leb_spec (e + (d - 53) + 1) (1024 - 53)); [|lia].
    exists (2 ^ 52)%positive, (e + (d - 53) + 1). split; [reflexivity|].
    replace (e + (d - 53) + 1 - e) with ((d - 53) + 1) by lia.
    rewrite Z.pow_add_r, Z.pow_1_r by lia.
    change (Z.pos (2 ^ 52)) with (2 ^ 52).
    split; [lia|]. split; [lia|]. split.
    + exists (2 ^ 53). lia.
    + rewrite Em in Hdiff. 
      replace (2 ^ 52 * (2 ^ (d - 53) * 2)) with (2 ^ 53 * 2 ^ (d - 53)) by lia.
      assumption.
Qed.

Lemma iter_xO p k : Z.pos (Pos.iter xO p k) = Z.pos p * 2 ^ Z.pos k.
Proof.
  apply (Pos.iter_ind _ xO p (fun k a => Z.pos a = Z.pos p * 2 ^ Z.pos k)).
  - rewrite Z.pow_1_r. lia.
  - intros q a Ha. rewrite Pos2Z.inj_xO, Ha, Pos2Z.inj_succ, Z.pow_succ_r; lia.
Qed.

Lemma binary_round_aux_exact53 s m e :
  2 ^ 52 <= Z.pos m < 2 ^ 53 -> -1074 <= e <= 971 ->
  binary_round_aux 53 1024 s (Z.pos m) e loc_Exact = S754_finite s m e.
Proof.
  intros Hm He. unfold binary_round_aux.
  rewrite shr_fexp_exact53 by lia.
  cbn [shr_m loc_of_shr_record round_nearest_even].
  rewrite shr_fexp_exact53 by lia. cbn [shr_m].
  destruct (Z.leb_spec e (1024 - 53)); [reflexivity|lia].
Qed.

Lemma binary_round_small s (p : positive) :
  Z.pos p < 2 ^ 53 ->
  exists d m,
    2 ^ (d - 1) <= Z.pos p < 2 ^ d /\ 1 <= d <= 53
    /\ Z.pos m = Z.pos p * 2 ^ (53 - d)
    /\ binary_round 53 1024 s p 0 = S754_finite s m (d - 53).
Proof.
  intros Hp. pose proof (digits_bounds p) as Hd.
  set (d := Z.pos (digits2_pos p)) in *.
  assert (Hd1 : 1 <= d) by (unfold d; lia).
  assert (Hd53 : d <= 53).
  { destruct (Z_le_gt_dec d 53) as [|Hgt]; [assumption|exfalso].
    assert (2 ^ 53 <= 2 ^ (d - 1)) by (apply Z.pow_le_mono_r; lia). lia. }
  unfold binary_round. fold d. rewrite Z.add_0_r.
  rewrite fexp_normal by lia.
  unfold shl_align. rewrite Z.sub_0_r.
  destruct (d - 53) as [|k|k] eqn:Ek; try lia.
  - exists d, p. split; [assumption|]. split; [lia|].
    replace (53 - d) with 0 by lia. rewrite Z.pow_0_r, Z.mul_1_r.
    split; [reflexivity|]. rewrite Ek.
    apply binary_round_aux_exact53; [|lia].
    replace d with 53 in Hd by lia. simpl in Hd |- *. lia.
  - exists d, (Pos.iter xO p k). split; [assumption|]. split; [lia|].
    split; [rewrite iter_xO; f_equal; f_equal; lia|]. rewrite Ek.
    apply binary_round_aux_exact53; [|lia].
    rewrite iter_xO. replace (Z.pos k) with (53 - d) by lia.
    assert (E1 : 2 ^ 52 = 2 ^ (d - 1) * 2 ^ (53 - d)).
    { rewrite <- Z.pow_add_r by lia. f_equal. lia. }
    assert (E2 : 2 ^ 53 = 2 ^ d * 2 ^ (53 - d)).
    { rewrite <- Z.pow_add_r by lia. f_equal. lia. }
    assert (0 < 2 ^ (53 - d)) by (apply Z.pow_pos_nonneg; lia).
    rewrite E1, E2. split; nia.
Qed.

Lemma SFltb_canonical m1 e1 m2 e2 k :
  2 ^ 52 <= Z.pos m1 < 2 ^ 53 -> 2 ^ 52 <= Z.pos m2 < 2 ^ 53 ->
  k <= e1 -> k <= e2 ->
  SFltb (S754_finite false m1 e1) (S754_finite false m2 e2) =
  (Z.pos m1 * 2 ^ (e1 - k) <? Z.pos m2 * 2 ^ (e2 - k)).
Proof.
  intros H1 H2 K1 K2. unfold SFltb, SFcompare.
  assert (P1 : 0 < 2 ^ (e1 - k)) by (apply Z.pow_pos_nonneg; lia).
  assert (P2 : 0 < 2 ^ (e2 - k)) by (apply Z.pow_pos_nonneg; lia).
  destruct (Z.compare_spec e1 e2) as [->|Hlt|Hgt].
  - change (Pos.compare_cont Eq m1 m2) with (Z.pos m1 ?= Z.pos m2).
    destruct (Z.compare_spec (Z.pos m1) (Z.pos m2)) as [E|L|G];
      symmetry; [apply Z.ltb_ge|apply Z.ltb_lt|apply Z.ltb_ge]; nia.
  - symmetry. apply Z.ltb_lt.
    replace (e2 - k) with ((e1 - k) + (e2 - e1)) by lia.
    rewrite Z.pow_add_r by lia.
    assert (HB : 2 ^ 1 <= 2 ^ (e2 - e1)) by (apply Z.pow_le_mono_r; lia).
    rewrite Z.pow_1_r in HB.
    set (A := 2 ^ (e1 - k)) in *. set (B := 2 ^ (e2 - e1)) in *.
    assert (Z.pos m1 * A < 2 ^ 53 * A) by nia.
    assert (2 * A <= A * B) by nia.
    assert (2 ^ 52 * (A * B) <= Z.pos m2 * (A * B)) by nia.
    lia.
  - symmetry. apply Z.ltb_ge.
    replace (e1 - k) with ((e2 - k) + (e1 - e2)) by lia.
    rewrite Z.pow_add_r by lia.
    assert (HB : 2 ^ 1 <= 2 ^ (e1 - e2)) by (apply Z.pow_le_mono_r; lia).
    rewrite Z.pow_1_r in HB.
    set (A := 2 ^ (e2 - k)) in *. set (B := 2 ^ (e1 - e2)) in *.
    assert (Z.pos m2 * A < 2 ^ 53 * A) by nia.
    assert (2 * A <= A * B) by nia.
    assert (2 ^ 52 * (A * B) <= Z.pos m1 * (A * B)) by nia.
    lia.
Qed.

Lemma mul_canonical mx ex my ey :
  2 ^ 52 <= Z.pos mx < 2 ^ 53 -> 2 ^ 52 <= Z.pos my < 2 ^ 53 ->
  -1000 <= ex + ey <= 800 ->
  exists m' e' s,
    ((s = 52 /\ Z.pos mx * Z.pos my < 2 ^ 105)
     \/ (s = 53 /\ 2 ^ 105 <= Z.pos mx * Z.pos my))
    /\ SFmul 53 1024 (S754_finite false mx ex) (S754_finite false my ey)
       = S754_finite false m' e'
    /\ 2 ^ 52 <= Z.pos m' < 2 ^ 53
    /\ ex + ey + s <= e'
    /\ (exists c, Z.pos m' * 2 ^ (e' - (ex + ey)) = c * 2 ^ s)
    /\ 2 * Z.abs (Z.pos m' * 2 ^ (e' - (ex + ey)) - Z.pos mx * Z.pos my) <= 2 ^ s.
Proof.
  intros Hx Hy He. cbn [SFmul xorb].
  assert (Hp : 2 ^ 104 <= Z.pos (mx * my) < 2 ^ 106).
  { rewrite Pos2Z.inj_mul. 
    change (2 ^ 104) with (2 ^ 52 * 2 ^ 52). change (2 ^ 106) with (2 ^ 53 * 2 ^ 53).
    split; nia. }
  destruct (Z_lt_le_dec (Z.pos (mx * my)) (2 ^ 105)) as [Hlt|Hge].
  - destruct (binary_round_aux_shift (mx * my) (ex + ey) 105)
      as (m' & e' & E & Hm' & He' & Hc & Hd); try lia.
    exists m', e', 52. rewrite <- Pos2Z.inj_mul.
    change (105 - 53) with 52 in *. repeat split; auto; lia.
  - destruct (binary_round_aux_shift (mx * my) (ex + ey) 106)
      as (m' & e' & E & Hm' & He' & Hc & Hd); try lia.
    exists m', e', 53. rewrite <- Pos2Z.inj_mul.
    change (106 - 53) with 53 in *. repeat split; auto; lia.
Qed.

Lemma of_int_pos v :
  0 < v < 2 ^ 53 ->
  exists d m,
    2 ^ (d - 1) <= v < 2 ^ d /\ 1 <= d <= 53
    /\ Z.pos m = v * 2 ^ (53 - d)
    /\ 2 ^ 52 <= Z.pos m < 2 ^ 53
    /\ Double.of_int v = S754_finite false m (d - 53).
Proof.
  intros Hv. destruct v as [|p|p]; try lia.
  unfold Double.of_int, Double.prec, Double.emax, binary_normalize.
  destruct (binary_round_small false p) as (d & m & Hd & Hd' & Hm & E); [lia|].
  exists d, m. repeat split; try tauto; try lia.
  - rewrite Hm.
    assert (E1 : 2 ^ 52 = 2 ^ (d - 1) * 2 ^ (53 - d)).
    { rewrite <- Z.pow_add_r by lia. f_equal. lia. }
    assert (0 < 2 ^ (53 - d)) by (apply Z.pow_pos_nonneg; lia).
    rewrite E1. nia.
  - rewrite Hm.
    assert (E2 : 2 ^ 53 = 2 ^ d * 2 ^ (53 - d)).
    { rewrite <- Z.pow_add_r by lia. f_equal. lia. }
    assert (0 < 2 ^ (53 - d)) by (apply Z.pow_pos_nonneg; lia).
    rewrite E2. nia.
Qed.

Lemma ratio_constant :
  Double.sub (Double.of_int 1) Crop.MIN_CROP_RATIO
  = S754_finite false 8106479329266893 (-53).
Proof. vm_compute. reflexivity. Qed.

Lemma scale_constant :
  Double.div (Double.of_int 1) Crop.DOWNSCALE
  = S754_finite false 4503599627370496 (-51).
Proof. vm_compute. reflexivity. Qed.

Lemma below_ratio_pos v o :
  0 < v < 2 ^ 31 -> 0 < o < 2 ^ 31 ->
  Crop.below_ratio v o = (10 * v <? 9 * o).
Proof.
  intros Hv Ho. unfold Crop.below_ratio, Double.ltb, Double.mul, Double.prec, Double.emax.
  rewrite ratio_constant.
  destruct (of_int_pos v) as (dv & mv & Hdv & Hdv' & Emv & Cmv & Ev); [lia|].
  destruct (of_int_pos o) as (do & mo & Hdo & Hdo' & Emo & Cmo & Eo); [lia|].
  rewrite Ev, Eo.
  assert (Hdo31 : do <= 31).
  { destruct (Z_le_gt_dec do 31) as [|Hgt]; [assumption|exfalso].
    assert (2 ^ 31 <= 2 ^ (do - 1)) by (apply Z.pow_le_mono_r; lia). lia. }
  destruct (mul_canonical mo (do - 53) 8106479329266893 (-53))
    as (m' & e' & s & Hs & Emul & Cm' & He' & (c & Hc) & Hdiff); try lia.
  rewrite Emul.
  rewrite (SFltb_canonical mv (dv - 53) m' e' (do - 53 + -53)) by lia.
  rewrite Hc. rewrite Hc in Hdiff.
  set (A := 2 ^ (53 - do)) in *.
  assert (HA : 2 ^ 22 <= A).
  { unfold A. apply Z.pow_le_mono_r; lia. }
  assert (EV : Z.pos mv * 2 ^ (dv - 53 - (do - 53 + -53)) = (v * A) * 2 ^ 53).
  { rewrite Emv. unfold A. rewrite <- !Z.mul_assoc. f_equal.
    rewrite <- !Z.pow_add_r by lia. f_equal. lia. }
  rewrite EV. rewrite Emo in Hdiff.
  set (va := v * A) in *. 
  assert (Hmo : 2 ^ 52 <= o * A < 2 ^ 53) by lia.
  set (moa := o * A) in *.
  assert (Hcases : (10 * v < 9 * o /\ 10 * va + A <= 9 * moa)
                   \/ (10 * v = 9 * o /\ 10 * va = 9 * moa)
                   \/ (9 * o < 10 * v /\ 9 * moa + A <= 10 * va)).
  { unfold va, moa. destruct (Z.lt_trichotomy (10 * v) (9 * o)) as [L|[E|G]].
    - left. split; [assumption|nia].
    - right; left. split; [assumption|nia].
    - right; right. split; [assumption|nia]. }
  clearbody va moa. clear EV Emul Hc.
  change (2 ^ 22) with 4194304 in HA.
  change (2 ^ 52) with 4503599627370496 in *.
  change (2 ^ 53) with 9007199254740992 in *.
  destruct Hs as [[-> _] | [-> _]].
  - change (2 ^ 52) with 4503599627370496 in *.
    destruct (Z.ltb_spec (va * 9007199254740992) (c * 4503599627370496));
      destruct (Z.ltb_spec (10 * v) (9 * o)); try reflexivity; exfalso; lia.
  - change (2 ^ 53) with 9007199254740992 in *.
    destruct (Z.ltb_spec (va * 9007199254740992) (c * 9007199254740992));
      destruct (Z.ltb_spec (10 * v) (9 * o)); try reflexivity; exfalso; lia.
Qed.

Lemma SFltb_pos_nonpos m e f :
  (match f with
   | S754_zero _ | S754_nan | S754_finite true _ _ | S754_infinity true => True
   | _ => False
   end) ->
  SFltb (S754_finite false m e) f = false.
Proof. destruct f as [s|[|]| |[|] m' e']; simpl; intros H; try reflexivity; contradiction. Qed.

Lemma binary_round_aux_neg m e l :
  match binary_round_aux 53 1024 true m e l with
  | S754_zero _ | S754_nan | S754_finite true _ _ | S754_infinity true => True
  | _ => False
  end.
Proof.
  unfold binary_round_aux.
  destruct (shr_fexp 53 1024 m e l) as [mrs' e'].
  destruct (shr_fexp 53 1024 _ e' loc_Exact) as [mrs'' e''].
  destruct (shr_m mrs''); [exact I| |exact I].
  destruct (e'' <=? 1024 - 53); exact I.
Qed.

Lemma below_ratio_nonpos v o :
  0 < v < 2 ^ 31 -> - 2 ^ 31 <= o <= 0 ->
  Crop.below_ratio v o = false.
Proof.
  intros Hv Ho. unfold Crop.below_ratio, Double.ltb, Double.mul, Double.prec, Double.emax.
  rewrite ratio_constant.
  destruct (of_int_pos v) as (dv & mv & _ & _ & _ & _ & Ev); [lia|].
  rewrite Ev. apply SFltb_pos_nonpos.
  destruct o as [|p|p]; [exact I|lia|].
  unfold Double.of_int, Double.prec, Double.emax, binary_normalize.
  destruct (binary_round_small true p) as (d & m & _ & _ & _ & E); [lia|].
  rewrite E. cbn [SFmul xorb]. apply binary_round_aux_neg.
Qed.

Lemma scaled_twice v :
  0 <= v < 2 ^ 30 ->
  Double.to_int (Double.mul (Double.of_int v)
                   (Double.div (Double.of_int 1) Crop.DOWNSCALE)) = 2 * v.
Proof.
  intros Hv. rewrite scale_constant. unfold Double.mul, Double.prec, Double.emax.
  destruct (Z.eq_dec v 0) as [->|Hne]; [reflexivity|].
  destruct (of_int_pos v) as (dv & mv & Hdv & Hdv' & Emv & Cmv & Ev); [lia|].
  rewrite Ev.
  destruct (mul_canonical mv (dv - 53) 4503599627370496 (-51))
    as (m' & e' & s & Hs & Emul & Cm' & He' & (c & Hc) & Hdiff); try lia.
  rewrite Emul.
  destruct Hs as [[-> _]|[-> Hbig]]; [|lia].
  assert (ER : Z.pos m' * 2 ^ (e' - (dv - 53 + -51)) = Z.pos mv * 4503599627370496).
  { rewrite Hc in *. change (2 ^ 52) with 4503599627370496 in *. lia. }
  clear Hc Hdiff c.
  assert (EP : Z.pos mv * 4503599627370496 = (2 * v) * 2 ^ (104 - dv)).
  { rewrite Emv. change 4503599627370496 with (2 ^ 52).
    replace (104 - dv) with ((53 - dv) + 51) by lia.
    rewrite Z.pow_add_r by lia. change (2 ^ 52) with (2 * 2 ^ 51). ring. }
  rewrite EP in ER.
  assert (Hval : (if 0 <=? e' then Z.pos m' * 2 ^ e' else Z.pos m' / 2 ^ (- e')) = 2 * v).
  { destruct (Z.leb_spec 0 e') as [Hpos|Hneg].
    - replace (e' - (dv - 53 + -51)) with (e' + (104 - dv)) in ER by lia.
      rewrite Z.pow_add_r in ER by lia.
      assert (0 < 2 ^ (104 - dv)) by (apply Z.pow_pos_nonneg; lia).
      nia.
    - replace (104 - dv) with ((e' - (dv - 53 + -51)) + (- e')) in ER by lia.
      rewrite Z.pow_add_r in ER by lia.
      assert (0 < 2 ^ (e' - (dv - 53 + -51))) by (apply Z.pow_pos_nonneg; lia).
      assert (Em : Z.pos m' = 2 * v * 2 ^ (- e')) by nia.
      rewrite Em. apply Z.div_mul.
      assert (0 < 2 ^ (- e')) by (apply Z.pow_pos_nonneg; lia). lia. }
  unfold Double.to_int, CInt.INT_MIN, CInt.INT_MAX. cbv zeta. rewrite Hval.
  destruct (Z.leb_spec (- 2 ^ 31) (2 * v)); [|lia].
  destruct (Z.leb_spec (2 * v) (2 ^ 31 - 1)); [reflexivity|lia].
Qed.

End DoubleFacts.

(** ** Presentation clock *)

Section PtsFacts.
Import CInt Pts.

Lemma chain_lower prev l i a : chain prev l -> l !! i = Some a -> prev < a.
Proof.
  revert prev i. induction l as [|x l IH]; intros prev i Hc Hi; [done|].
  destruct Hc as [Hx Hc]. destruct i as [|i]; simpl in Hi.
  - inversion Hi; subst; lia.
  - specialize (IH _ _ Hc Hi). lia.
Qed.

Lemma chain_increasing prev l : chain prev l -> strictly_increasing l.
Proof.
  revert prev. induction l as [|x l IH]; intros prev Hc i j a b Hij Hi Hj.
  - done.
  - destruct Hc as [Hx Hc]. destruct j as [|j]; [lia|]. simpl in Hj.
    destruct i as [|i]; simpl in Hi.
    + inversion Hi; subst. eapply chain_lower; eauto.
    + eapply (IH _ Hc i j); eauto. lia.
Qed.

Lemma decode_pts_present last frame :
  arrival_ts frame <> AV_NOPTS_VALUE ->
  last = AV_NOPTS_VALUE \/ last + 1 <= INT64_MAX ->
  INT64_MIN <= last ->
  INT64_MIN <= arrival_ts frame <= INT64_MAX ->
  let '(frame', last') := decode_pts last frame in
  pts frame' = rewritten last (arrival_ts frame) /\ last' = pts frame'.
Proof.
  intros Hp Hl Hlo Hr. unfold decode_pts, arrival_ts, rewritten in *.
  destruct (pts frame =? AV_NOPTS_VALUE) eqn:E1; simpl.
  - destruct (pkt_dts frame =? AV_NOPTS_VALUE) eqn:E2; [lia|]. simpl.
    destruct (last =? AV_NOPTS_VALUE) eqn:E3; simpl.
    + unfold AV_NOPTS_VALUE in *. destruct (last <? pkt_dts frame) eqn:E4; [done|lia].
    + destruct (pkt_dts frame <=? last) eqn:E4; simpl;
        destruct (last <? pkt_dts frame) eqn:E5; try lia; try done.
      rewrite wrap64_id; [done|]. unfold in_int64. lia.
  - rewrite E1. simpl.
    destruct (last =? AV_NOPTS_VALUE) eqn:E3; simpl.
    + unfold AV_NOPTS_VALUE in *. destruct (last <? pts frame) eqn:E4; [done|lia].
    + destruct (pts frame <=? last) eqn:E4; simpl;
        destruct (last <? pts frame) eqn:E5; try lia; try done.
      rewrite wrap64_id; [done|]. unfold in_int64. lia.
Qed.

Lemma decode_loop_follows (B : Z) frames : forall last k,
  0 <= k ->
  INT64_MIN <= last <= B + k ->
  (forall f, f ∈ frames -> INT64_MIN < arrival_ts f <= B) ->
  B + k + Z.of_nat (length frames) <= INT64_MAX ->
  let outs := map pts (pts_loop decode_pts last frames).1 in
  follows last (map arrival_ts frames) outs /\ chain last outs.
Proof.
  induction frames as [|f frames IH]; intros last k Hk Hlast Hall Hfit.
  - simpl. done.
  - simpl length in Hfit.
    assert (Hf : INT64_MIN < arrival_ts f <= B) by (apply Hall; left).
    pose proof (decode_pts_present last f) as Hstep.
    cbn [pts_loop].
    destruct (decode_pts last f) as [f' last'] eqn:Ed.
    destruct Hstep as [Hpts Hlast'].
    { unfold AV_NOPTS_VALUE. lia. }
    { right. lia. }
    { lia. }
    { lia. }
    subst last'.
    assert (Hbound : last < pts f' /\ pts f' <= B + (k + 1)).
    { rewrite Hpts. unfold rewritten. destruct (last <? arrival_ts f) eqn:E; lia. }
    specialize (IH (pts f') (k + 1)).
    destruct (pts_loop decode_pts (pts f') frames) as [out last''] eqn:El.
    simpl in *. destruct IH as [IH1 IH2]; try lia.
    { intros g Hg. apply Hall. by right. }
    repeat split; auto; lia.
Qed.

Lemma decode_pts_absent last frame :
  arrival_ts frame = AV_NOPTS_VALUE ->
  let '(frame', last') := decode_pts last frame in
  pts frame' = AV_NOPTS_VALUE /\ last' = last.
Proof.
  unfold decode_pts, arrival_ts.
  destruct (pts frame =? AV_NOPTS_VALUE) eqn:E1.
  - intros E. rewrite E. cbn [pts]. rewrite Z.eqb_refl. cbn [negb pts]. done.
  - intros E. rewrite E, Z.eqb_refl in E1. discriminate.
Qed.

Lemma chain_stamped_skip prev o outs :
  o = AV_NOPTS_VALUE -> chain prev (stamped outs) -> chain prev (stamped (o :: outs)).
Proof. intros ->. unfold stamped. cbn [List.filter]. by rewrite Z.eqb_refl. Qed.

Lemma stamped_all outs :
  (forall o, o ∈ outs -> o <> AV_NOPTS_VALUE) -> stamped outs = outs.
Proof.
  induction outs as [|o outs IH]; intros H; [reflexivity|].
  unfold stamped in *. cbn [List.filter].
  destruct (Z.eqb_spec o AV_NOPTS_VALUE) as [E|_].
  - exfalso. apply (H o); [left|done].
  - cbn [negb]. f_equal. apply IH. intros o' Ho'. apply H. by right.
Qed.

(** The main loop, started with the clock at [last]. *)
Lemma decode_loop_clock (B : Z) frames : forall last k,
  -1 <= k ->
  last = AV_NOPTS_VALUE \/ INT64_MIN < last <= B + k ->
  (forall f, f ∈ frames ->
     arrival_ts f = AV_NOPTS_VALUE \/ INT64_MIN < arrival_ts f <= B) ->
  B + k + Z.of_nat (length frames) <= INT64_MAX ->
  let outs := map pts (pts_loop decode_pts last frames).1 in
  length outs = length frames
  /\ (pts_loop decode_pts last frames).2 = clock_from last outs
  /\ (clock_from last outs = AV_NOPTS_VALUE
      \/ INT64_MIN < clock_from last outs <= B + k + Z.of_nat (length frames))
  /\ chain last (stamped outs)
  /\ (forall i f o, frames !! i = Some f -> outs !! i = Some o ->
        (arrival_ts f = AV_NOPTS_VALUE -> o = AV_NOPTS_VALUE)
        /\ (arrival_ts f <> AV_NOPTS_VALUE ->
            o = rewritten (clock_from last (take i outs)) (arrival_ts f)
            /\ INT64_MIN < o)).
Proof.
  induction frames as [|f frames IH]; intros last k Hk Hlast Hall Hfit.
  - cbn. repeat split; try done. destruct Hlast; [by left|right; lia].
  - simpl length in Hfit.
    assert (Hf : arrival_ts f = AV_NOPTS_VALUE \/ INT64_MIN < arrival_ts f <= B)
      by (apply Hall; left).
    assert (Hrest : forall g, g ∈ frames ->
              arrival_ts g = AV_NOPTS_VALUE \/ INT64_MIN < arrival_ts g <= B).
    { intros g Hg. apply Hall. by right. }
    cbn [pts_loop].
    destruct (decide (arrival_ts f = AV_NOPTS_VALUE)) as [Ha|Hp].
    + pose proof (decode_pts_absent last f Ha) as Hstep.
      destruct (decode_pts last f) as [f' last'] eqn:Ed.
      destruct Hstep as [Hpts ->].
      assert (Hlast1 : last = AV_NOPTS_VALUE \/ INT64_MIN < last <= B + (k + 1)).
      { destruct Hlast; [by left|right; lia]. }
      pose proof (IH last (k + 1) ltac:(lia) Hlast1 Hrest ltac:(lia)) as IH'.
      cbv zeta in IH'.
      destruct (pts_loop decode_pts last frames) as [out last''] eqn:El.
      cbn [fst snd map] in *.
      destruct IH' as (IH1 & IH2 & IH3 & IH4 & IH5).
      assert (Ec : forall l, clock_from last (pts f' :: l) = clock_from last l).
      { intros l. unfold clock_from. cbn [fold_left]. by rewrite Hpts, Z.eqb_refl. }
      rewrite Ec. split; [|split; [|split; [|split]]].
      * simpl. by rewrite IH1.
      * done.
      * cbn [length]. destruct IH3; [by left|right; lia].
      * by apply chain_stamped_skip.
      * intros i f0 o Hi Ho. destruct i as [|i]; simpl in Hi, Ho.
        -- split; [intros _; congruence|]. intros Hne. congruence.
        -- cbn [take]. rewrite Ec. by apply (IH5 i f0 o).
    + pose proof (decode_pts_present last f Hp) as Hstep.
      destruct (decode_pts last f) as [f' last'] eqn:Ed.
      assert (Hr : INT64_MIN < arrival_ts f <= B).
      { destruct Hf as [?|?]; [done|lia]. }
      destruct Hstep as [Hpts Hlast'].
      { destruct Hlast; [by left|right; lia]. }
      { destruct Hlast as [->|?]; unfold AV_NOPTS_VALUE; lia. }
      { lia. }
      subst last'.
      assert (Hbound : INT64_MIN < pts f' <= B + (k + 1) /\ last < pts f').
      { rewrite Hpts. unfold rewritten.
        destruct Hlast as [->|?]; unfold AV_NOPTS_VALUE;
          destruct (_ <? arrival_ts f) eqn:E; lia. }
      assert (Hlast1 : pts f' = AV_NOPTS_VALUE \/ INT64_MIN < pts f' <= B + (k + 1)).
      { right. lia. }
      pose proof (IH (pts f') (k + 1) ltac:(lia) Hlast1 Hrest ltac:(lia)) as IH'.
      cbv zeta in IH'.
      destruct (pts_loop decode_pts (pts f') frames) as [out last''] eqn:El.
      cbn [fst snd map] in *.
      destruct IH' as (IH1 & IH2 & IH3 & IH4 & IH5).
      assert (Hns : (pts f' =? AV_NOPTS_VALUE) = false).
      { apply Z.eqb_neq. unfold AV_NOPTS_VALUE. lia. }
      assert (Ec : forall l, clock_from last (pts f' :: l) = clock_from (pts f') l).
      { intros l. unfold clock_from. cbn [fold_left]. by rewrite Hns. }
      rewrite Ec. split; [|split; [|split; [|split]]].
      * simpl. by rewrite IH1.
      * done.
      * cbn [length]. destruct IH3; [by left|right; lia].
      * unfold stamped. cbn [List.filter]. rewrite Hns. cbn [negb chain].
        split; [lia|done].
      * intros i f0 o Hi Ho. destruct i as [|i]; simpl in Hi, Ho.
        -- split; [intros E; congruence|]. intros _.
           assert (o = pts f') as -> by congruence.
           assert (f0 = f) as -> by congruence.
           cbn [take]. unfold clock_from at 1. cbn [fold_left].
           split; [done|lia].
        -- cbn [take]. rewrite Ec. by apply (IH5 i f0 o).
Qed.

(** C1 (as stated) fails twice.  A frame that arrives in the main decode
    loop with neither [pts] nor [pkt_dts] is fed on with the sentinel, not
    with previous + 1; and the frame handed on by the flush of the decoder
    keeps a [pts] of its own even when it is below the previous one.
    Neither sequence is strictly increasing. *)
Lemma C1_sequence_not_strictly_increasing :
  (map pts (decode_stage [mkFrame 5 5; mkFrame AV_NOPTS_VALUE AV_NOPTS_VALUE] None)
     = [5; AV_NOPTS_VALUE]
   /\ ~ strictly_increasing
         (map pts (decode_stage
                     [mkFrame 5 5; mkFrame AV_NOPTS_VALUE AV_NOPTS_VALUE] None)))
  /\ (map pts (decode_stage [mkFrame 10 10; mkFrame 10 10] (Some (mkFrame 4 4)))
        = [10; 11; 4]
      /\ ~ strictly_increasing
            (map pts (decode_stage [mkFrame 10 10; mkFrame 10 10]
                        (Some (mkFrame 4 4))))).
Proof.
  split; (split; [reflexivity|]); intros H.
  - specialize (H 0%nat 1%nat 5 AV_NOPTS_VALUE).
    assert (5 < AV_NOPTS_VALUE) as Habs; [apply H; (lia || reflexivity)|].
    unfold AV_NOPTS_VALUE, INT64_MIN in Habs. lia.
  - specialize (H 1%nat 2%nat 11 4).
    assert (11 < 4) as Habs; [apply H; (lia || reflexivity)|]. lia.
Qed.

(** C1 (amended).  Let the clock be the last timestamp that left the main
    decode loop (nothing before the first).  A frame that arrives in the
    main loop with a timestamp ([pts], or else [pkt_dts]) leaves with that
    timestamp when it is above the clock and with the clock plus one when it
    is not, so the timestamps that leave the main loop are strictly
    increasing; a frame with neither keeps the sentinel and does not move
    the clock.  The frame handed on by the flush of the decoder keeps its
    own [pts], whatever the clock, and gets the clock plus one only when it
    has no [pts] and the clock is set. *)
Theorem C1_decode_stage_timestamps (B : Z) (frames : list AVFrame) :
  (forall f, f ∈ frames ->
     arrival_ts f = AV_NOPTS_VALUE \/ INT64_MIN < arrival_ts f <= B) ->
  B + Z.of_nat (length frames) <= INT64_MAX ->
  let outs := map pts (decode_stage frames None) in
  length outs = length frames
  /\ strictly_increasing (stamped outs)
  /\ ((forall f, f ∈ frames -> arrival_ts f <> AV_NOPTS_VALUE) ->
      strictly_increasing outs)
  /\ (forall k f o, frames !! k = Some f -> outs !! k = Some o ->
        let c := clock (take k outs) in
        (arrival_ts f = AV_NOPTS_VALUE -> o = AV_NOPTS_VALUE)
        /\ (arrival_ts f <> AV_NOPTS_VALUE ->
            (c < arrival_ts f -> o = arrival_ts f)
            /\ (arrival_ts f <= c -> o = c + 1)))
  /\ (forall g, exists o,
        map pts (decode_stage frames (Some g)) = outs ++ [o]
        /\ (pts g <> AV_NOPTS_VALUE -> o = pts g)
        /\ (pts g = AV_NOPTS_VALUE ->
            (clock outs <> AV_NOPTS_VALUE -> o = clock outs + 1)
            /\ (clock outs = AV_NOPTS_VALUE -> o = AV_NOPTS_VALUE))).
Proof.
  intros Hall Hfit outs.
  pose proof (decode_loop_clock B frames AV_NOPTS_VALUE (-1) ltac:(lia)
                (or_introl eq_refl) Hall ltac:(lia)) as Hloop.
  cbv zeta in Hloop.
  assert (Hout : outs = map pts (pts_loop decode_pts AV_NOPTS_VALUE frames).1).
  { unfold outs, decode_stage.
    by destruct (pts_loop decode_pts AV_NOPTS_VALUE frames) as [o l]. }
  rewrite <- Hout in Hloop. fold (clock outs) in Hloop.
  destruct Hloop as (Hlen & Hclock & Hrange & Hchain & Hrw).
  assert (Hinc : strictly_increasing (stamped outs)).
  { by apply (chain_increasing AV_NOPTS_VALUE). }
  split; [done|]. split; [done|]. split; [|split].
  - intros Hpresent. rewrite <- (stamped_all outs); [done|].
    intros o [i Hi]%list_elem_of_lookup_1.
    assert (is_Some (frames !! i)) as [f Hf].
    { apply lookup_lt_is_Some. rewrite <- Hlen. by eapply lookup_lt_Some. }
    destruct (Hrw i f o Hf Hi) as [_ Ho].
    assert (Hp : arrival_ts f <> AV_NOPTS_VALUE).
    { apply Hpresent. by eapply list_elem_of_lookup_2. }
    destruct (Ho Hp) as [_ Hlo]. unfold AV_NOPTS_VALUE. lia.
  - intros k f o Hf Ho c.
    destruct (Hrw k f o Hf Ho) as [Ha Hp]. split; [done|].
    intros Hne. destruct (Hp Hne) as [Hq _].
    fold (clock (take k outs)) in Hq. fold c in Hq.
    unfold rewritten in Hq. destruct (c <? arrival_ts f) eqn:E; lia.
  - intros g. exists (pts (flush_pts (clock outs) g).1). split.
    { rewrite <- Hclock, Hout. unfold decode_stage.
      destruct (pts_loop decode_pts AV_NOPTS_VALUE frames) as [out1 last].
      cbn [fst snd]. by rewrite map_app. }
    unfold flush_pts.
    destruct (Z.eqb_spec (pts g) AV_NOPTS_VALUE) as [E|E]; cbn [andb].
    + split; [done|]. intros _.
      destruct (Z.eqb_spec (clock outs) AV_NOPTS_VALUE) as [E'|E'];
        cbn [negb fst pts].
      * split; [done|]. intros _. done.
      * split; [|done]. intros _. apply wrap64_id. unfold in_int64.
        destruct Hrange as [?|?]; [done|lia].
    + cbn [fst]. split; [done|]. done.
Qed.

Lemma C1_decode_stage_witness :
  let frames := [mkFrame 10 10; mkFrame 10 10;
                 mkFrame AV_NOPTS_VALUE AV_NOPTS_VALUE;
                 mkFrame AV_NOPTS_VALUE 7; mkFrame 50 0] in
  map pts (decode_stage frames None) = [10; 11; AV_NOPTS_VALUE; 12; 50]
  /\ strictly_increasing (stamped (map pts (decode_stage frames None)))
  /\ map pts (decode_stage frames (Some (mkFrame 4 4)))
     = [10; 11; AV_NOPTS_VALUE; 12; 50; 4].
Proof.
  intros frames.
  assert (Hall : forall f, f ∈ frames ->
            arrival_ts f = AV_NOPTS_VALUE \/ INT64_MIN < arrival_ts f <= 100).
  { intros f Hf. unfold frames in Hf.
    repeat (apply elem_of_cons in Hf as [->|Hf];
            [first [ left; reflexivity
                   | right; vm_compute; split; [reflexivity|discriminate] ]|]).
    by apply elem_of_nil in Hf. }
  assert (Hfit : 100 + Z.of_nat (length frames) <= INT64_MAX).
  { vm_compute. discriminate. }
  pose proof (C1_decode_stage_timestamps 100 frames Hall Hfit) as H.
  cbv zeta in H. destruct H as (_ & Hinc & _ & _ & _).
  split; [reflexivity|]. split; [exact Hinc|reflexivity].
Defined.

End PtsFacts.

(** ** The multi-probe detector *)

Section DetectFacts.
Import CInt Crop.

Lemma stoi_digits_range n v : stoi_digits n = Ok v -> 0 <= v <= INT_MAX.
Proof.
  unfold stoi_digits. destruct (Z.of_N n <=? INT_MAX) eqn:E; [|done].
  intros [= <-]. lia.
Qed.

Lemma rect_of_match_parsed m r : rect_of_match m = Ok r -> parsed r.
Proof.
  unfold rect_of_match, bindR.
  destruct (stoi_digits (g3 m)) as [vx|] eqn:E3; [|done].
  destruct (stoi_digits (g4 m)) as [vy|] eqn:E4; [|done].
  destruct (stoi_digits (g1 m)) as [vw|] eqn:E1; [|done].
  destruct (stoi_digits (g2 m)) as [vh|] eqn:E2; [|done].
  intros [= <-]. unfold parsed; simpl.
  pose proof (stoi_digits_range _ _ E1). pose proof (stoi_digits_range _ _ E2).
  pose proof (stoi_digits_range _ _ E3). pose proof (stoi_digits_range _ _ E4).
  tauto.
Qed.

(** The rectangles the loop collects are the ones of the probes that
    logged a match, each read from the last match of its probe. *)
Lemma probe_loop_elem probe n : forall k acc rects r,
  probe_loop probe k n acc = Ok rects ->
  (r ∈ rects <->
   r ∈ acc \/ exists j ms m, (k <= j < k + n)%nat /\ probe j = Ok ms
                             /\ last ms = Some m /\ rect_of_match m = Ok r).
Proof.
  induction n as [|n IH]; intros k acc rects r H; simpl in H.
  - injection H as <-. split; [by left|].
    intros [?|(j & ms & m & Hj & _)]; [done|lia].
  - unfold bindR in H at 1. destruct (probe k) as [ms|] eqn:Ep; [|done].
    destruct (last ms) as [m|] eqn:El.
    + unfold bindR in H. destruct (rect_of_match m) as [r'|] eqn:Er; [|done].
      rewrite (IH _ _ _ r H), elem_of_app, list_elem_of_singleton. split.
      * intros [[?| ->]|(j & ms' & m' & Hj & Hm)]; [by left| |].
        -- right. exists k, ms, m. split; [lia|done].
        -- right. exists j, ms', m'. split; [lia|done].
      * intros [?|(j & ms' & m' & Hj & Hp & Hl & Hm)]; [left; by left|].
        destruct (decide (j = k)) as [->|Hne].
        -- left; right. congruence.
        -- right. exists j, ms', m'. split; [lia|done].
    + rewrite (IH _ _ _ r H). split.
      * intros [?|(j & ms' & m' & Hj & Hm)]; [by left|].
        right. exists j, ms', m'. split; [lia|done].
      * intros [?|(j & ms' & m' & Hj & Hp & Hl & Hm)]; [by left|].
        destruct (decide (j = k)) as [->|Hne]; [congruence|].
        right. exists j, ms', m'. split; [lia|done].
Qed.

Lemma probe_loop_parsed probe k n rects r :
  probe_loop probe k n [] = Ok rects -> r ∈ rects -> parsed r.
Proof.
  intros H Hr. apply (probe_loop_elem _ _ _ _ _ r H) in Hr.
  destruct Hr as [Hr|(j & ms & m & _ & _ & _ & Hm)]; [by apply elem_of_nil in Hr|].
  eauto using rect_of_match_parsed.
Qed.

Lemma fold_extent rest : forall seen x0 y0 x1 y1,
  is_union_box seen x0 y0 x1 y1 ->
  (forall r, r ∈ rest -> fits r) ->
  exists x0' y0' x1' y1',
    fold_left extent_step rest (x0, y0, x1, y1) = (x0', y0', x1', y1')
    /\ is_union_box (seen ++ rest) x0' y0' x1' y1'.
Proof.
  induction rest as [|r rest IH]; intros seen x0 y0 x1 y1 Hbox Hfit.
  - exists x0, y0, x1, y1. by rewrite app_nil_r.
  - assert (Hr : fits r) by (apply Hfit; left).
    destruct Hr as (Hx & Hy & Hw & Hh & Hxw & Hyh).
    simpl. unfold add32. rewrite !wrap32_id by (unfold in_int, INT_MIN; lia).
    destruct (IH (seen ++ [r]) (Z.min x0 (x r)) (Z.min y0 (y r))
                 (Z.max x1 (x r + w r)) (Z.max y1 (y r + h r)))
      as (x0' & y0' & x1' & y1' & Hfold & Hbox').
    + destruct Hbox as (Hall & (ra & Ha & Hxa) & (rb & Hb & Hyb)
                        & (rc & Hc & Hxc) & (rd & Hd & Hyd)).
      split; [|split; [|split; [|split]]].
      * intros r' [Hr'| ->%list_elem_of_singleton]%elem_of_app; [|lia].
        specialize (Hall _ Hr'). lia.
      * destruct (Z.min_spec x0 (x r)) as [[_ ->]|[_ ->]].
        -- exists ra. split; [apply elem_of_app; by left|done].
        -- exists r. split; [apply elem_of_app; right; by left|done].
      * destruct (Z.min_spec y0 (y r)) as [[_ ->]|[_ ->]].
        -- exists rb. split; [apply elem_of_app; by left|done].
        -- exists r. split; [apply elem_of_app; right; by left|done].
      * destruct (Z.max_spec x1 (x r + w r)) as [[_ ->]|[_ ->]].
        -- exists r. split; [apply elem_of_app; right; by left|done].
        -- exists rc. split; [apply elem_of_app; by left|done].
      * destruct (Z.max_spec y1 (y r + h r)) as [[_ ->]|[_ ->]].
        -- exists r. split; [apply elem_of_app; right; by left|done].
        -- exists rd. split; [apply elem_of_app; by left|done].
    + intros r' Hr'. apply Hfit. by right.
    + exists x0', y0', x1', y1'. split; [done|].
      by rewrite <- app_assoc in Hbox'.
Qed.

Lemma union_box_single r :
  is_union_box [r] (x r) (y r) (x r + w r) (y r + h r).
Proof.
  split; [|repeat split; exists r; split; (by left) || done].
  intros r' ->%list_elem_of_singleton. lia.
Qed.

Lemma union_box_bounds rects x0 y0 x1 y1 :
  is_union_box rects x0 y0 x1 y1 -> (forall r, r ∈ rects -> fits r) ->
  0 <= x0 <= x1 /\ 0 <= y0 <= y1.
Proof.
  intros (Hall & (ra & Ha & Hxa) & (rb & Hb & Hyb) & _) Hfit.
  pose proof (Hfit _ Ha) as Fa. pose proof (Hfit _ Hb) as Fb.
  pose proof (Hall _ Ha). pose proof (Hall _ Hb).
  unfold fits in *. lia.
Qed.

Lemma union_with_margin_spec margin rects :
  0 <= margin ->
  rects <> [] ->
  (forall r, r ∈ rects -> fits r) ->
  (forall r, r ∈ rects ->
     x r + w r + margin <= INT_MAX /\ y r + h r + margin <= INT_MAX) ->
  exists x0 y0 x1 y1,
    is_union_box rects x0 y0 x1 y1
    /\ union_with_margin margin rects =
         mkRect (Z.max 0 (x0 - margin)) (Z.max 0 (y0 - margin))
                (x1 + margin - Z.max 0 (x0 - margin))
                (y1 + margin - Z.max 0 (y0 - margin)) true.
Proof.
  intros Hm Hne Hfit Hsum. destruct rects as [|r0 rest]; [done|].
  assert (F0 : fits r0) by (apply Hfit; left).
  destruct (fold_extent rest [r0] (x r0) (y r0) (x r0 + w r0) (y r0 + h r0))
    as (x0 & y0 & x1 & y1 & Hfold & Hbox).
  { apply union_box_single. }
  { intros r Hr. apply Hfit. by right. }
  simpl app in Hbox.
  exists x0, y0, x1, y1. split; [done|].
  destruct (union_box_bounds _ _ _ _ _ Hbox Hfit) as [Bx By].
  destruct Hbox as (Hall & _ & _ & (rc & Hc & Hxc) & (rd & Hd & Hyd)).
  pose proof (Hsum _ Hc). pose proof (Hsum _ Hd).
  assert (x1 <= INT_MAX /\ y1 <= INT_MAX) as [Bx1 By1] by lia.
  unfold union_with_margin. unfold add32 at 1 2.
  destruct F0 as (? & ? & ? & ? & ? & ?).
  rewrite !wrap32_id by (unfold in_int, INT_MIN; lia).
  rewrite Hfold. unfold add32, sub32. unfold INT_MAX in *.
  rewrite !(wrap32_id (x0 - margin)) by (unfold in_int, INT_MIN, INT_MAX; lia).
  rewrite !(wrap32_id (y0 - margin)) by (unfold in_int, INT_MIN, INT_MAX; lia).
  rewrite !(wrap32_id (x1 + margin)) by (unfold in_int, INT_MIN, INT_MAX; lia).
  rewrite !(wrap32_id (y1 + margin)) by (unfold in_int, INT_MIN, INT_MAX; lia).
  rewrite !wrap32_id by (unfold in_int, INT_MIN, INT_MAX; lia).
  done.
Qed.

Lemma rect_of_match_logged m r : rect_of_match m = Ok r -> r = rect_logged m.
Proof.
  unfold rect_of_match, bindR, stoi_digits, rect_logged.
  repeat match goal with |- context [if ?c then _ else _] => destruct c end;
    by intros [= <-].
Qed.

Lemma rect_of_match_fits m :
  Z.of_N (g1 m) <= INT_MAX -> Z.of_N (g2 m) <= INT_MAX ->
  Z.of_N (g3 m) <= INT_MAX -> Z.of_N (g4 m) <= INT_MAX ->
  rect_of_match m = Ok (rect_logged m).
Proof.
  intros H1 H2 H3 H4. unfold rect_of_match, bindR, stoi_digits, rect_logged.
  by rewrite !(proj2 (Z.leb_le _ _)) by assumption.
Qed.

(** The loop returns when every probe does and every number it reads fits
    an [int]. *)
Lemma probe_loop_returns probe n : forall k acc,
  (forall j, (k <= j < k + n)%nat ->
     exists ms, probe j = Ok ms
                /\ forall m, last ms = Some m -> rect_of_match m = Ok (rect_logged m)) ->
  exists rects, probe_loop probe k n acc = Ok rects.
Proof.
  induction n as [|n IH]; intros k acc H; simpl.
  - by eexists.
  - destruct (H k ltac:(lia)) as (ms & -> & Hm). cbn [bindR].
    destruct (last ms) as [m|] eqn:El.
    + rewrite (Hm m eq_refl). cbn [bindR]. apply IH.
      intros j Hj. apply H. lia.
    + apply IH. intros j Hj. apply H. lia.
Qed.

Lemma union_box_of P rects x0 y0 x1 y1 :
  (forall r, r ∈ rects <-> P r) ->
  is_union_box rects x0 y0 x1 y1 -> is_union_of P x0 y0 x1 y1.
Proof.
  intros HP (Hall & (ra & Ha & Hxa) & (rb & Hb & Hyb)
             & (rc & Hc & Hxc) & (rd & Hd & Hyd)).
  split; [|split; [|split; [|split]]].
  - intros r Hr. apply Hall. by apply HP.
  - exists ra. split; [by apply HP|done].
  - exists rb. split; [by apply HP|done].
  - exists rc. split; [by apply HP|done].
  - exists rd. split; [by apply HP|done].
Qed.

(** C2: when the probes run and at least one of them logs a rectangle, the
    detector returns the bounding box of the rectangles of all the probes
    (smallest x and y, largest x+w and y+h), moved out by the margin on every
    side with the corner clamped at 0; with margin 0 it returns the bounding
    box itself.  The margin of [detect_crop_ffmpeg] is 4. *)
Theorem C2_detect_crop_ffmpeg_union margin duration probe :
  0 <= margin ->
  Double.eqb duration (Double.of_int 0) = false ->
  (forall k, (k < FFMPEG_PROBES)%nat -> exists ms, probe k = Ok ms) ->
  (exists r, probe_rect probe r) ->
  (forall r, probe_rect probe r ->
     x r + w r + margin <= INT_MAX /\ y r + h r + margin <= INT_MAX) ->
  exists x0 y0 x1 y1,
    is_union_of (probe_rect probe) x0 y0 x1 y1
    /\ detect_crop_core margin duration probe =
         Ok (mkRect (Z.max 0 (x0 - margin)) (Z.max 0 (y0 - margin))
                    (x1 + margin - Z.max 0 (x0 - margin))
                    (y1 + margin - Z.max 0 (y0 - margin)) true)
    /\ (margin = 0 ->
        detect_crop_core margin duration probe =
          Ok (mkRect x0 y0 (x1 - x0) (y1 - y0) true))
    /\ (forall W src_path,
          margin = 4 -> probed_duration W src_path = Ok duration ->
          cropdetect W src_path = probe ->
          detect_crop_ffmpeg W src_path = detect_crop_core margin duration probe).
Proof.
  intros Hm Hd Hrun [r0 Hr0] Hsum.
  assert (Hparse : forall k ms m, (k < FFMPEG_PROBES)%nat -> probe k = Ok ms ->
            last ms = Some m -> rect_of_match m = Ok (rect_logged m)).
  { intros k ms m Hk Hp Hl.
    destruct (Hsum (rect_logged m)) as [Hx Hy]; [by exists k, ms, m|].
    unfold rect_logged in Hx, Hy. cbn [x y w h] in Hx, Hy.
    apply rect_of_match_fits; lia. }
  destruct (probe_loop_returns probe FFMPEG_PROBES 0%nat []) as [rects Hp].
  { intros j Hj. destruct (Hrun j ltac:(lia)) as [ms Hms].
    exists ms. split; [done|]. intros m Hl. apply (Hparse j ms m); [lia|done|done]. }
  assert (Hrects : forall r, r ∈ rects <-> probe_rect probe r).
  { intros r. rewrite (probe_loop_elem _ _ _ _ _ r Hp). split.
    - intros [Hr|(j & ms & m & Hj & Hpj & Hl & Hr)]; [by apply elem_of_nil in Hr|].
      exists j, ms, m. split; [lia|]. split; [done|]. split; [done|].
      by apply rect_of_match_logged.
    - intros (j & ms & m & Hj & Hpj & Hl & ->). right.
      exists j, ms, m. split; [lia|]. split; [done|]. split; [done|].
      by apply (Hparse j ms m). }
  assert (Hne : rects <> []).
  { intros ->. apply Hrects in Hr0. by apply elem_of_nil in Hr0. }
  assert (Hsum' : forall r, r ∈ rects ->
            x r + w r + margin <= INT_MAX /\ y r + h r + margin <= INT_MAX).
  { intros r Hr. apply Hsum. by apply Hrects. }
  assert (Hfit : forall r, r ∈ rects -> fits r).
  { intros r Hr. destruct (probe_loop_parsed _ _ _ _ _ Hp Hr) as (_ & ? & ? & ? & ?).
    destruct (Hsum' _ Hr). unfold fits. lia. }
  destruct (union_with_margin_spec margin rects Hm Hne Hfit Hsum')
    as (x0 & y0 & x1 & y1 & Hbox & Hu).
  exists x0, y0, x1, y1. split; [by apply (union_box_of _ rects)|].
  assert (E : detect_crop_core margin duration probe =
              Ok (union_with_margin margin rects)).
  { unfold detect_crop_core. rewrite Hd, Hp. done. }
  rewrite E, Hu. split; [done|]. split.
  - intros ->. destruct (union_box_bounds _ _ _ _ _ Hbox Hfit) as [Bx By].
    rewrite !Z.sub_0_r, !Z.add_0_r, !Z.max_r by lia. done.
  - intros W src_path -> Hdur <-. unfold detect_crop_ffmpeg, SAFE_MARGIN_PX.
    rewrite Hdur. simpl. by rewrite E, Hu.
Qed.

Lemma C2_detect_crop_ffmpeg_witness :
  is_union_of (probe_rect Examples.spread_probes) 0 60 1300 660
  /\ detect_crop_core 4 (Double.of_int 10) Examples.spread_probes
     = Ok (mkRect 0 56 1304 608 true).
Proof.
  assert (Hrect : forall r, probe_rect Examples.spread_probes r ->
            r = mkRect 0 80 1280 560 true \/ r = mkRect 300 60 1000 600 true
            \/ r = mkRect 320 200 640 360 true).
  { intros r (k & ms & m & Hk & Hp & Hl & ->).
    destruct k as [|[|[|k]]]; [| | |unfold FFMPEG_PROBES in Hk; lia];
      injection Hp as <-; injection Hl as <-; auto. }
  destruct (C2_detect_crop_ffmpeg_union 4 (Double.of_int 10) Examples.spread_probes)
    as (x0 & y0 & x1 & y1 & Hbox & E & _).
  - lia.
  - reflexivity.
  - intros k Hk. destruct k as [|[|k]]; by eexists.
  - exists (mkRect 0 80 1280 560 true).
    exists 0%nat, [mkMatch 1280 560 0 80], (mkMatch 1280 560 0 80).
    split; [unfold FFMPEG_PROBES; lia|]. repeat split.
  - intros r [->|[->| ->]]%Hrect; vm_compute; split; discriminate.
  - assert (Ex : x0 = 0 /\ y0 = 60 /\ x1 = 1300 /\ y1 = 660).
    { destruct Hbox as (_ & (ra & Ha & Hxa) & (rb & Hb & Hyb)
                        & (rc & Hc & Hxc) & (rd & Hd & Hyd)).
      assert (E' : detect_crop_core 4 (Double.of_int 10) Examples.spread_probes
                   = Ok (mkRect 0 56 1304 608 true)) by reflexivity.
      rewrite E' in E. injection E as E1 E2 E3 E4.
      apply Hrect in Ha, Hb, Hc, Hd.
      destruct Ha as [->|[->| ->]], Hb as [->|[->| ->]],
               Hc as [->|[->| ->]], Hd as [->|[->| ->]];
        cbn [x y w h] in *; lia. }
    destruct Ex as (-> & -> & -> & ->). split; [exact Hbox|exact E].
Defined.

End DetectFacts.

(** ** Per-image border trim *)

Section ImageCropFacts.
Import CInt Crop ImageCrop.

Variable cv_mean : list Vec3b -> Scalar.

Lemma all_close_spec mean_val tol pixels :
  in_int (tol * 3) ->
  all_close mean_val tol pixels = true <->
  forall p, p ∈ pixels -> diff_sum mean_val p <= 3 * tol.
Proof.
  intros Ht. induction pixels as [|p rest IH]; simpl.
  - split; [|done]. intros _ p Hp. by apply elem_of_nil in Hp.
  - rewrite (wrap32_id _ Ht).
    destruct (diff_sum mean_val p >? tol * 3) eqn:E.
    + split; [done|]. intros H. specialize (H p (list_elem_of_here _ _)). lia.
    + rewrite IH. split.
      * intros H q [->|Hq]%elem_of_cons; [lia|auto].
      * intros H q Hq. apply H. by right.
Qed.

(** C6 (as stated) fails: with tolerance 5, a line of fifteen black pixels
    and one pixel (15, 0, 0) has mean (0.9375, 0, 0), truncated to
    (0, 0, 0); the odd pixel is 15 away from it on the first channel, yet
    the line is classified as blank. *)
Lemma C6_blank_line_not_per_channel :
  let line := replicate 15 (mkVec3b 0 0 0) ++ [mkVec3b 15 0 0] in
  is_blank_line mean_of TOLERANCE line = true
  /\ ~ (forall p, p ∈ line -> within_per_channel (mean_of line) TOLERANCE p).
Proof.
  split; [vm_compute; reflexivity|].
  intros H. specialize (H (mkVec3b 15 0 0)).
  destruct H as [H _].
  - apply elem_of_app. right. by left.
  - vm_compute in H. by apply H.
Qed.

(** C6 (amended): a line is classified as blank exactly when, for every
    pixel, the absolute deviations of its three channels from the truncated
    mean of the line add up to at most three times the tolerance; so a line
    whose pixels are all within the tolerance on each channel is blank. *)
Theorem C6_is_blank_line_sum tol (line : list Vec3b) :
  in_int (tol * 3) ->
  (is_blank_line cv_mean tol line = true <->
   forall p, p ∈ line -> diff_sum (cv_mean line) p <= 3 * tol)
  /\ ((forall p, p ∈ line -> within_per_channel (cv_mean line) tol p) ->
      is_blank_line cv_mean tol line = true).
Proof.
  intros Ht.
  assert (E : is_blank_line cv_mean tol line = true <->
              forall p, p ∈ line -> diff_sum (cv_mean line) p <= 3 * tol).
  { destruct line as [|p0 rest] eqn:El.
    - simpl. split; [|done]. intros _ p Hp. by apply elem_of_nil in Hp.
    - unfold is_blank_line. by apply all_close_spec. }
  split; [exact E|].
  intros H. apply E. intros p Hp. destruct (H p Hp) as (H0 & H1 & H2).
  unfold diff_sum. lia.
Qed.

Lemma scan_cases blank idxs dflt :
  scan blank idxs dflt = dflt
  \/ exists i, i ∈ idxs /\ blank i = false /\ scan blank idxs dflt = Z.of_nat i.
Proof.
  induction idxs as [|i rest IH]; simpl; [by left|].
  destruct (blank i) eqn:E; simpl.
  - destruct IH as [IH|(j & Hj & Hb & Hs)]; [by left|].
    right. exists j. split; [by right|done].
  - right. exists i. split; [by left|done].
Qed.

Lemma scan_all_blank blank idxs dflt :
  (forall i, i ∈ idxs -> blank i = true) -> scan blank idxs dflt = dflt.
Proof.
  induction idxs as [|i rest IH]; intros H; simpl; [done|].
  rewrite (H i) by (by left). simpl. apply IH. intros j Hj. apply H. by right.
Qed.

Lemma scan_seq_range blank n :
  0 <= scan blank (seq 0 n) (Z.of_nat n) <= Z.of_nat n.
Proof.
  destruct (scan_cases blank (seq 0 n) (Z.of_nat n)) as [->|(i & Hi & _ & ->)]; [lia|].
  apply list_elem_of_In, in_seq in Hi. lia.
Qed.

Lemma scan_rev_range blank n :
  (0 < n)%nat -> 0 <= scan blank (rev (seq 0 n)) 0 <= Z.of_nat n - 1.
Proof.
  intros Hn.
  destruct (scan_cases blank (rev (seq 0 n)) 0) as [->|(i & Hi & _ & ->)]; [lia|].
  apply list_elem_of_In, in_rev, in_seq in Hi. lia.
Qed.

(** C10: a rectangle the border trim returns as valid lies within the
    image and is at least 2 by 2; an image all of whose lines are blank
    gets no rectangle. *)
Theorem C10_detect_image_crop_in_bounds (img : Mat) tol :
  let r := detect_image_crop_cv cv_mean img tol in
  (valid r = true ->
     0 <= x r /\ 0 <= y r
     /\ x r + w r <= Z.of_nat (cols img) /\ y r + h r <= Z.of_nat (rows img)
     /\ 2 <= w r /\ 2 <= h r)
  /\ ((forall i, (i < cols img)%nat -> is_blank_line cv_mean tol (col img i) = true) ->
      (forall i, (i < rows img)%nat -> is_blank_line cv_mean tol (row img i) = true) ->
      valid r = false).
Proof.
  unfold detect_image_crop_cv. destruct (empty img) eqn:Ee; [done|].
  apply orb_false_iff in Ee as [Er Ec].
  apply Nat.eqb_neq in Er, Ec.
  set (bc := fun i => is_blank_line cv_mean tol (col img i)).
  set (br := fun i => is_blank_line cv_mean tol (row img i)).
  pose proof (scan_seq_range bc (cols img)) as Hx0.
  pose proof (scan_rev_range bc (cols img)) as Hx1.
  pose proof (scan_seq_range br (rows img)) as Hy0.
  pose proof (scan_rev_range br (rows img)) as Hy1.
  split.
  - destruct (_ || _) eqn:E; [done|]. simpl. intros _.
    apply orb_false_iff in E as [E1 E2]. lia.
  - intros Hc Hr.
    rewrite (scan_all_blank bc (seq 0 (cols img)) (Z.of_nat (cols img))).
    2:{ intros i Hi. apply list_elem_of_In, in_seq in Hi. apply Hc. lia. }
    rewrite (scan_all_blank bc (rev (seq 0 (cols img))) 0).
    2:{ intros i Hi. apply list_elem_of_In, in_rev, in_seq in Hi. apply Hc. lia. }
    destruct (Z.of_nat (cols img) >=? 0) eqn:E; [done|lia].
Qed.

End ImageCropFacts.

Section ImageCropExamples.
Import CInt Crop ImageCrop.

Lemma C6_is_blank_line_witness :
  is_blank_line mean_of TOLERANCE Examples.grey_line = true.
Proof.
  apply (C6_is_blank_line_sum mean_of TOLERANCE Examples.grey_line).
  - vm_compute. split; discriminate.
  - intros p Hp.
    repeat (apply elem_of_cons in Hp as [->|Hp];
            [vm_compute; repeat split; discriminate|]).
    by apply elem_of_nil in Hp.
Defined.

Lemma C10_detect_image_crop_witness :
  detect_image_crop_cv mean_of Examples.framed TOLERANCE = mkRect 1 1 2 2 true
  /\ 0 <= 1 /\ 0 <= 1 /\ 1 + 2 <= 4 /\ 1 + 2 <= 4 /\ 2 <= 2 /\ 2 <= 2.
Proof.
  split; [reflexivity|].
  exact (proj1 (C10_detect_image_crop_in_bounds mean_of Examples.framed TOLERANCE)
               eq_refl).
Defined.

End ImageCropExamples.


(** ** Goodness test *)

Section GoodCropFacts.
Import CInt Crop.

Lemma below_ratio_exact v o :
  0 < v <= INT_MAX -> in_int o -> below_ratio v o = (10 * v <? 9 * o).
Proof.
  unfold in_int, INT_MIN, INT_MAX. intros Hv Ho.
  destruct (Z_lt_le_dec 0 o) as [Hpos|Hneg].
  - apply below_ratio_pos; lia.
  - rewrite below_ratio_nonpos by lia. symmetry. apply Z.ltb_ge. lia.
Qed.

Lemma is_good_crop_inv rect ow oh :
  is_good_crop rect ow oh = true ->
  valid rect = true /\ 0 < w rect /\ 0 < h rect
  /\ significant_crop rect ow oh = true /\ sensible_size rect ow oh = true.
Proof.
  unfold is_good_crop.
  destruct (valid rect); simpl; [|done].
  destruct (Z.leb_spec (w rect) 0); simpl; [done|].
  destruct (Z.leb_spec (h rect) 0); simpl; [done|].
  intros [-> ->]%andb_true_iff. repeat split; lia.
Qed.

(** C4 (as stated) fails on two counts.  The width of the first rectangle
    is exactly 0.9 times the original width, and [is_good_crop] is true
    (the height is below its threshold).  And [is_good_crop] is not
    monotonic: the second rectangle is good, yet shrinking its width to 5
    turns the answer back to false (5 is not above 5% of 100). *)
Lemma C4_is_good_crop_not_monotonic :
  is_good_crop (mkRect 0 0 90 50 true) 100 100 = true
  /\ is_good_crop (mkRect 0 0 50 100 true) 100 100 = true
  /\ is_good_crop (mkRect 0 0 5 100 true) 100 100 = false.
Proof. vm_compute. done. Qed.

(** C4 (amended): with 0.9 for 1 - ratio, the significant-crop predicate
    of [is_good_crop] is true exactly when the width is below 0.9 times
    the original width or the height below 0.9 times the original height
    (the binary64 evaluation agrees with the exact comparison on every
    [int]); hence it is monotonic, staying true when a dimension shrinks
    further; and when one dimension is exactly 0.9 times the original
    while the other is not below its own threshold, the predicate, and
    with it [is_good_crop], is false. *)
Theorem C4_significant_crop_threshold rect ow oh :
  0 < w rect <= INT_MAX -> 0 < h rect <= INT_MAX -> in_int ow -> in_int oh ->
  significant_crop rect ow oh
    = (10 * w rect <? 9 * ow) || (10 * h rect <? 9 * oh)
  /\ (forall rect',
        0 < w rect' <= w rect -> 0 < h rect' <= h rect ->
        significant_crop rect ow oh = true ->
        significant_crop rect' ow oh = true)
  /\ (10 * w rect = 9 * ow \/ 10 * h rect = 9 * oh ->
      9 * ow <= 10 * w rect -> 9 * oh <= 10 * h rect ->
      significant_crop rect ow oh = false /\ is_good_crop rect ow oh = false).
Proof.
  intros Hw Hh How Hoh.
  assert (E : forall r, 0 < w r <= INT_MAX -> 0 < h r <= INT_MAX ->
              significant_crop r ow oh
              = (10 * w r <? 9 * ow) || (10 * h r <? 9 * oh)).
  { intros r Hrw Hrh. unfold significant_crop.
    by rewrite !below_ratio_exact. }
  split; [by apply E|]. split.
  - intros rect' Hw' Hh'. rewrite !E by lia.
    intros [H|H]%orb_true_iff; apply orb_true_iff; [left|right];
      apply Z.ltb_lt; apply Z.ltb_lt in H; lia.
  - intros _ H1 H2.
    assert (S : significant_crop rect ow oh = false).
    { rewrite E by lia. apply orb_false_iff. split; apply Z.ltb_ge; lia. }
    split; [exact S|]. unfold is_good_crop. rewrite S.
    by destruct (negb (valid rect) || (w rect <=? 0) || (h rect <=? 0)).
Qed.

Lemma C4_significant_crop_witness :
  significant_crop (mkRect 0 0 90 100 true) 100 100 = false
  /\ is_good_crop (mkRect 0 0 90 100 true) 100 100 = false.
Proof.
  refine (proj2 (proj2 (C4_significant_crop_threshold
                          (mkRect 0 0 90 100 true) 100 100 _ _ _ _)) _ _ _);
    unfold in_int, INT_MIN, INT_MAX; simpl; lia.
Defined.

End GoodCropFacts.

(** ** Crop command *)

Section CropCommandFacts.
Import CInt Cxx Crop.

Lemma make_even_spec v :
  in_int v -> v < INT_MAX ->
  Z.even (make_even v) = true /\ v <= make_even v <= v + 1.
Proof.
  unfold in_int, INT_MIN, INT_MAX, make_even. intros Hv Hmax.
  destruct (Z.eqb_spec (Z.rem v 2) 0) as [E|E].
  - split; [|lia]. rewrite Zeven_mod. apply Z.eqb_eq.
    destruct (Z.rem_divide v 2 ltac:(lia)) as [[c ->] _]; [done|].
    by rewrite Z.mod_mul.
  - unfold add32. rewrite wrap32_id by (unfold in_int, INT_MIN, INT_MAX; lia).
    split; [|lia]. rewrite Z.even_add. 
    destruct (Z.even v) eqn:Ev; [|done]. exfalso. apply E.
    apply Z.even_spec in Ev as [c ->]. by rewrite Z.mul_comm, Z.rem_mul.
Qed.

(** With the crop filter on the GPU, or without a hardware decoder, the
    command carries the size rounded up to even numbers. *)
Lemma cropped_size_filter_even has_crop_cuda cuvid_decoder rect ow oh :
  has_crop_cuda = true \/ cuvid_decoder = "" ->
  0 < w rect < INT_MAX -> 0 < h rect < INT_MAX ->
  let '(cw, ch) := cropped_size has_crop_cuda cuvid_decoder rect ow oh in
  Z.even cw = true /\ Z.even ch = true
  /\ w rect <= cw <= w rect + 1 /\ h rect <= ch <= h rect + 1.
Proof.
  intros Hb Hw Hh. unfold cropped_size.
  assert (has_crop_cuda || String.eqb cuvid_decoder "" = true) as ->.
  { destruct Hb as [->| ->]; [done|]. by rewrite orb_true_r. }
  destruct (make_even_spec (w rect)) as [? ?]; [unfold in_int, INT_MIN in *; lia|lia|].
  destruct (make_even_spec (h rect)) as [? ?]; [unfold in_int, INT_MIN in *; lia|lia|].
  done.
Qed.

(** C8 at a failing input: without the [crop_cuda] filter and with a
    hardware decoder for the codec, the command of [crop_gpu] for the good
    rectangle 101 x 51 of a 200 x 100 video crops by the decoder margins
    [0x49x0x99] computed from the width and height as given; the picture
    kept is 101 x 51, not 102 x 52. *)
Theorem C8_cuvid_crop_keeps_odd_size :
  let rect := mkRect 0 0 101 51 true in
  is_good_crop rect 200 100 = true
  /\ crop_command false (cuvid_decoder_of "h264") "in.mp4" "out.mp4" rect 200 100
     = "ffmpeg -hide_banner -loglevel error -c:v h264_cuvid -hwaccel_device 0 "
       +:+ "-crop 0x49x0x99 -i " +:+ dquote +:+ "in.mp4" +:+ dquote
       +:+ " -vf " +:+ dquote +:+ "setsar=1:1,format=nv12" +:+ dquote
       +:+ " -c:v h264_nvenc -preset p5 -tune hq -cq 23 -c:a copy -movflags +faststart -y "
       +:+ dquote +:+ "out.mp4" +:+ dquote
  /\ cropped_size false (cuvid_decoder_of "h264") rect 200 100 = (101, 51)
  /\ (make_even 101, make_even 51) = (102, 52).
Proof. vm_compute. done. Qed.

End CropCommandFacts.

(** ** Phase-1 handler *)

Section HandlerFacts.
Import CInt Cxx Crop.

Lemma union_with_margin_nonneg margin rects :
  0 <= x (union_with_margin margin rects)
  /\ 0 <= y (union_with_margin margin rects).
Proof.
  unfold union_with_margin. destruct rects as [|r0 rest]; [done|].
  destruct (fold_left extent_step rest _) as [[[a b] c] d]. simpl. lia.
Qed.

Lemma detect_crop_ffmpeg_nonneg W src_path r :
  detect_crop_ffmpeg W src_path = Ok r -> 0 <= x r /\ 0 <= y r.
Proof.
  unfold detect_crop_ffmpeg, bindR.
  destruct (probed_duration W src_path) as [duration|]; [|done].
  unfold detect_crop_core, bindR.
  destruct (Double.eqb duration (Double.of_int 0)); [by intros [= <-]|].
  destruct (probe_loop _ _ _ _) as [rects|]; [|done].
  intros [= <-]. apply union_with_margin_nonneg.
Qed.

Lemma detect_gradient_nonneg W src_path ow oh :
  (forall b, gradient_best_rect W src_path = Some b ->
             0 <= rect_x b < 2 ^ 30 /\ 0 <= rect_y b < 2 ^ 30) ->
  0 <= x (detect_gradient W src_path ow oh)
  /\ 0 <= y (detect_gradient W src_path ow oh).
Proof.
  intros H. unfold detect_gradient.
  destruct (gradient_best_rect W src_path) as [b|]; [|done].
  destruct (H b eq_refl) as [Hx Hy]. simpl.
  rewrite !scaled_twice by done. lia.
Qed.

Lemma selected_rect_cases W src_path ow oh rect mode :
  selected_rect W src_path ow oh = Ok (rect, mode) ->
  detect_crop_ffmpeg W src_path = Ok rect
  \/ (rect = detect_gradient W src_path ow oh
      /\ is_good_crop rect ow oh = true).
Proof.
  unfold selected_rect, bindR.
  destruct (detect_crop_ffmpeg W src_path) as [r0|]; [|done].
  destruct (is_good_crop r0 ow oh); simpl.
  - intros [= <- _]. by left.
  - destruct (is_good_crop (detect_gradient W src_path ow oh) ow oh) eqn:E.
    + intros [= <- _]. by right.
    + intros [= <- _]. by left.
Qed.

(** C9: every rectangle the handler passes to [crop_gpu] is valid and has
    passed [is_good_crop], so its width and height are positive; its
    corner is non-negative, the multi-probe detector clamping it at 0 and
    the gradient detector scaling a bounding box that the vision library
    places inside the (downscaled) frame. *)
Theorem C9_crop_gpu_only_on_good_rect W src_path fs status fs' log
    src dst rect ow oh :
  handle_video_phase1 W src_path fs = (status, fs', log) ->
  CallCropGpu src dst rect ow oh ∈ log ->
  valid rect = true /\ is_good_crop rect ow oh = true
  /\ 0 < w rect /\ 0 < h rect
  /\ ((forall b, gradient_best_rect W src_path = Some b ->
                 0 <= rect_x b < 2 ^ 30 /\ 0 <= rect_y b < 2 ^ 30) ->
      0 <= x rect /\ 0 <= y rect).
Proof.
  unfold handle_video_phase1.
  destruct (probed_dimensions W src_path) as [[[ow' oh']|]|];
    try (intros [= _ _ <-] Hin; by apply elem_of_nil in Hin).
  destruct (selected_rect W src_path ow' oh') as [[rect' mode]|] eqn:Hsel;
    try (intros [= _ _ <-] Hin; by apply elem_of_nil in Hin).
  destruct (valid rect' && is_good_crop rect' ow' oh') eqn:Hguard.
  - apply andb_true_iff in Hguard as [Hv Hg].
    assert (Hcall : forall l, CallCropGpu src dst rect ow oh ∈ l ->
              l = [CallCropGpu src_path (path_append CROPPED_DIR (filename src_path))
                     rect' ow' oh']
              \/ l = [CallCropGpu src_path (path_append CROPPED_DIR (filename src_path))
                        rect' ow' oh';
                      CallCopyFile src_path (path_append CROPPED_DIR (filename src_path))] ->
              rect = rect' /\ ow = ow' /\ oh = oh').
    { intros l Hin [->| ->].
      - apply list_elem_of_singleton in Hin. by injection Hin.
      - apply elem_of_cons in Hin as [Hin|Hin]; [by injection Hin|].
        apply list_elem_of_singleton in Hin. discriminate. }
    intros Hrun Hin.
    assert (rect = rect' /\ ow = ow' /\ oh = oh') as (-> & -> & ->).
    { destruct (crop_gpu W src_path _ rect' ow' oh' fs) as [[u|e] fs1].
      - injection Hrun as _ _ <-. eapply Hcall; eauto.
      - destruct (copy_file src_path _ fs1); injection Hrun as _ _ <-;
          eapply Hcall; eauto. }
    destruct (is_good_crop_inv _ _ _ Hg) as (_ & Hw & Hh & _).
    repeat split; try done.
    + destruct (selected_rect_cases _ _ _ _ _ _ Hsel) as [Hd|[-> _]].
      * by apply detect_crop_ffmpeg_nonneg in Hd as [? ?].
      * by apply detect_gradient_nonneg.
    + destruct (selected_rect_cases _ _ _ _ _ _ Hsel) as [Hd|[-> _]].
      * by apply detect_crop_ffmpeg_nonneg in Hd as [? ?].
      * by apply detect_gradient_nonneg.
  - intros Hrun Hin.
    destruct (copy_file src_path _ fs); injection Hrun as _ _ <-;
      apply list_elem_of_singleton in Hin; discriminate.
Qed.

Lemma crop_gpu_failure W src_path dst_path rect ow oh fs codec_name :
  ffprobe_val W src_path "codec_name" = Ok codec_name ->
  (system W (crop_command (HAS_CROP_CUDA W) (cuvid_decoder_of codec_name)
               src_path dst_path rect ow oh)).1 <> 0 ->
  exists what fs1,
    crop_gpu W src_path dst_path rect ow oh fs = (Throw what, fs1)
    /\ (fs1 = fs \/ exists partial, fs1 = <[dst_path := partial]> fs).
Proof.
  intros Hc Hexit. unfold crop_gpu. rewrite Hc.
  destruct (system W _) as [ret written]. simpl in Hexit.
  destruct (Z.eqb_spec ret 0) as [|_]; [done|]. simpl.
  eexists _, _. split; [reflexivity|].
  destruct written as [c|]; [right; by exists c|by left].
Qed.

Lemma copy_over (fs fs1 : FS) src dst orig :
  fs !! src = Some orig -> src <> dst ->
  fs1 = fs \/ (exists partial, fs1 = <[dst := partial]> fs) ->
  copy_file src dst fs1 = Ok (<[dst := orig]> fs).
Proof.
  intros Hsrc Hne Hfs1. unfold copy_file.
  assert (E : String.eqb src dst = false) by (by apply String.eqb_neq).
  destruct Hfs1 as [->|[partial ->]].
  - rewrite Hsrc, E. by destruct (fs !! dst).
  - rewrite lookup_insert_ne by done.
    rewrite Hsrc, E, lookup_insert_eq. by rewrite insert_insert_eq.
Qed.

(** A copy that returns had a source, which was not the destination. *)
Lemma copy_file_returns src dst (fs fs' : FS) :
  copy_file src dst fs = Ok fs' ->
  src <> dst
  /\ exists content, fs !! src = Some content /\ fs' = <[dst := content]> fs.
Proof.
  unfold copy_file. destruct (fs !! src) as [content|] eqn:Hsrc; [|done].
  destruct (fs !! dst) as [c|] eqn:Hdst.
  - destruct (String.eqb_spec src dst) as [->|Hne]; [done|].
    intros [= <-]. eauto.
  - intros [= <-]. split; [|eauto]. intros ->. congruence.
Qed.

(** The videos phase 1 takes from the input directory are not at the path
    of their intermediate file. *)
Lemma input_path_not_intermediate name :
  path_append INPUT_DIR name
  <> path_append CROPPED_DIR (filename (path_append INPUT_DIR name)).
Proof. unfold path_append, INPUT_DIR, CROPPED_DIR. cbn [append]. discriminate. Qed.

(** C3: once the dimensions are known, for a source file that is there and
    is not itself the intermediate file, a crop invocation that exits
    nonzero makes the handler copy the original to the destination and
    return "copy_after_error", and a video none of whose detected
    rectangles passes the goodness test is copied and reported as "copy";
    in both cases the destination holds the original afterwards, and so
    does the source. *)
Theorem C3_copy_fallback W src_path (fs : FS) ow oh orig :
  probed_dimensions W src_path = Ok (Some (ow, oh)) ->
  fs !! src_path = Some orig ->
  let dst_path := path_append CROPPED_DIR (filename src_path) in
  src_path <> dst_path ->
  (forall rect mode codec_name,
     selected_rect W src_path ow oh = Ok (rect, mode) ->
     is_good_crop rect ow oh = true ->
     ffprobe_val W src_path "codec_name" = Ok codec_name ->
     (system W (crop_command (HAS_CROP_CUDA W) (cuvid_decoder_of codec_name)
                  src_path dst_path rect ow oh)).1 <> 0 ->
     handle_video_phase1 W src_path fs
     = (Ok "copy_after_error", <[dst_path := orig]> fs,
        [CallCropGpu src_path dst_path rect ow oh;
         CallCopyFile src_path dst_path]))
  /\ (forall rect,
        detect_crop_ffmpeg W src_path = Ok rect ->
        is_good_crop rect ow oh = false ->
        is_good_crop (detect_gradient W src_path ow oh) ow oh = false ->
        handle_video_phase1 W src_path fs
        = (Ok "copy", <[dst_path := orig]> fs, [CallCopyFile src_path dst_path]))
  /\ (<[dst_path := orig]> fs) !! dst_path = Some orig
  /\ (<[dst_path := orig]> fs) !! src_path = Some orig.
Proof.
  intros Hdim Hsrc dst_path Hne. split; [|split; [|split]].
  - intros rect mode codec_name Hsel Hgood Hcodec Hexit.
    unfold handle_video_phase1. rewrite Hdim, Hsel.
    destruct (is_good_crop_inv _ _ _ Hgood) as (-> & _).
    rewrite Hgood. cbn [andb]. fold dst_path.
    destruct (crop_gpu_failure W src_path dst_path rect ow oh fs codec_name Hcodec Hexit)
      as (what & fs1 & -> & Hfs1).
    by rewrite (copy_over fs fs1 src_path dst_path orig Hsrc Hne Hfs1).
  - intros rect Hdet Hbad Hbad'.
    unfold handle_video_phase1. rewrite Hdim.
    unfold selected_rect. rewrite Hdet. cbn [bindR]. rewrite Hbad. cbn [negb].
    rewrite Hbad', Hbad, andb_false_r. fold dst_path.
    by rewrite (copy_over fs fs src_path dst_path orig Hsrc Hne (or_introl eq_refl)).
  - apply lookup_insert_eq.
  - rewrite lookup_insert_ne by done. exact Hsrc.
Qed.




Lemma C9_crop_gpu_witness :
  let rect := mkRect 0 0 100 50 true in
  valid rect = true /\ is_good_crop rect 200 100 = true
  /\ 0 < w rect /\ 0 < h rect /\ 0 <= x rect /\ 0 <= y rect.
Proof.
  pose proof (C9_crop_gpu_only_on_good_rect Examples.world_encoding Examples.clip
                Examples.disk (Ok "crop[ffmpeg]")
                (<[Examples.clip_out := "encoded"]> Examples.disk)
                [CallCropGpu Examples.clip Examples.clip_out
                   (mkRect 0 0 100 50 true) 200 100]
                Examples.clip Examples.clip_out (mkRect 0 0 100 50 true) 200 100
                eq_refl (list_elem_of_here _ _)) as (Hv & Hg & Hw & Hh & Hxy).
  destruct Hxy as [Hx Hy]; [intros b Hb; discriminate Hb|].
  cbv zeta. repeat split; assumption.
Defined.

Lemma C3_copy_fallback_witness :
  handle_video_phase1 Examples.world_failing Examples.clip Examples.disk
  = (Ok "copy_after_error", <[Examples.clip_out := "original"]> Examples.disk,
     [CallCropGpu Examples.clip Examples.clip_out (mkRect 0 0 100 50 true) 200 100;
      CallCopyFile Examples.clip Examples.clip_out])
  /\ handle_video_phase1 Examples.world_silent_probes Examples.clip Examples.disk
     = (Ok "copy", <[Examples.clip_out := "original"]> Examples.disk,
        [CallCopyFile Examples.clip Examples.clip_out]).
Proof.
  split.
  - assert (Hne : Examples.clip
                  <> path_append CROPPED_DIR (filename Examples.clip)).
    { vm_compute. discriminate. }
    pose proof (C3_copy_fallback Examples.world_failing Examples.clip Examples.disk
                  200 100 "original" eq_refl eq_refl Hne) as H.
    cbv zeta in H. destruct H as [H _].
    apply (H (mkRect 0 0 100 50 true) "ffmpeg" "h264").
    + reflexivity.
    + reflexivity.
    + reflexivity.
    + vm_compute. discriminate.
  - assert (Hne : Examples.clip
                  <> path_append CROPPED_DIR (filename Examples.clip)).
    { vm_compute. discriminate. }
    pose proof (C3_copy_fallback Examples.world_silent_probes Examples.clip
                  Examples.disk 200 100 "original" eq_refl eq_refl Hne) as H.
    cbv zeta in H. destruct H as (_ & H & _).
    apply (H no_rect); reflexivity.
Defined.


End HandlerFacts.


(** ** The resources of the hardware pipeline *)

Section PipelineFacts.
Import Pipeline.

Lemma slot_eqb_eq a b : slot_eqb a b = true <-> a = b.
Proof.
  unfold slot_eqb. rewrite Nat.eqb_eq. split; [|by intros ->].
  destruct a, b; simpl; intros H; try reflexivity; discriminate H.
Qed.

Lemma held_acquire s s' L :
  held (acquire s L) s' = if slot_eqb s s' then true else held L s'.
Proof. reflexivity. Qed.

Lemma held_release s s' L :
  held (release s L) s' = if slot_eqb s s' then false else held L s'.
Proof.
  unfold release. destruct (held L s) eqn:E; [reflexivity|].
  destruct (slot_eqb s s') eqn:Es; [|reflexivity].
  apply slot_eqb_eq in Es as <-. exact E.
Qed.

Lemma held_deref s s' L : held (deref s L) s' = held L s'.
Proof. unfold deref. by destruct (held L s). Qed.

Lemma balanced_acquire s L :
  balanced L -> held L s = false -> balanced (acquire s L).
Proof.
  intros (Hb & Hl & Hf) Hs. repeat split; simpl.
  - intros s'. unfold upd. destruct (slot_eqb s s') eqn:Es.
    + apply slot_eqb_eq in Es as <-. rewrite Hb, Hs. lia.
    + apply Hb.
  - by rewrite Hs.
  - done.
Qed.

Lemma balanced_release s L : balanced L -> balanced (release s L).
Proof.
  intros (Hb & Hl & Hf). unfold release.
  destruct (held L s) eqn:Hs; [|done]. repeat split; simpl; try done.
  intros s'. unfold upd. destruct (slot_eqb s s') eqn:Es.
  - apply slot_eqb_eq in Es as <-. rewrite Hb, Hs. lia.
  - apply Hb.
Qed.

Lemma balanced_deref s L :
  balanced L -> held L s = true -> balanced (deref s L).
Proof. intros Hb Hs. unfold deref. by rewrite Hs. Qed.

Lemma settled_of_balanced L :
  balanced L -> (forall s, held L s = false) -> settled L.
Proof.
  intros (Hb & Hl & Hf) Hh. repeat split; try done.
  intros s. rewrite Hb, Hh. lia.
Qed.

(** Normalise [held] through the primitives. *)
Ltac held_rw :=
  repeat first
    [ rewrite held_acquire | rewrite held_release | rewrite held_deref ].

Ltac use_held :=
  repeat match goal with
         | H : held _ _ = _ |- _ => rewrite H
         end.

(** Goals [forall s, held ... s = ...]: by cases on the slot. *)
Ltac by_slot s :=
  held_rw; destruct s; cbn [slot_eqb slot_index Nat.eqb]; use_held;
  try reflexivity.

(** [encode_write_frame] *)

Lemma receive_packets_quiet ws neg : forall L,
  balanced L -> held L EncPktData = false ->
  balanced (receive_packets ws neg L).1
  /\ same_slots L (receive_packets ws neg L).1.
Proof.
  induction ws as [|w ws IH]; intros L Hb Hd; simpl.
  - split; [done|]. by intros s.
  - assert (Hb1 : balanced (release EncPktData (acquire EncPktData L))).
    { by apply balanced_release, balanced_acquire. }
    assert (Hs1 : same_slots L (release EncPktData (acquire EncPktData L))).
    { intros s. by_slot s. }
    destruct w; simpl.
    + destruct (IH (release EncPktData (release EncPktData (acquire EncPktData L))))
        as [Hb2 Hs2].
      * by apply balanced_release.
      * by held_rw.
      * split; [done|]. intros s. rewrite Hs2. by_slot s.
    + done.
Qed.

Lemma encode_write_frame_quiet o L :
  balanced L -> held L EncPkt = false -> held L EncPktData = false ->
  balanced (encode_write_frame o L).1
  /\ same_slots L (encode_write_frame o L).1.
Proof.
  intros Hb Hp Hd. unfold encode_write_frame.
  destruct (enc_pkt_alloc_ok o); simpl; [|by split].
  assert (Hb1 : balanced (acquire EncPkt L)) by by apply balanced_acquire.
  destruct (send_frame_fatal o).
  - simpl. split; [by repeat apply balanced_release|].
    intros s. by_slot s.
  - destruct (receive_packets_quiet (written o) (drain_negative o) (acquire EncPkt L))
      as [Hb2 Hs2]; [done|by held_rw|].
    destruct (receive_packets _ _ _) as [L2 neg]. simpl in *.
    split; [by repeat apply balanced_release|].
    intros s. held_rw. rewrite Hs2. by_slot s.
Qed.

(** The sink loops *)

Lemma sink_frame_received_spec st L :
  balanced L ->
  held L FiltFrameData = false -> held L FiltFrameHwFramesCtx = false ->
  balanced (attach_encoder_pool st (sink_frame_received st L))
  /\ forall s,
       held (release FiltFrameHwFramesCtx (release FiltFrameData
               (attach_encoder_pool st (sink_frame_received st L)))) s
       = held L s.
Proof.
  intros Hb Hd Hh. unfold attach_encoder_pool, sink_frame_received.
  destruct (filt_has_hw_frames_ctx st).
  - assert (balanced (acquire FiltFrameHwFramesCtx (acquire FiltFrameData L))).
    { apply balanced_acquire; [by apply balanced_acquire|by held_rw]. }
    replace (held (acquire FiltFrameHwFramesCtx (acquire FiltFrameData L))
               FiltFrameHwFramesCtx) with true by reflexivity.
    rewrite andb_false_r. simpl. split; [done|]. intros s. by_slot s.
  - assert (Hb1 : balanced (acquire FiltFrameData L)) by by apply balanced_acquire.
    destruct (filt_cuda st && _ && _) eqn:Ec; [|split; [done|intros s; by_slot s]].
    destruct (filt_ref_ok st); [|split; [done|intros s; by_slot s]].
    split; [|intros s; by_slot s].
    apply balanced_acquire; [done|by held_rw].
Qed.

Lemma sink_step_quiet st L :
  balanced L ->
  held L FiltFrameData = false -> held L FiltFrameHwFramesCtx = false ->
  held L EncPkt = false -> held L EncPktData = false ->
  let L' := av_frame_unref_filt_frame
              (encode_write_frame (encode_run st)
                 (attach_encoder_pool st (sink_frame_received st L))).1 in
  balanced L' /\ same_slots L L'.
Proof.
  intros Hb Hd Hh Hp Hpd.
  destruct (sink_frame_received_spec st L Hb Hd Hh) as [Hb1 Hs1].
  set (L1 := attach_encoder_pool st (sink_frame_received st L)) in *.
  assert (Hp1 : held L1 EncPkt = false).
  { specialize (Hs1 EncPkt). revert Hs1. held_rw. cbn. by rewrite Hp. }
  assert (Hpd1 : held L1 EncPktData = false).
  { specialize (Hs1 EncPktData). revert Hs1. held_rw. cbn. by rewrite Hpd. }
  destruct (encode_write_frame_quiet (encode_run st) L1 Hb1 Hp1 Hpd1) as [Hb2 Hs2].
  cbv zeta. unfold av_frame_unref_filt_frame. split.
  - by repeat apply balanced_release.
  - intros s. rewrite <- (Hs1 s). held_rw. by rewrite Hs2.
Qed.

Lemma sink_loop_quiet steps fails : forall L,
  balanced L ->
  held L FiltFrameData = false -> held L FiltFrameHwFramesCtx = false ->
  held L EncPkt = false -> held L EncPktData = false ->
  balanced (sink_loop steps fails L).1 /\ same_slots L (sink_loop steps fails L).1.
Proof.
  induction steps as [|st steps IH]; intros L Hb Hd Hh Hp Hpd.
  - simpl. split; [done|by intros s].
  - cbn [sink_loop].
    destruct (sink_step_quiet st L Hb Hd Hh Hp Hpd) as [Hb1 Hs1].
    destruct (encode_write_frame (encode_run st) _) as [L2 neg]. cbn [fst] in *.
    destruct neg; [by split|].
    destruct (IH (av_frame_unref_filt_frame L2)) as [Hb3 Hs3];
      try done; try (by rewrite Hs1).
    split; [done|]. intros s. by rewrite Hs3, Hs1.
Qed.

Lemma flush_sink_loop_quiet steps : forall L,
  balanced L ->
  held L FiltFrameData = false -> held L FiltFrameHwFramesCtx = false ->
  held L EncPkt = false -> held L EncPktData = false ->
  balanced (flush_sink_loop steps L) /\ same_slots L (flush_sink_loop steps L).
Proof.
  induction steps as [|st steps IH]; intros L Hb Hd Hh Hp Hpd.
  - simpl. split; [done|by intros s].
  - cbn [flush_sink_loop].
    destruct (sink_step_quiet st L Hb Hd Hh Hp Hpd) as [Hb1 Hs1].
    destruct (IH (av_frame_unref_filt_frame
                    (encode_write_frame (encode_run st)
                       (attach_encoder_pool st (sink_frame_received st L))).1))
      as [Hb3 Hs3]; try done; try (by rewrite Hs1).
    split; [done|]. intros s. by rewrite Hs3, Hs1.
Qed.

(** The decode loops *)

Lemma sink_ready_same L L' :
  same_but_frame L L' -> sink_ready L -> sink_ready L'.
Proof.
  intros Hs (H1 & H2 & H3 & H4). unfold sink_ready.
  rewrite !Hs by reflexivity. done.
Qed.

Lemma same_but_frame_refl L : same_but_frame L L.
Proof. by intros s _. Qed.

Lemma same_but_frame_trans L1 L2 L3 :
  same_but_frame L1 L2 -> same_but_frame L2 L3 -> same_but_frame L1 L3.
Proof. intros H1 H2 s Hs. by rewrite H2, H1. Qed.

Lemma unref_frame_spec L :
  balanced L ->
  balanced (av_frame_unref_frame L)
  /\ same_but_frame L (av_frame_unref_frame L)
  /\ held (av_frame_unref_frame L) FrameData = false
  /\ held (av_frame_unref_frame L) FrameHwFramesCtx = false.
Proof.
  intros Hb. unfold av_frame_unref_frame. split; [|split; [|split]].
  - by repeat apply balanced_release.
  - intros s Hs. by_slot s; discriminate Hs.
  - by held_rw.
  - by held_rw.
Qed.

Lemma frame_received_spec st L :
  balanced L ->
  balanced (attach_decoder_pool st (frame_received st L))
  /\ same_but_frame L (attach_decoder_pool st (frame_received st L)).
Proof.
  intros Hb. destruct (unref_frame_spec L Hb) as (Hb0 & Hs0 & Hd0 & Hh0).
  unfold attach_decoder_pool, frame_received.
  set (L0 := av_frame_unref_frame L) in *.
  assert (Hb1 : balanced (acquire FrameData L0)) by by apply balanced_acquire.
  assert (Hb2 : balanced (acquire FrameHwFramesCtx (acquire FrameData L0))).
  { apply balanced_acquire; [done|by held_rw]. }
  assert (Hs1 : same_but_frame L (acquire FrameData L0)).
  { intros s Hs. rewrite <- (Hs0 s Hs). by_slot s; discriminate Hs. }
  assert (Hs2 : same_but_frame L (acquire FrameHwFramesCtx (acquire FrameData L0))).
  { intros s Hs. rewrite <- (Hs0 s Hs). by_slot s; discriminate Hs. }
  destruct (frame_has_hw_frames_ctx st).
  - replace (held (acquire FrameHwFramesCtx (acquire FrameData L0)) FrameHwFramesCtx)
      with true by reflexivity.
    rewrite andb_false_r. by split.
  - destruct (frame_cuda st && _); [|by split].
    destruct (held (acquire FrameData L0) DecoderHwFramesCtx); [|by split].
    destruct (frame_ref_ok st); by split.
Qed.

Lemma receive_loop_quiet steps fails : forall L,
  balanced L -> sink_ready L ->
  let r := receive_loop steps fails L in
  balanced r.1 /\ same_but_frame L r.1
  /\ (r.2 = FallThrough ->
      held r.1 FrameData = false /\ held r.1 FrameHwFramesCtx = false).
Proof.
  induction steps as [|st steps IH]; intros L Hb Hr; cbv zeta.
  - cbn [receive_loop fst snd].
    destruct (unref_frame_spec L Hb) as (Hb0 & Hs0 & Hd0 & Hh0).
    split; [done|]. split; [done|]. by intros _.
  - cbn [receive_loop].
    destruct (frame_received_spec st L Hb) as [Hb1 Hs1].
    set (L1 := attach_decoder_pool st (frame_received st L)) in *.
    destruct (add_frame_ok st); cbn [negb].
    + pose proof (sink_ready_same _ _ Hs1 Hr) as (R1 & R2 & R3 & R4).
      destruct (sink_loop_quiet (sink_steps st) (sink_fails st) L1 Hb1 R1 R2 R3 R4)
        as [Hb2 Hs2].
      destruct (sink_loop _ _ L1) as [L2 [|]]; cbn [fst snd] in *.
      * destruct (unref_frame_spec L2 Hb2) as (Hb3 & Hs3 & _).
        assert (Hs : same_but_frame L (av_frame_unref_frame L2)).
        { intros s Hs. rewrite Hs3, Hs2, Hs1; done. }
        destruct (IH (av_frame_unref_frame L2) Hb3 (sink_ready_same _ _ Hs Hr))
          as (Hb4 & Hs4 & Hf4).
        split; [done|]. split; [|done].
        eapply same_but_frame_trans; eauto.
      * split; [done|]. split; [|done].
        intros s Hs. rewrite Hs2, Hs1; done.
    + destruct (unref_frame_spec L1 Hb1) as (Hb3 & Hs3 & Hd3 & Hh3).
      cbn [fst snd]. split; [done|]. split; [|done].
      eapply same_but_frame_trans; eauto.
Qed.

Lemma read_loop_quiet steps : forall L,
  balanced L -> sink_ready L -> held L PacketData = false ->
  balanced (read_loop steps L)
  /\ (forall s, stream_slot s = false -> held (read_loop steps L) s = held L s)
  /\ held (read_loop steps L) Packet = held L Packet.
Proof.
  induction steps as [|p steps IH]; intros L Hb Hr Hpd.
  - simpl. split; [done|]. by split.
  - cbn [read_loop].
    assert (Hb1 : balanced (acquire PacketData L)) by by apply balanced_acquire.
    assert (Hr1 : sink_ready (acquire PacketData L)).
    { destruct Hr as (R1 & R2 & R3 & R4). unfold sink_ready. by held_rw. }
    assert (Hnext : forall L2,
       balanced L2 -> same_but_frame (acquire PacketData L) L2 ->
       balanced (read_loop steps (release PacketData L2))
       /\ (forall s, stream_slot s = false ->
             held (read_loop steps (release PacketData L2)) s = held L s)
       /\ held (read_loop steps (release PacketData L2)) Packet = held L Packet).
    { intros L2 Hb2 Hs2.
      assert (Hs3 : same_but_frame L (release PacketData L2)).
      { intros s Hs. held_rw. destruct (slot_eqb PacketData s) eqn:E.
        - apply slot_eqb_eq in E as <-. by rewrite Hpd.
        - rewrite (Hs2 s Hs). held_rw. by rewrite E. }
      destruct (IH (release PacketData L2)) as (Hb4 & Hs4 & Hp4).
      - by apply balanced_release.
      - by apply (sink_ready_same L).
      - by held_rw.
      - split; [done|]. split.
        + intros s Hs. rewrite (Hs4 s Hs). apply Hs3. by destruct s.
        + rewrite Hp4. by apply Hs3. }
    destruct (is_video p).
    + destruct (send_packet_ok p); cbn [negb].
      * destruct (receive_loop_quiet (frame_steps p) (receive_fails p)
                    (acquire PacketData L) Hb1 Hr1) as (Hb2 & Hs2 & _).
        destruct (receive_loop _ _ _) as [L2 [|]]; cbn [fst snd] in *.
        -- by apply Hnext.
        -- split; [done|]. split.
           ++ intros s Hs. rewrite Hs2 by (by destruct s). by_slot s; discriminate Hs.
           ++ by rewrite Hs2.
      * split; [done|]. split; [|done].
        intros s Hs. by_slot s; discriminate Hs.
    + apply Hnext; [done|apply same_but_frame_refl].
Qed.

Lemma flush_decoder_quiet o L :
  balanced L -> sink_ready L ->
  balanced (flush_decoder o L) /\ same_but_frame L (flush_decoder o L).
Proof.
  intros Hb Hr. unfold flush_decoder.
  destruct (flush_send_ok o); [|split; [done|apply same_but_frame_refl]].
  destruct (flush_frame o) as [st|].
  - destruct (unref_frame_spec L Hb) as (Hb0 & Hs0 & Hd0 & Hh0).
    unfold frame_received. set (L0 := av_frame_unref_frame L) in *.
    assert (Hb1 : balanced (acquire FrameData L0)) by by apply balanced_acquire.
    assert (Hs1 : same_but_frame L (acquire FrameData L0)).
    { intros s Hs. rewrite <- (Hs0 s Hs). by_slot s; discriminate Hs. }
    set (L1 := if frame_has_hw_frames_ctx st
               then acquire FrameHwFramesCtx (acquire FrameData L0)
               else acquire FrameData L0).
    assert (H1 : balanced L1 /\ same_but_frame L L1
                 /\ (frame_has_hw_frames_ctx st = false ->
                     held L1 FrameHwFramesCtx = false)).
    { unfold L1. destruct (frame_has_hw_frames_ctx st).
      - split; [apply balanced_acquire; [done|by held_rw]|]. split; [|done].
        intros s Hs. rewrite <- (Hs0 s Hs). by_slot s; discriminate Hs.
      - split; [done|]. split; [done|]. intros _. by held_rw. }
    destruct H1 as (Hb2 & Hs2 & Hh2).
    set (L2 := if frame_cuda st && negb (held L1 FrameHwFramesCtx)
                  && held L1 DecoderHwFramesCtx
               then if frame_ref_ok st then acquire FrameHwFramesCtx L1 else L1
               else L1).
    assert (H2 : balanced L2 /\ same_but_frame L L2).
    { unfold L2. destruct (held L1 FrameHwFramesCtx) eqn:E.
      - rewrite andb_false_r. by split.
      - destruct (frame_cuda st && _ && _); [|by split].
        destruct (frame_ref_ok st); [|by split].
        split; [by apply balanced_acquire|].
        intros s Hs. rewrite <- (Hs2 s Hs). by_slot s; discriminate Hs. }
    destruct H2 as (Hb3 & Hs3).
    destruct (add_frame_ok st); cbn [negb].
    + pose proof (sink_ready_same _ _ Hs3 Hr) as (R1 & R2 & R3 & R4).
      destruct (flush_sink_loop_quiet (sink_steps st) L2 Hb3 R1 R2 R3 R4)
        as [Hb4 Hs4].
      destruct (unref_frame_spec _ Hb4) as (Hb5 & Hs5 & _).
      split; [done|]. intros s Hs. rewrite Hs5, Hs4, Hs3; done.
    + destruct (unref_frame_spec _ Hb3) as (Hb5 & Hs5 & _).
      split; [done|]. intros s Hs. rewrite Hs5, Hs3; done.
  - destruct (unref_frame_spec L Hb) as (Hb0 & Hs0 & _). by split.
Qed.

Lemma streaming_quiet o L :
  balanced L -> sink_ready L -> held L PacketData = false ->
  balanced (streaming o L)
  /\ (forall s, stream_slot s = false -> held (streaming o L) s = held L s)
  /\ held (streaming o L) Packet = false
  /\ held (streaming o L) PacketData = false.
Proof.
  intros Hb Hr Hpd. unfold streaming.
  destruct (read_loop_quiet (packets o) L Hb Hr Hpd) as (Hb1 & Hs1 & _).
  set (L1 := read_loop (packets o) L) in *.
  set (L2 := release Packet (release PacketData L1)).
  assert (Hb2 : balanced L2) by by repeat apply balanced_release.
  assert (Hs2 : forall s, stream_slot s = false -> held L2 s = held L s).
  { intros s Hs. rewrite <- (Hs1 s Hs). unfold L2. by_slot s; discriminate Hs. }
  assert (Hr2 : sink_ready L2).
  { destruct Hr as (R1 & R2 & R3 & R4). unfold sink_ready.
    rewrite !Hs2 by reflexivity. done. }
  destruct (flush_decoder_quiet o L2 Hb2 Hr2) as (Hb3 & Hs3).
  set (L3 := flush_decoder o L2) in *.
  pose proof (sink_ready_same _ _ Hs3 Hr2) as (R1 & R2 & R3 & R4).
  destruct (flush_sink_loop_quiet (flush_sink_steps o) L3 Hb3 R1 R2 R3 R4)
    as (Hb4 & Hs4).
  set (L4 := flush_sink_loop (flush_sink_steps o) L3) in *.
  destruct (encode_write_frame_quiet (flush_encode_run o) L4 Hb4) as (Hb5 & Hs5).
  { by rewrite Hs4. }
  { by rewrite Hs4. }
  split; [done|].
  assert (E : forall s, frame_slot s = false ->
                held (encode_write_frame (flush_encode_run o) L4).1 s = held L2 s).
  { intros s Hs. rewrite Hs5, Hs4. by apply Hs3. }
  split; [|split].
  - intros s Hs. rewrite E by (by destruct s). by apply Hs2.
  - rewrite E by done. unfold L2. by held_rw.
  - rewrite E by done. unfold L2. by held_rw.
Qed.

(** The straight-line part *)

Lemma balanced_start : balanced start.
Proof. by repeat split. Qed.

(** Split boolean conjunctions of the context into their atoms. *)
Ltac bool_facts :=
  repeat match goal with
         | H : emptyb _ _ = true |- _ =>
             unfold emptyb in H;
             cbn [forallb local_slots output_slots frame_slots filter_slots pending_slots] in H
         | H : _ && _ = true |- _ => apply andb_true_iff in H as [? ?]
         | H : negb _ = true |- _ => apply negb_true_iff in H
         | H : _ || _ = false |- _ => apply orb_false_iff in H as [? ?]
         | H : true = true |- _ => clear H
         end.

(** Use what is known about single slots in the clauses of the context. *)
Ltac clause_facts :=
  repeat match goal with
         | C : _ = true |- _ =>
             progress (cbn [orb andb negb] in C;
                       rewrite ?orb_false_r, ?andb_true_r in C)
         end;
  bool_facts.

Ltac held_solve :=
  held_rw; cbn [slot_eqb slot_index Nat.eqb held start]; use_held;
  try reflexivity.

Ltac bal :=
  repeat first
    [ assumption | apply balanced_start | apply balanced_release
    | apply balanced_deref | apply balanced_acquire ];
  held_solve.

(** A tidy balanced ledger is settled by the cleanup. *)
Lemma cleanup_settles o L : good o L -> settled (cleanup o L).
Proof.
  intros [Hb Ht]. unfold tidyb in Ht. bool_facts.
  unfold cleanup, av_frame_unref_frame, av_frame_unref_filt_frame.
  cbv beta iota zeta.
  destruct (held L Frame) eqn:EF;
  held_rw; cbn [slot_eqb slot_index Nat.eqb];
  destruct (held L FiltFrame) eqn:EFF;
  held_rw; cbn [slot_eqb slot_index Nat.eqb];
  destruct (held L DecoderCtx) eqn:ED;
  held_rw; cbn [slot_eqb slot_index Nat.eqb];
  destruct (held L EncoderCtx) eqn:EE;
  held_rw; cbn [slot_eqb slot_index Nat.eqb];
  destruct (held L OutputFormatCtx) eqn:EO;
  destruct (output_nofile o) eqn:EN; cbn [negb];
  clause_facts;
  (apply settled_of_balanced; [bal | intros s; destruct s; held_solve]).
Qed.

(** Normalise [held] through the primitives and the context. *)
Ltac held_norm :=
  repeat first
    [ progress held_rw
    | progress use_held
    | progress cbn [slot_eqb slot_index Nat.eqb held start negb andb orb] ].

Ltac balance :=
  repeat first
    [ assumption | apply balanced_start | apply balanced_release
    | apply balanced_deref | apply balanced_acquire ];
  held_norm; try reflexivity.

Ltac empty_goal :=
  unfold emptyb;
  cbn [forallb local_slots output_slots frame_slots filter_slots pending_slots];
  held_norm; try reflexivity.

Ltac tidy_goal :=
  unfold tidyb; empty_goal;
  repeat match goal with
         | H : output_nofile _ = _ |- _ => rewrite H
         end;
  cbn [negb andb orb];
  rewrite ?orb_true_r, ?orb_false_r, ?andb_true_r;
  repeat match goal with
         | H : _ || _ = true |- _ => rewrite H
         end;
  cbn [negb andb orb]; try reflexivity.

Ltac leaf := split; [balance | tidy_goal].

(** [init_filters] leaves everything as it found it, but for the graph,
    and succeeds only on a context with a frame pool. *)
Lemma init_filters_spec fs L :
  balanced L -> emptyb filter_slots L = true ->
  balanced (init_filters fs L).1
  /\ (forall s, slot_eqb FilterGraph s = false ->
        held (init_filters fs L).1 s = held L s)
  /\ ((init_filters fs L).2 = true -> held L TempHwFramesCtx = true).
Proof.
  intros Hb He. bool_facts. unfold init_filters, init_filters_end.
  assert (Hleaf : forall L' : Ledger,
            balanced L' ->
            (forall s, slot_eqb FilterGraph s = false -> held L' s = held L s) ->
            balanced (L', false).1
            /\ (forall s, slot_eqb FilterGraph s = false ->
                  held (L', false).1 s = held L s)
            /\ ((L', false).2 = true -> held L TempHwFramesCtx = true)).
  { intros L' Hb' Hs'. cbn [fst snd]. split; [exact Hb'|].
    split; [exact Hs'|]. intros Hok; discriminate Hok. }
  destruct (outputs_alloc_ok fs), (inputs_alloc_ok fs), (graph_alloc_ok fs);
    cbn [negb andb]; cbv beta iota zeta;
    try (apply Hleaf; [balance | intros s Hs; by_slot s; discriminate Hs]).
  destruct (create_src_ok fs); cbn [negb];
    [|apply Hleaf; [balance | intros s Hs; by_slot s; discriminate Hs]].
  destruct (src_par_alloc_ok fs); cbn [negb];
    [|apply Hleaf; [balance | intros s Hs; by_slot s; discriminate Hs]].
  held_rw. cbn [slot_eqb slot_index Nat.eqb].
  destruct (held L TempHwFramesCtx) eqn:Et; cbn [negb];
    [|apply Hleaf; [balance | intros s Hs; by_slot s; discriminate Hs]].
  destruct (src_par_ref_ok fs); cbn [negb];
    [|apply Hleaf; [balance | intros s Hs; by_slot s; discriminate Hs]].
  destruct (parameters_set_ok fs); cbn [negb];
    [|apply Hleaf; [balance | intros s Hs; by_slot s; discriminate Hs]].
  destruct (create_sink_ok fs); cbn [negb];
    [|apply Hleaf; [balance | intros s Hs; by_slot s; discriminate Hs]].
  destruct (set_pix_fmts_ok fs); cbn [negb];
    [|apply Hleaf; [balance | intros s Hs; by_slot s; discriminate Hs]].
  destruct (parse_ok fs); cbn [negb];
    [|apply Hleaf; [balance | intros s Hs; by_slot s; discriminate Hs]].
  destruct (config_ok fs); cbn [negb];
    [|apply Hleaf; [balance | intros s Hs; by_slot s; discriminate Hs]].
  cbn [fst snd]. split; [balance|]. split; [|done].
  intros s Hs; by_slot s; discriminate Hs.
Qed.

(** The loops keep a tidy ledger tidy. *)
Lemma transcode_loop_spec o L :
  balanced L -> tidyb o L = true -> emptyb frame_slots L = true ->
  good o (transcode_loop o L).
Proof.
  intros Hb Ht He. unfold tidyb in Ht. bool_facts. unfold transcode_loop.
  destruct (frame_alloc_ok o), (filt_frame_alloc_ok o);
    cbn [negb andb]; cbv beta iota zeta; try (by leaf).
  destruct (packet_alloc_ok o); cbn [negb]; [|by leaf].
  set (L1 := acquire Packet (acquire FiltFrame (acquire Frame L))).
  destruct (streaming_quiet o L1) as (Hb' & Hs & Hp & Hpd).
  - unfold L1. balance.
  - unfold sink_ready, L1. held_norm. done.
  - unfold L1. by held_norm.
  - split; [done|]. unfold tidyb, emptyb. cbn [forallb local_slots].
    rewrite Hp, Hpd.
    repeat match goal with
           | |- context [held (streaming o L1) ?s] => rewrite (Hs s eq_refl)
           end.
    unfold L1. tidy_goal.
Qed.

(** The condition the evaluation of [t] waits for. *)
Ltac head_cond t :=
  lazymatch t with
  | match ?x with _ => _ end => head_cond x
  | negb ?b => head_cond b
  | ?a && _ => head_cond a
  | ?a || _ => head_cond a
  | held ?L _ =>
      lazymatch L with
      | context [match ?x with _ => _ end] => head_cond x
      | _ => t
      end
  | _ => t
  end.

Ltac flow_norm :=
  cbv beta iota zeta; held_rw;
  cbn [slot_eqb slot_index Nat.eqb held start negb andb orb].

(** One step along the code: decide the condition at the head. *)
Ltac step :=
  flow_norm;
  lazymatch goal with
  | |- good _ (match ?x with _ => _ end) =>
      let c := head_cond x in
      lazymatch c with
      | init_filters _ _ => fail
      | _ => destruct c eqn:?
      end
  | |- good _ ?t =>
      lazymatch t with
      | context [match ?x with _ => _ end] =>
          let c := head_cond x in destruct c eqn:?
      end
  end;
  flow_norm; try (by leaf).

Ltac slot_facts H :=
  pose proof (H InputFormatCtx eq_refl); pose proof (H DecoderCtx eq_refl);
  pose proof (H HwDeviceCtxRef eq_refl);
  pose proof (H DecoderHwDeviceCtx eq_refl);
  pose proof (H DecoderHwFramesCtx eq_refl); pose proof (H FramesRef eq_refl);
  pose proof (H DecoderHwFramesCtxRef eq_refl);
  pose proof (H OutputFormatCtx eq_refl); pose proof (H OutputPb eq_refl);
  pose proof (H EncoderCtx eq_refl); pose proof (H EncoderHwFramesCtx eq_refl);
  pose proof (H TempDecCtx eq_refl); pose proof (H TempHwFramesCtx eq_refl);
  pose proof (H FilterInputs eq_refl); pose proof (H FilterOutputs eq_refl);
  pose proof (H SrcPar eq_refl); pose proof (H SrcParHwFramesCtx eq_refl);
  pose proof (H Frame eq_refl); pose proof (H FrameData eq_refl);
  pose proof (H FrameHwFramesCtx eq_refl); pose proof (H FiltFrame eq_refl);
  pose proof (H FiltFrameData eq_refl);
  pose proof (H FiltFrameHwFramesCtx eq_refl); pose proof (H Packet eq_refl);
  pose proof (H PacketData eq_refl); pose proof (H EncPkt eq_refl);
  pose proof (H EncPktData eq_refl).

Lemma filters_and_encoder_spec o L :
  balanced L ->
  held L DecoderCtx = true -> held L EncoderCtx = true ->
  held L OutputFormatCtx = true ->
  (held L TempHwFramesCtx = true -> held L HwDeviceCtxRef = true) ->
  emptyb pending_slots L = true ->
  good o (filters_and_encoder o L).
Proof.
  intros Hb Hd He Ho Hdev Hem. bool_facts.
  unfold filters_and_encoder, free_temp_dec_ctx.
  destruct (init_filters_spec (filter_setup o) L Hb) as (Hb2 & Hs2 & Hok);
    [empty_goal|].
  destruct (init_filters (filter_setup o) L) as [L3 ok]. cbn [fst snd] in *.
  slot_facts Hs2. clear Hs2.
  destruct ok; cbn [negb]; [|by leaf].
  specialize (Hdev (Hok eq_refl)). clear Hok.
  repeat step.
  all: apply transcode_loop_spec; [balance | tidy_goal | empty_goal].
Qed.

Lemma open_output_spec o L :
  balanced L -> held L DecoderCtx = true ->
  (is_hw_decoder o = true -> held L HwDeviceCtxRef = true) ->
  emptyb output_slots L = true ->
  good o (open_output o L).
Proof.
  intros Hb Hd Hdev Hem. bool_facts. unfold open_output, free_temp_dec_ctx.
  repeat step.
  all: apply filters_and_encoder_spec;
    [ balance | by held_norm | by held_norm | by held_norm
    | held_norm; first [ by auto | by intros ]
    | empty_goal ].
Qed.

Lemma try_block_spec o : good o (try_block o start).
Proof.
  unfold try_block, decoder_frame_pool.
  repeat step.
  all: apply open_output_spec;
    [ balance | by held_norm
    | held_norm; first [ done | by intros | intros; congruence ]
    | empty_goal ].
Qed.

(** Every run ends with every slot empty. *)
Lemma main_settled o : settled (main o).
Proof. apply cleanup_settles, try_block_spec. Qed.

Lemma total_ext f g keep :
  (forall s, f s = g s) -> total f keep = total g keep.
Proof.
  intros H. unfold total. f_equal. apply map_ext. intros s. apply H.
Qed.

Lemma balancedb_sound L : balancedb L = true -> balanced L.
Proof.
  unfold balancedb. intros H.
  apply andb_true_iff in H as [H Hf]. apply andb_true_iff in H as [H Hl].
  apply Nat.eqb_eq in Hl. apply negb_true_iff in Hf.
  split; [|by split].
  intros s. cbn [forallb all_slots] in H.
  repeat (apply andb_true_iff in H as [?%Nat.eqb_eq H]).
  by destruct s.
Qed.

(** How often a slot was filled *)

Lemma acquired_acquire s s' L :
  acquired (acquire s L) s'
  = if slot_eqb s s' then S (acquired L s) else acquired L s'.
Proof. reflexivity. Qed.

Lemma acquired_release s s' L : acquired (release s L) s' = acquired L s'.
Proof. unfold release. by destruct (held L s). Qed.

Lemma acquired_deref s s' L : acquired (deref s L) s' = acquired L s'.
Proof. unfold deref. by destruct (held L s). Qed.

Ltac acq_rw :=
  repeat first
    [ rewrite acquired_acquire | rewrite acquired_release
    | rewrite acquired_deref ];
  cbn [slot_eqb slot_index Nat.eqb].

Ltac head_of t :=
  lazymatch t with
  | fst ?u => head_of u
  | snd ?u => head_of u
  | match ?x with _ => _ end => head_cond x
  end.

(** One step along the code, for a count or a returned flag. *)
Ltac walk :=
  flow_norm; cbn [fst snd]; acq_rw;
  lazymatch goal with
  | |- acquired ?t _ = _ => let c := head_of t in destruct c eqn:?
  | |- snd ?t = _ => let c := head_of t in destruct c eqn:?
  end;
  flow_norm.

Lemma init_filters_acquired fs L s :
  existsb (slot_eqb s) filter_slots = false ->
  acquired (init_filters fs L).1 s = acquired L s.
Proof.
  intros Hs. unfold init_filters, init_filters_end.
  destruct s; try discriminate Hs; clear Hs;
    repeat walk; cbn [fst]; acq_rw; reflexivity.
Qed.

(** Without a frame pool in the context, [init_filters] fails. *)
Lemma init_filters_needs_pool fs L :
  held L TempHwFramesCtx = false -> (init_filters fs L).2 = false.
Proof.
  intros Ht. unfold init_filters, init_filters_end.
  repeat walk; try reflexivity; congruence.
Qed.

Lemma filters_and_encoder_stops o L s :
  held L TempHwFramesCtx = false ->
  existsb (slot_eqb s) filter_slots = false ->
  acquired (filters_and_encoder o L) s = acquired L s.
Proof.
  intros Ht Hs. unfold filters_and_encoder, free_temp_dec_ctx.
  pose proof (init_filters_needs_pool (filter_setup o) L Ht) as Hok.
  pose proof (init_filters_acquired (filter_setup o) L s Hs) as Ha.
  destruct (init_filters (filter_setup o) L) as [L3 ok]. cbn [fst snd] in *.
  subst ok. cbn [negb]. by rewrite !acquired_release.
Qed.

Lemma acquired_cleanup o L s : acquired (cleanup o L) s = acquired L s.
Proof.
  unfold cleanup, av_frame_unref_frame, av_frame_unref_filt_frame.
  cbv beta iota zeta.
  repeat match goal with
         | |- context [if ?c then _ else _] => destruct c
         end;
  by rewrite ?acquired_release.
Qed.

Lemma open_output_stops o L s :
  is_hw_decoder o = false -> held L TempHwFramesCtx = false ->
  after_filters s = true ->
  acquired (open_output o L) s = acquired L s.
Proof.
  intros Hsw Ht Hs. unfold open_output, free_temp_dec_ctx. rewrite Hsw.
  cbn [andb]. repeat walk.
  all: try (rewrite filters_and_encoder_stops;
            [| by held_rw | by destruct s]).
  all: destruct s; try discriminate Hs; acq_rw; reflexivity.
Qed.

Lemma try_block_sw o s :
  is_hw_decoder o = false -> after_filters s = true ->
  acquired (try_block o start) s = 0%nat.
Proof.
  intros Hsw Hs. unfold try_block, decoder_frame_pool. rewrite Hsw.
  cbn [andb]. repeat walk.
  all: repeat match goal with
              | |- context [if ?c then _ else _] => destruct c
              end.
  all: try (rewrite open_output_stops; [| done | by held_rw | done]).
  all: destruct s; try discriminate Hs; acq_rw; reflexivity.
Qed.

(** C5: on every path through [main], whatever the library calls answer
    (all succeed, one fails in the middle of a loop, an exception is
    thrown), the cleanup leaves no slot owning a resource, every slot has
    released exactly as often as it acquired, no resource was lost by
    overwriting the pointer that owned it and no null handle was
    dereferenced; the references to hardware contexts acquired and released
    are the same number. *)
Theorem C5_every_resource_released_once (o : Run) :
  (forall s, held (main o) s = false)
  /\ (forall s, acquired (main o) s = released (main o) s)
  /\ lost (main o) = 0%nat
  /\ faulted (main o) = false
  /\ total (acquired (main o)) is_hw_context_ref
     = total (released (main o)) is_hw_context_ref.
Proof.
  destruct (main_settled o) as (Hheld & Hcount & Hlost & Hfault).
  split; [exact Hheld|]. split; [exact Hcount|].
  split; [exact Hlost|]. split; [exact Hfault|].
  apply total_ext. exact Hcount.
Qed.

(** X1.  Whatever the library calls answer, [main] ends with every slot
    empty, each slot released as often as it was filled, nothing
    overwritten while it owned a resource and no null handle dereferenced;
    in particular the hardware-context references taken and dropped
    balance. *)
Theorem X1_pipeline_releases_everything (o : Run) :
  settled (main o)
  /\ total (acquired (main o)) is_hw_context_ref
     = total (released (main o)) is_hw_context_ref.
Proof.
  pose proof (main_settled o) as H. split; [exact H|].
  apply total_ext. apply H.
Qed.

(** X2.  [init_filters], called with its own slots empty, leaves every
    slot but the filter graph as it found it on each of its paths (the two
    lists and the source parameters are freed at [end]), and returns 0
    only when the context it is given has a frame pool. *)
Theorem X2_init_filters_frees_what_it_takes fs L :
  balanced L -> emptyb filter_slots L = true ->
  balanced (init_filters fs L).1
  /\ (forall s, slot_eqb FilterGraph s = false ->
        held (init_filters fs L).1 s = held L s)
  /\ ((init_filters fs L).2 = true -> held L TempHwFramesCtx = true).
Proof. apply init_filters_spec. Qed.

Lemma X2_init_filters_witness :
  let L := acquire TempHwFramesCtx (acquire TempDecCtx start) in
  balanced (init_filters Examples.filters_fine L).1
  /\ (forall s, slot_eqb FilterGraph s = false ->
        held (init_filters Examples.filters_fine L).1 s = held L s)
  /\ ((init_filters Examples.filters_fine L).2 = true -> held L TempHwFramesCtx = true).
Proof.
  apply (X2_init_filters_frees_what_it_takes Examples.filters_fine
           (acquire TempHwFramesCtx (acquire TempDecCtx start))).
  - apply balancedb_sound. reflexivity.
  - reflexivity.
Defined.

(** X3.  [encode_write_frame] frees the packet it allocates on each of its
    paths: called with that packet's slots empty, it leaves every slot as
    it found it. *)
Theorem X3_encode_write_frame_frees_its_packet o L :
  balanced L -> held L EncPkt = false -> held L EncPktData = false ->
  balanced (encode_write_frame o L).1
  /\ same_slots L (encode_write_frame o L).1.
Proof. apply encode_write_frame_quiet. Qed.

Lemma X3_encode_write_frame_witness :
  balanced (encode_write_frame Examples.encode_once start).1
  /\ same_slots start (encode_write_frame Examples.encode_once start).1.
Proof.
  apply (X3_encode_write_frame_frees_its_packet Examples.encode_once start).
  - apply balancedb_sound. reflexivity.
  - reflexivity.
  - reflexivity.
Defined.

(** X4.  The main loop and the three flush stages, entered with the
    filtered frame and the packets blank, free the input packet and leave
    every slot as they found it, but for the contents of the decoded
    frame. *)
Theorem X4_streaming_keeps_the_ledger o L :
  balanced L -> sink_ready L -> held L PacketData = false ->
  balanced (streaming o L)
  /\ (forall s, stream_slot s = false -> held (streaming o L) s = held L s)
  /\ held (streaming o L) Packet = false
  /\ held (streaming o L) PacketData = false.
Proof. apply streaming_quiet. Qed.

Lemma X4_streaming_witness :
  let L := acquire Packet (acquire FiltFrame (acquire Frame start)) in
  balanced (streaming Examples.hw_run L)
  /\ (forall s, stream_slot s = false ->
        held (streaming Examples.hw_run L) s = held L s)
  /\ held (streaming Examples.hw_run L) Packet = false
  /\ held (streaming Examples.hw_run L) PacketData = false.
Proof.
  apply (X4_streaming_keeps_the_ledger Examples.hw_run
           (acquire Packet (acquire FiltFrame (acquire Frame start)))).
  - apply balancedb_sound. reflexivity.
  - repeat split; reflexivity.
  - reflexivity.
Defined.

(** X5.  With a software decoder the pipeline never gets past
    [init_filters]: no encoder frame pool, output file, frame or packet is
    ever allocated. *)
Theorem X5_software_decoder_never_transcodes o s :
  is_hw_decoder o = false -> after_filters s = true ->
  acquired (main o) s = 0%nat.
Proof.
  intros Hsw Hs. unfold main. rewrite acquired_cleanup.
  by apply try_block_sw.
Qed.

Lemma X5_software_decoder_witness : acquired (main Examples.sw_run) Frame = 0%nat.
Proof.
  apply (X5_software_decoder_never_transcodes Examples.sw_run Frame); reflexivity.
Defined.

(** The same run on a hardware decoder does transcode. *)
Lemma hw_run_transcodes :
  acquired (main Examples.hw_run) FrameData = 1%nat
  /\ acquired (main Examples.hw_run) EncPktData = 2%nat
  /\ settledb (main Examples.hw_run) = true.
Proof. vm_compute. repeat split. Qed.

End PipelineFacts.

(** ** The pixel-format callback *)

Section HwFormatFacts.
Import HwFormat.

(** X21.  The callback picks [AV_PIX_FMT_CUDA] exactly when the decoder
    offers it, and [AV_PIX_FMT_NONE] otherwise: it never settles for one
    of the other formats offered. *)
Theorem X21_get_hw_format_cuda_or_none (pix_fmts : list AVPixelFormat) :
  (get_hw_format pix_fmts = AV_PIX_FMT_CUDA
   <-> AV_PIX_FMT_CUDA ∈ offered pix_fmts)
  /\ (get_hw_format pix_fmts = AV_PIX_FMT_NONE
      <-> AV_PIX_FMT_CUDA ∉ offered pix_fmts).
Proof.
  assert (Hnil : AV_PIX_FMT_CUDA ∉ @nil AVPixelFormat).
  { intros H. by apply elem_of_nil in H. }
  assert (Hhere : forall l, AV_PIX_FMT_CUDA ∈ AV_PIX_FMT_CUDA :: l).
  { intros l. apply list_elem_of_here. }
  induction pix_fmts as [|p rest [IH1 IH2]].
  { simpl. split; split; intros H; first [ done | discriminate H | contradiction ]. }
  destruct p as [| |id]; simpl.
  - split; split; intros H; first [ done | discriminate H | contradiction ].
  - split; split; intros H;
      first [ done | discriminate H | apply Hhere | destruct H; apply Hhere ].
  - rewrite IH1, IH2. split; split; intros H.
    + by apply list_elem_of_further.
    + apply elem_of_cons in H as [H|H]; [discriminate H|exact H].
    + intros H'. apply H.
      apply elem_of_cons in H' as [H'|H']; [discriminate H'|exact H'].
    + intros H'. apply H. by apply list_elem_of_further.
Qed.

End HwFormatFacts.


(** ** The command line of the pipeline *)

Section ArgsFacts.
Import CInt Cxx Args.

Lemma stoi_range s v : stoi s = Ok v -> INT_MIN <= v <= INT_MAX.
Proof.
  unfold stoi. destruct (skip_spaces s) as [|c rest] eqn:E.
  - simpl. discriminate.
  - set (cut := match String c rest with
                | String "-" rest0 => (true, rest0)
                | String "+" rest0 => (false, rest0)
                | _ => (false, String c rest)
                end).
    destruct cut as [negative s'].
    destruct (read_digits s' None) as [d|]; [|discriminate].
    destruct ((INT_MIN <=? (if negative then - d else d))
              && ((if negative then - d else d) <=? INT_MAX)) eqn:Er;
      [|discriminate].
    intros [= <-]. apply andb_true_iff in Er as [H1 H2]. lia.
Qed.

Lemma parse_crop_checked argv c :
  parse_crop argv = Ok c ->
  stoi (arg argv 3) = Ok (crop_w c) /\ stoi (arg argv 4) = Ok (crop_h c)
  /\ stoi (arg argv 5) = Ok (crop_x c) /\ stoi (arg argv 6) = Ok (crop_y c)
  /\ 0 < crop_w c /\ 0 < crop_h c /\ 0 <= crop_x c /\ 0 <= crop_y c.
Proof.
  unfold parse_crop, bindR.
  destruct (stoi (arg argv 3)) as [cw|]; [|discriminate].
  destruct (stoi (arg argv 4)) as [ch|]; [|discriminate].
  destruct (stoi (arg argv 5)) as [cx|]; [|discriminate].
  destruct (stoi (arg argv 6)) as [cy|]; [|discriminate].
  destruct ((cw <=? 0) || (ch <=? 0)) eqn:E1; [discriminate|].
  destruct ((cx <? 0) || (cy <? 0)) eqn:E2; [discriminate|].
  intros [= <-]. simpl.
  apply orb_false_iff in E1 as [? ?]. apply orb_false_iff in E2 as [? ?].
  repeat split; try reflexivity; lia.
Qed.

(** X6.  When [main] gets past its command line, the crop window has a
    positive width and height and non-negative offsets, all of them
    [int]s; with fewer than six arguments after the program name the
    window is the default one, whatever crop values were given, and with
    six or more it is what [std::stoi] reads from the third to the sixth. *)
Theorem X6_command_line_crop_window argv input output c :
  parse_args argv = Proceeds input output c ->
  (0 < crop_w c <= INT_MAX /\ 0 < crop_h c <= INT_MAX
   /\ 0 <= crop_x c <= INT_MAX /\ 0 <= crop_y c <= INT_MAX)
  /\ input = arg argv 1 /\ output = arg argv 2
  /\ ((length argv < 7)%nat -> c = default_crop)
  /\ ((7 <= length argv)%nat ->
      stoi (arg argv 3) = Ok (crop_w c) /\ stoi (arg argv 4) = Ok (crop_h c)
      /\ stoi (arg argv 5) = Ok (crop_x c)
      /\ stoi (arg argv 6) = Ok (crop_y c)).
Proof.
  unfold parse_args.
  destruct (Z.ltb_spec (Z.of_nat (length argv)) 3) as [|H3]; [discriminate|].
  destruct (Z.geb_spec (Z.of_nat (length argv)) 7) as [H7|H7].
  - destruct (parse_crop argv) as [crop|] eqn:Ec; [|discriminate].
    intros [= <- <- <-].
    destruct (parse_crop_checked _ _ Ec) as (Sw & Sh & Sx & Sy & Hw & Hh & Hx & Hy).
    pose proof (stoi_range _ _ Sw). pose proof (stoi_range _ _ Sh).
    pose proof (stoi_range _ _ Sx). pose proof (stoi_range _ _ Sy).
    repeat split; try reflexivity; try lia; try assumption.
  - intros [= <- <- <-].
    unfold default_crop, INT_MAX. simpl.
    repeat split; try reflexivity; try lia.
Qed.

Lemma X6_command_line_witness :
  let argv := ["crop"; "in.mp4"; "out.mp4"; "320"; " 200px"; "+0"; "16"] in
  parse_args argv = Proceeds "in.mp4" "out.mp4" (mkCropArgs 320 200 0 16)
  /\ 0 < 320 <= INT_MAX.
Proof.
  split; [reflexivity|].
  exact (proj1 (proj1 (X6_command_line_crop_window
           ["crop"; "in.mp4"; "out.mp4"; "320"; " 200px"; "+0"; "16"]
           "in.mp4" "out.mp4" (mkCropArgs 320 200 0 16) eq_refl))).
Defined.

End ArgsFacts.


(** ** The flushed frame *)

Section FlushFacts.
Import CInt Pts.

Lemma last_cons {A : Type} (l : list A) : forall x d,
  List.last (x :: l) d = List.last l x.
Proof.
  induction l as [|y l IH]; intros x d; [reflexivity|].
  change (List.last (x :: y :: l) d) with (List.last (y :: l) d).
  by rewrite !IH.
Qed.

Lemma pts_loop_last (B : Z) frames : forall last k,
  0 <= k ->
  INT64_MIN <= last <= B + k ->
  (forall f, f ∈ frames -> INT64_MIN < arrival_ts f <= B) ->
  B + k + Z.of_nat (length frames) <= INT64_MAX ->
  (pts_loop decode_pts last frames).2
  = List.last (map pts (pts_loop decode_pts last frames).1) last
  /\ (frames <> [] ->
      INT64_MIN < (pts_loop decode_pts last frames).2
                <= B + k + Z.of_nat (length frames)).
Proof.
  induction frames as [|f frames IH]; intros last k Hk Hlast Hall Hfit.
  - simpl. split; [reflexivity|]. intros H; by destruct H.
  - simpl length in Hfit.
    assert (Hf : INT64_MIN < arrival_ts f <= B) by (apply Hall; left).
    pose proof (decode_pts_present last f) as Hstep.
    cbn [pts_loop].
    destruct (decode_pts last f) as [f' last'] eqn:Ed.
    destruct Hstep as [Hpts Hlast'].
    { unfold AV_NOPTS_VALUE. lia. }
    { right. lia. }
    { lia. }
    { lia. }
    subst last'.
    assert (Hbound : last < pts f' /\ pts f' <= B + (k + 1)).
    { rewrite Hpts. unfold rewritten. destruct (last <? arrival_ts f) eqn:E; lia. }
    specialize (IH (pts f') (k + 1)).
    destruct (pts_loop decode_pts (pts f') frames) as [out last''] eqn:El.
    cbn [fst snd] in *. destruct IH as [IH1 IH2]; try lia.
    { intros g Hg. apply Hall. by right. }
    split.
    + rewrite IH1. cbn [map]. by rewrite last_cons.
    + intros _. destruct frames as [|g frames].
      * simpl in El. injection El as <- <-. simpl. lia.
      * assert (Hne : g :: frames <> []) by discriminate.
        specialize (IH2 Hne). simpl length in *. lia.
Qed.

Lemma chain_snoc l : forall prev a,
  chain prev l -> List.last l prev < a -> chain prev (l ++ [a]).
Proof.
  induction l as [|b l IH]; intros prev a Hc Hl.
  - simpl in *. split; [assumption|exact I].
  - rewrite last_cons in Hl. cbn [chain app] in *.
    destruct Hc as [Hb Hc]. split; [assumption|].
    by apply IH.
Qed.

(** X7.  After a main loop in which every frame arrived with a timestamp,
    the frame the decoder flush hands on gets the last timestamp plus one
    when it has no [pts], which keeps the sequence strictly increasing, and
    keeps its own [pts] when it has one, whatever the last timestamp
    was. *)
Theorem X7_flushed_frame_timestamp (B : Z) (frames : list AVFrame) (f : AVFrame) :
  frames <> [] ->
  (forall g, g ∈ frames -> INT64_MIN < arrival_ts g <= B) ->
  B + Z.of_nat (length frames) < INT64_MAX ->
  let main_outs := map pts (decode_stage frames None) in
  let outs := map pts (decode_stage frames (Some f)) in
  exists p,
    List.last main_outs AV_NOPTS_VALUE = p /\ INT64_MIN < p
    /\ (pts f = AV_NOPTS_VALUE ->
        outs = main_outs ++ [p + 1] /\ strictly_increasing outs)
    /\ (pts f <> AV_NOPTS_VALUE -> outs = main_outs ++ [pts f]).
Proof.
  intros Hne Hall Hfit main_outs outs. unfold main_outs, outs, decode_stage.
  destruct (pts_loop_last B frames AV_NOPTS_VALUE 0) as [Hlast Hrange];
    auto; try (unfold AV_NOPTS_VALUE; lia).
  { assert (INT64_MIN < B); [|unfold AV_NOPTS_VALUE; lia].
    destruct frames as [|g ?]; [done|].
    specialize (Hall g (list_elem_of_here _ _)). lia. }
  destruct (decode_loop_follows B frames AV_NOPTS_VALUE 0) as [_ Hchain];
    auto; try (unfold AV_NOPTS_VALUE; lia).
  { assert (INT64_MIN < B); [|unfold AV_NOPTS_VALUE; lia].
    destruct frames as [|g ?]; [done|].
    specialize (Hall g (list_elem_of_here _ _)). lia. }
  specialize (Hrange Hne).
  destruct (pts_loop decode_pts AV_NOPTS_VALUE frames) as [out1 last] eqn:El.
  cbn [fst snd] in *.
  exists last. split; [by rewrite Hlast|]. split; [lia|].
  rewrite map_app. cbn [map]. unfold flush_pts. split.
  - intros Hn. rewrite Hn, Z.eqb_refl.
    destruct (Z.eqb_spec last AV_NOPTS_VALUE) as [E|_].
    { unfold AV_NOPTS_VALUE in E. lia. }
    cbn [andb negb fst pts].
    rewrite wrap64_id by (unfold in_int64; lia).
    split; [reflexivity|].
    apply (chain_increasing AV_NOPTS_VALUE).
    apply chain_snoc; [assumption|]. rewrite <- Hlast. lia.
  - intros Hn. destruct (Z.eqb_spec (pts f) AV_NOPTS_VALUE) as [E|_]; [done|].
    reflexivity.
Qed.

Lemma X7_flushed_frame_witness :
  map pts (decode_stage [mkFrame 10 10; mkFrame 10 10]
             (Some (mkFrame AV_NOPTS_VALUE 3))) = [10; 11; 12]
  /\ map pts (decode_stage [mkFrame 10 10; mkFrame 10 10] (Some (mkFrame 4 4)))
     = [10; 11; 4].
Proof.
  destruct (X7_flushed_frame_timestamp 100 [mkFrame 10 10; mkFrame 10 10]
              (mkFrame AV_NOPTS_VALUE 3)) as (p & Hp & _ & _ & _).
  - discriminate.
  - intros g Hg.
    repeat (apply elem_of_cons in Hg as [->|Hg];
            [vm_compute; split; [reflexivity|discriminate]|]).
    by apply elem_of_nil in Hg.
  - vm_compute. reflexivity.
  - split; reflexivity.
Defined.

End FlushFacts.


(** ** The goodness test, exactly *)

Section SliverFacts.
Import CInt Crop.

Lemma sliver_constant :
  Double.literal 5 100 = S754_finite false 7205759403792794 (-57).
Proof. vm_compute. reflexivity. Qed.

Lemma above_sliver_pos v o :
  0 < v < 2 ^ 31 -> 0 < o < 2 ^ 31 ->
  above_sliver v o = (o <? 20 * v).
Proof.
  intros Hv Ho.
  unfold above_sliver, Double.ltb, Double.mul, Double.prec, Double.emax.
  rewrite sliver_constant.
  destruct (of_int_pos v) as (dv & mv & Hdv & Hdv' & Emv & Cmv & Ev); [lia|].
  destruct (of_int_pos o) as (do & mo & Hdo & Hdo' & Emo & Cmo & Eo); [lia|].
  rewrite Ev, Eo.
  assert (Hdo31 : do <= 31).
  { destruct (Z_le_gt_dec do 31) as [|Hgt]; [assumption|exfalso].
    assert (2 ^ 31 <= 2 ^ (do - 1)) by (apply Z.pow_le_mono_r; lia). lia. }
  destruct (mul_canonical 7205759403792794 (-57) mo (do - 53))
    as (m' & e' & s & Hs & Emul & Cm' & He' & (c & Hc) & Hdiff); try lia.
  rewrite Emul.
  rewrite (SFltb_canonical m' e' mv (dv - 53) (-57 + (do - 53))) by lia.
  rewrite Hc. rewrite Hc in Hdiff.
  set (A := 2 ^ (53 - do)) in *.
  assert (HA : 2 ^ 22 <= A).
  { unfold A. apply Z.pow_le_mono_r; lia. }
  assert (EV : Z.pos mv * 2 ^ (dv - 53 - (-57 + (do - 53))) = (v * A) * 2 ^ 57).
  { rewrite Emv. unfold A. rewrite <- !Z.mul_assoc. f_equal.
    rewrite <- !Z.pow_add_r by lia. f_equal. lia. }
  rewrite EV. rewrite Emo in Hdiff.
  set (va := v * A) in *.
  assert (Hmo : 2 ^ 52 <= o * A < 2 ^ 53) by lia.
  set (moa := o * A) in *.
  assert (Hcases : (o < 20 * v /\ moa + A <= 20 * va)
                   \/ (20 * v <= o /\ 20 * va <= moa)).
  { unfold va, moa. destruct (Z_lt_le_dec o (20 * v)) as [L|G].
    - left. split; [assumption|nia].
    - right. split; [assumption|nia]. }
  clearbody va moa. clear EV Emul Hc.
  change (2 ^ 22) with 4194304 in HA.
  change (2 ^ 52) with 4503599627370496 in *.
  change (2 ^ 53) with 9007199254740992 in *.
  change (2 ^ 57) with 144115188075855872 in *.
  destruct Hs as [[-> _] | [-> _]].
  - change (2 ^ 52) with 4503599627370496 in *.
    destruct (Z.ltb_spec (c * 4503599627370496) (va * 144115188075855872));
      destruct (Z.ltb_spec o (20 * v)); try reflexivity; exfalso; lia.
  - change (2 ^ 53) with 9007199254740992 in *.
    destruct (Z.ltb_spec (c * 9007199254740992) (va * 144115188075855872));
      destruct (Z.ltb_spec o (20 * v)); try reflexivity; exfalso; lia.
Qed.

(** X8.  On a picture of positive size, the binary64 comparisons of
    [is_good_crop] decide exactly the integer inequalities they stand for:
    the rectangle is good if and only if it is valid, has a positive width
    and height, is narrower than 9/10 of the width or lower than 9/10 of
    the height, and is wider than 1/20 of the width and higher than 1/20
    of the height. *)
Theorem X8_is_good_crop_exact rect ow oh :
  0 < ow <= INT_MAX -> 0 < oh <= INT_MAX -> in_int (w rect) -> in_int (h rect) ->
  is_good_crop rect ow oh
  = valid rect && (0 <? w rect) && (0 <? h rect)
    && ((10 * w rect <? 9 * ow) || (10 * h rect <? 9 * oh))
    && ((ow <? 20 * w rect) && (oh <? 20 * h rect)).
Proof.
  unfold in_int, INT_MIN, INT_MAX. intros How Hoh Hw Hh. unfold is_good_crop.
  destruct (valid rect); cbn [negb orb andb]; [|reflexivity].
  destruct (Z.leb_spec (w rect) 0) as [Hw0|Hw0];
    destruct (Z.ltb_spec 0 (w rect)) as [Hw1|Hw1]; try lia;
    cbn [orb andb]; try reflexivity.
  destruct (Z.leb_spec (h rect) 0) as [Hh0|Hh0];
    destruct (Z.ltb_spec 0 (h rect)) as [Hh1|Hh1]; try lia;
    cbn [orb andb]; try reflexivity.
  unfold significant_crop, sensible_size.
  rewrite !below_ratio_pos, !above_sliver_pos by lia. reflexivity.
Qed.

Lemma X8_is_good_crop_witness :
  is_good_crop (mkRect 0 0 96 54 true) 1920 1080 = false
  /\ is_good_crop (mkRect 0 0 97 55 true) 1920 1080 = true.
Proof.
  rewrite !X8_is_good_crop_exact;
    unfold in_int, INT_MIN, INT_MAX; simpl; lia.
Defined.

End SliverFacts.


(** ** The border trim, continued *)

Section TrimFacts.
Import CInt Crop ImageCrop.

Variable cv_mean : list Vec3b -> Scalar.

Lemma scan_seq_first blank dflt : forall n a,
  (scan blank (seq a n) dflt = dflt
   /\ forall i, (a <= i < a + n)%nat -> blank i = true)
  \/ exists i, (a <= i < a + n)%nat
       /\ scan blank (seq a n) dflt = Z.of_nat i /\ blank i = false
       /\ forall j, (a <= j < i)%nat -> blank j = true.
Proof.
  induction n as [|n IH]; intros a; simpl.
  - left. split; [reflexivity|]. intros i Hi. lia.
  - destruct (blank a) eqn:Ea; simpl.
    + destruct (IH (S a)) as [[E Hall]|(i & Hi & E & Hb & Hbefore)].
      * left. split; [exact E|]. intros i Hi.
        destruct (Nat.eq_dec i a) as [->|]; [exact Ea|]. apply Hall. lia.
      * right. exists i. split; [lia|]. split; [exact E|]. split; [exact Hb|].
        intros j Hj. destruct (Nat.eq_dec j a) as [->|]; [exact Ea|].
        apply Hbefore. lia.
    + right. exists a. split; [lia|]. split; [reflexivity|].
      split; [exact Ea|]. intros j Hj. lia.
Qed.

Lemma scan_rev_first blank dflt : forall n,
  (scan blank (rev (seq 0 n)) dflt = dflt
   /\ forall i, (i < n)%nat -> blank i = true)
  \/ exists i, (i < n)%nat
       /\ scan blank (rev (seq 0 n)) dflt = Z.of_nat i /\ blank i = false
       /\ forall j, (i < j < n)%nat -> blank j = true.
Proof.
  induction n as [|n IH].
  - left. split; [reflexivity|]. intros i Hi. lia.
  - rewrite seq_S, rev_app_distr. simpl.
    destruct (blank n) eqn:En; simpl.
    + destruct IH as [[E Hall]|(i & Hi & E & Hb & Hafter)].
      * left. split; [exact E|]. intros i Hi.
        destruct (Nat.eq_dec i n) as [->|]; [exact En|]. apply Hall. lia.
      * right. exists i. split; [lia|]. split; [exact E|]. split; [exact Hb|].
        intros j Hj. destruct (Nat.eq_dec j n) as [->|]; [exact En|].
        apply Hafter. lia.
    + right. exists n. split; [lia|]. split; [reflexivity|].
      split; [exact En|]. intros j Hj. lia.
Qed.

(** What a pair of scans that ends with [first < last] has found. *)
Lemma scans_tight blank n :
  let first := scan blank (seq 0 n) (Z.of_nat n) in
  let last := scan blank (rev (seq 0 n)) 0 in
  first < last ->
  blank (Z.to_nat first) = false /\ blank (Z.to_nat last) = false
  /\ (forall i, Z.of_nat i < first -> blank i = true)
  /\ (forall i, last < Z.of_nat i -> (i < n)%nat -> blank i = true).
Proof.
  intros first last Hlt. unfold first, last in *. clear first last.
  destruct (scan_seq_first blank (Z.of_nat n) n 0)
    as [[E Hall]|(i & Hi & E & Hb & Hbefore)];
  destruct (scan_rev_first blank 0 n)
    as [[E' Hall']|(i' & Hi' & E' & Hb' & Hafter)];
  rewrite E, E' in *; try lia.
  rewrite !Nat2Z.id. repeat split; try assumption.
  - intros j Hj. apply Hbefore. lia.
  - intros j Hj Hn. apply Hafter. lia.
Qed.

(** At most one line is not blank: the scans do not end with
    [first < last]. *)
Lemma scans_single blank n c :
  (forall i, (i < n)%nat -> blank i = false -> i = c) ->
  scan blank (rev (seq 0 n)) 0 <= scan blank (seq 0 n) (Z.of_nat n).
Proof.
  intros Hone.
  destruct (scan_seq_first blank (Z.of_nat n) n 0)
    as [[E Hall]|(i & Hi & E & Hb & Hbefore)];
  destruct (scan_rev_first blank 0 n)
    as [[E' Hall']|(i' & Hi' & E' & Hb' & Hafter)];
  rewrite E, E'; try lia.
  rewrite (Hone i), (Hone i'); (lia || assumption).
Qed.

(** X10.  A rectangle the border trim returns as valid is tight: its first
    and last column and its first and last row are not blank, and every
    column and row of the image outside it is blank. *)
Theorem X10_detect_image_crop_tight (img : Mat) tol :
  let r := detect_image_crop_cv cv_mean img tol in
  let blank_col := fun i => is_blank_line cv_mean tol (col img i) in
  let blank_row := fun i => is_blank_line cv_mean tol (row img i) in
  valid r = true ->
  (blank_col (Z.to_nat (x r)) = false
   /\ blank_col (Z.to_nat (x r + w r - 1)) = false
   /\ blank_row (Z.to_nat (y r)) = false
   /\ blank_row (Z.to_nat (y r + h r - 1)) = false)
  /\ (forall i, (i < cols img)%nat ->
        Z.of_nat i < x r \/ x r + w r <= Z.of_nat i -> blank_col i = true)
  /\ (forall i, (i < rows img)%nat ->
        Z.of_nat i < y r \/ y r + h r <= Z.of_nat i -> blank_row i = true).
Proof.
  cbv zeta. unfold detect_image_crop_cv.
  destruct (empty img); [discriminate|].
  set (bc := fun i => is_blank_line cv_mean tol (col img i)).
  set (br := fun i => is_blank_line cv_mean tol (row img i)).
  pose proof (scans_tight bc (cols img)) as Hc.
  pose proof (scans_tight br (rows img)) as Hr.
  cbv zeta in Hc, Hr.
  set (x0 := scan bc (seq 0 (cols img)) (Z.of_nat (cols img))) in *.
  set (x1 := scan bc (rev (seq 0 (cols img))) 0) in *.
  set (y0 := scan br (seq 0 (rows img)) (Z.of_nat (rows img))) in *.
  set (y1 := scan br (rev (seq 0 (rows img))) 0) in *.
  destruct ((x0 >=? x1) || (y0 >=? y1)) eqn:E; [discriminate|].
  apply orb_false_iff in E as [E1 E2]. intros _. cbn [x y w h].
  destruct Hc as (C0 & C1 & Cl & Cr); [lia|].
  destruct Hr as (R0 & R1 & Rl & Rr); [lia|].
  replace (x0 + (x1 - x0 + 1) - 1) with x1 by lia.
  replace (y0 + (y1 - y0 + 1) - 1) with y1 by lia.
  split; [by repeat split|]. split.
  - intros i Hi [H|H]; [by apply Cl|apply Cr; lia].
  - intros i Hi [H|H]; [by apply Rl|apply Rr; lia].
Qed.

(** X11.  An image whose content is a single column, or a single row, gets
    no rectangle: with at most one column that is not blank, or at most
    one such row, the border trim returns the invalid rectangle. *)
Theorem X11_detect_image_crop_single_line (img : Mat) tol (c : nat) :
  (forall i, (i < cols img)%nat ->
     is_blank_line cv_mean tol (col img i) = false -> i = c)
  \/ (forall i, (i < rows img)%nat ->
        is_blank_line cv_mean tol (row img i) = false -> i = c) ->
  detect_image_crop_cv cv_mean img tol = no_rect.
Proof.
  intros H. unfold detect_image_crop_cv.
  destruct (empty img); [reflexivity|].
  set (bc := fun i => is_blank_line cv_mean tol (col img i)).
  set (br := fun i => is_blank_line cv_mean tol (row img i)).
  destruct ((_ >=? _) || (_ >=? _)) eqn:E; [reflexivity|exfalso].
  apply orb_false_iff in E as [E1 E2].
  destruct H as [H|H].
  - pose proof (scans_single bc (cols img) c H). lia.
  - pose proof (scans_single br (rows img) c H). lia.
Qed.

End TrimFacts.

Section TrimExamples.
Import CInt Crop ImageCrop.

Lemma X10_detect_image_crop_witness :
  is_blank_line mean_of TOLERANCE (col Examples.framed 1) = false
  /\ is_blank_line mean_of TOLERANCE (col Examples.framed 0) = true.
Proof.
  destruct (X10_detect_image_crop_tight mean_of Examples.framed TOLERANCE eq_refl)
    as ((C0 & _) & Hc & _).
  split; [exact C0|]. apply (Hc 0%nat); [vm_compute; lia|left; vm_compute; reflexivity].
Defined.

Lemma X11_detect_image_crop_witness :
  detect_image_crop_cv mean_of Examples.striped TOLERANCE = no_rect.
Proof.
  apply (X11_detect_image_crop_single_line mean_of Examples.striped TOLERANCE 2%nat).
  left. intros i Hi.
  destruct i as [|[|[|[|i]]]]; vm_compute in Hi |- *; try lia;
    intros E; (reflexivity || discriminate E).
Defined.

End TrimExamples.


(** ** The detectors and the handler, continued *)

Section DetectorFacts.
Import CInt Cxx Crop Detector.

(** X9.  The gradient detector hands back the bounding box found in the
    half-size frames with every component doubled, exactly (the
    multiplication by [1.0 / DOWNSCALE] and the cast do not round), and
    marked valid; the original size it is given plays no part. *)
Theorem X9_detect_gradient_doubles W src_path ow oh b :
  gradient_best_rect W src_path = Some b ->
  0 <= rect_x b < 2 ^ 30 -> 0 <= rect_y b < 2 ^ 30 ->
  0 <= rect_width b < 2 ^ 30 -> 0 <= rect_height b < 2 ^ 30 ->
  detect_gradient W src_path ow oh
  = mkRect (2 * rect_x b) (2 * rect_y b)
           (2 * rect_width b) (2 * rect_height b) true.
Proof.
  intros E Hx Hy Hw Hh. unfold detect_gradient. rewrite E.
  by rewrite !scaled_twice.
Qed.

Lemma X9_detect_gradient_witness :
  detect_gradient Examples.world_gradient Examples.clip 200 100
  = mkRect 20 40 60 40 true.
Proof.
  apply (X9_detect_gradient_doubles Examples.world_gradient Examples.clip 200 100
           (mkCvRect 10 20 30 20)); [reflexivity|simpl; lia..].
Defined.



(** X13.  A duration that ffprobe does not report, that [std::stod] cannot
    read, or that is zero makes the multi-probe detector return the invalid
    rectangle without running a probe: the outcome does not depend on what
    the probes would log, or on whether they could be started. *)
Theorem X13_detect_crop_ffmpeg_no_duration W src_path duration_str :
  ffprobe_val W src_path "duration" = Ok duration_str ->
  duration_str = ""
  \/ (exists what, stod W duration_str = Throw what)
  \/ (exists d, stod W duration_str = Ok d
                /\ Double.eqb d (Double.of_int 0) = true) ->
  detect_crop_ffmpeg W src_path = Ok no_rect.
Proof.
  intros Hp H. unfold detect_crop_ffmpeg, probed_duration, bindR. rewrite Hp.
  destruct (String.eqb_spec duration_str "") as [->|Hne].
  - reflexivity.
  - destruct H as [->|[(what & ->)|(d & -> & Hz)]].
    + done.
    + reflexivity.
    + unfold detect_crop_core. by rewrite Hz.
Qed.

Lemma X13_detect_crop_ffmpeg_witness :
  detect_crop_ffmpeg Examples.world_silent Examples.clip = Ok no_rect.
Proof.
  apply (X13_detect_crop_ffmpeg_no_duration Examples.world_silent
           Examples.clip ""); [reflexivity|by left].
Defined.

Lemma rect_of_match_overflow m :
  INT_MAX < Z.of_N (g1 m) \/ INT_MAX < Z.of_N (g2 m)
  \/ INT_MAX < Z.of_N (g3 m) \/ INT_MAX < Z.of_N (g4 m) ->
  rect_of_match m = Throw "stoi: out_of_range".
Proof.
  intros H. unfold rect_of_match, bindR, stoi_digits.
  destruct (Z.leb_spec (Z.of_N (g3 m)) INT_MAX); [|reflexivity].
  destruct (Z.leb_spec (Z.of_N (g4 m)) INT_MAX); [|reflexivity].
  destruct (Z.leb_spec (Z.of_N (g1 m)) INT_MAX); [|reflexivity].
  destruct (Z.leb_spec (Z.of_N (g2 m)) INT_MAX); [|reflexivity].
  lia.
Qed.

(** X14.  A number in the log of the first probe that does not fit an
    [int] is not caught: [std::out_of_range] leaves the detector and the
    handler, which then has written no file, neither a crop nor the copy
    of the original, and has made no call. *)
Theorem X14_probe_overflow_escapes W src_path (fs : FS) ow oh d matches m :
  probed_dimensions W src_path = Ok (Some (ow, oh)) ->
  probed_duration W src_path = Ok d ->
  Double.eqb d (Double.of_int 0) = false ->
  cropdetect W src_path 0%nat = Ok matches ->
  last matches = Some m ->
  INT_MAX < Z.of_N (g1 m) \/ INT_MAX < Z.of_N (g2 m)
  \/ INT_MAX < Z.of_N (g3 m) \/ INT_MAX < Z.of_N (g4 m) ->
  detect_crop_ffmpeg W src_path = Throw "stoi: out_of_range"
  /\ handle_video_phase1 W src_path fs = (Throw "stoi: out_of_range", fs, []).
Proof.
  intros Hdim Hdur Hnz Hprobe Hlast Hbig.
  assert (E : detect_crop_ffmpeg W src_path = Throw "stoi: out_of_range").
  { unfold detect_crop_ffmpeg, bindR. rewrite Hdur.
    unfold detect_crop_core. rewrite Hnz. unfold FFMPEG_PROBES.
    cbn [probe_loop bindR]. rewrite Hprobe. cbn [bindR]. rewrite Hlast.
    by rewrite rect_of_match_overflow. }
  split; [exact E|].
  unfold handle_video_phase1. rewrite Hdim.
  unfold selected_rect, bindR. by rewrite E.
Qed.

Lemma X14_probe_overflow_witness :
  handle_video_phase1 Examples.world_overflow Examples.clip Examples.disk
  = (Throw "stoi: out_of_range", Examples.disk, []).
Proof.
  refine (proj2 (X14_probe_overflow_escapes Examples.world_overflow Examples.clip
                   Examples.disk 200 100 (Double.of_int 10)
                   [mkMatch 99999999999 42 4 4] (mkMatch 99999999999 42 4 4)
                   eq_refl eq_refl eq_refl eq_refl eq_refl _)).
  left. vm_compute. reflexivity.
Defined.

Lemma last_option_list {A : Type} (o : option A) : last (option_list o) = o.
Proof. by destruct o. Qed.

Lemma probe_loop_last_only probe n : forall k rects,
  probe_loop (last_only probe) k n rects = probe_loop probe k n rects.
Proof.
  induction n as [|n IH]; intros k rects; [reflexivity|].
  cbn [probe_loop]. unfold last_only at 1, bindR.
  destruct (probe k) as [matches|what]; [|reflexivity].
  rewrite last_option_list.
  destruct (last matches) as [m|]; [|apply IH].
  destruct (rect_of_match m); [apply IH|reflexivity].
Qed.

(** X15.  Of the log of a probe the detector uses the last match only:
    dropping all the others leaves its result (rectangle or exception)
    unchanged. *)
Theorem X15_detect_crop_last_match_only margin duration probe :
  detect_crop_core margin duration (last_only probe)
  = detect_crop_core margin duration probe.
Proof.
  unfold detect_crop_core.
  destruct (Double.eqb duration (Double.of_int 0)); [reflexivity|].
  by rewrite probe_loop_last_only.
Qed.

End DetectorFacts.


(** ** The text ffprobe prints *)

Section ProbeFacts.
Import ProbeText.

Lemma tolower_trim c : is_trim_char (tolower c) = is_trim_char c.
Proof. destruct c as [[] [] [] [] [] [] [] []]; reflexivity. Qed.

Lemma tolower_not_upper c : is_upper (tolower c) = false.
Proof. destruct c as [[] [] [] [] [] [] [] []]; reflexivity. Qed.

Lemma tolower_fixed c : is_upper c = false -> tolower c = c.
Proof. unfold tolower, is_upper. by intros ->. Qed.

Lemma erase_leading_first s c :
  first_char (erase_leading s) = Some c -> is_trim_char c = false.
Proof.
  induction s as [|a s IH]; simpl; [discriminate|].
  destruct (is_trim_char a) eqn:E; [exact IH|].
  simpl. by intros [= <-].
Qed.

Lemma erase_leading_empty s :
  erase_leading s = EmptyString <-> all_chars is_trim_char s = true.
Proof.
  induction s as [|a s IH]; simpl; [done|].
  destruct (is_trim_char a); simpl; [exact IH|]. split; discriminate.
Qed.

Lemma erase_leading_fixed s :
  (forall c, first_char s = Some c -> is_trim_char c = false) ->
  erase_leading s = s.
Proof.
  destruct s as [|a s]; [done|]. simpl. intros H.
  by rewrite (H a eq_refl).
Qed.

Lemma erase_trailing_first a s :
  is_trim_char a = false ->
  first_char (erase_trailing (String a s)) = Some a.
Proof.
  intros Ha. cbn [erase_trailing].
  destruct (erase_trailing s); [by rewrite Ha|reflexivity].
Qed.

Lemma erase_trailing_last s c :
  last_char (erase_trailing s) = Some c -> is_trim_char c = false.
Proof.
  induction s as [|a s IH]; [discriminate|]. cbn [erase_trailing].
  destruct (erase_trailing s) as [|b kept] eqn:E.
  - destruct (is_trim_char a) eqn:Ea; [discriminate|]. simpl. by intros [= <-].
  - intros H. apply IH. exact H.
Qed.

Lemma erase_trailing_empty s :
  erase_trailing s = EmptyString <-> all_chars is_trim_char s = true.
Proof.
  induction s as [|a s IH]; [done|]. cbn [erase_trailing all_chars].
  destruct (erase_trailing s) as [|b kept] eqn:E.
  - destruct IH as [IH _]. rewrite (IH eq_refl), andb_true_r.
    destruct (is_trim_char a); split; (done || discriminate).
  - split; [discriminate|]. intros [_ H]%andb_true_iff.
    apply IH in H. discriminate H.
Qed.

Lemma erase_trailing_fixed s :
  (forall c, last_char s = Some c -> is_trim_char c = false) ->
  erase_trailing s = s.
Proof.
  induction s as [|a s IH]; [done|]. intros H. cbn [erase_trailing].
  destruct s as [|b s].
  - simpl. by rewrite (H a eq_refl).
  - rewrite IH; [reflexivity|]. intros c Hc. apply H. exact Hc.
Qed.

Lemma lower_first s :
  first_char (lower s) = option_map tolower (first_char s).
Proof. by destruct s. Qed.

Lemma lower_last s :
  last_char (lower s) = option_map tolower (last_char s).
Proof.
  induction s as [|a s IH]; [done|]. destruct s as [|b s]; [done|].
  exact IH.
Qed.

Lemma lower_lower s : lower (lower s) = lower s.
Proof.
  induction s as [|a s IH]; [done|]. simpl. rewrite IH. f_equal.
  apply tolower_fixed, tolower_not_upper.
Qed.

Lemma lower_empty s : lower s = EmptyString <-> s = EmptyString.
Proof. destruct s; split; (done || discriminate). Qed.

Lemma lower_no_upper s : all_chars (fun c => negb (is_upper c)) (lower s) = true.
Proof.
  induction s as [|a s IH]; [done|]. simpl.
  by rewrite tolower_not_upper, IH.
Qed.

Lemma trimmed_ends s c :
  first_char (trimmed_lower s) = Some c \/ last_char (trimmed_lower s) = Some c ->
  is_trim_char c = false.
Proof.
  unfold trimmed_lower. rewrite lower_first, lower_last.
  intros [H|H].
  - destruct (erase_leading s) as [|a t] eqn:E; [discriminate|].
    assert (Ha : is_trim_char a = false).
    { apply (erase_leading_first s). by rewrite E. }
    rewrite erase_trailing_first in H by done.
    injection H as <-. by rewrite tolower_trim.
  - destruct (last_char (erase_trailing (erase_leading s))) as [a|] eqn:E;
      [|discriminate].
    injection H as <-. rewrite tolower_trim.
    by apply (erase_trailing_last (erase_leading s)).
Qed.

(** X16.  The value [ffprobe_val] returns neither starts nor ends with a
    blank, a newline, a carriage return or a tab, holds no capital letter,
    is left as it is by a second pass, and is empty exactly when the
    command printed nothing but such characters. *)
Theorem X16_ffprobe_val_trimmed (output : string) :
  let v := trimmed_lower output in
  (forall c, first_char v = Some c \/ last_char v = Some c ->
             is_trim_char c = false)
  /\ all_chars (fun c => negb (is_upper c)) v = true
  /\ trimmed_lower v = v
  /\ (v = EmptyString <-> all_chars is_trim_char output = true).
Proof.
  cbv zeta. split; [apply trimmed_ends|]. split; [apply lower_no_upper|]. split.
  - unfold trimmed_lower at 1.
    rewrite erase_leading_fixed.
    2:{ intros c Hc. apply (trimmed_ends output). by left. }
    rewrite erase_trailing_fixed.
    2:{ intros c Hc. apply (trimmed_ends output). by right. }
    unfold trimmed_lower. apply lower_lower.
  - unfold trimmed_lower. rewrite lower_empty, erase_trailing_empty.
    rewrite <- (erase_leading_empty output).
    destruct (erase_leading output) as [|a t] eqn:E; [by split|].
    assert (Ha : is_trim_char a = false).
    { apply (erase_leading_first output). by rewrite E. }
    simpl. rewrite Ha. split; discriminate.
Qed.

End ProbeFacts.


(** ** Rounding up to even *)

Section MakeEvenFacts.
Import CInt Crop.

(** X20.  [make_even] rounds up to the next even number, also a negative
    odd one (whose remainder is -1), and leaves an even number alone: below
    [INT_MAX] its value is the least even integer that is not below the
    argument, and the function is idempotent. *)
Theorem X20_make_even_least_even v :
  in_int v -> v < INT_MAX ->
  Z.even (make_even v) = true
  /\ v <= make_even v
  /\ (forall e, Z.even e = true -> v <= e -> make_even v <= e)
  /\ make_even (make_even v) = make_even v.
Proof.
  intros Hv Hmax. destruct (make_even_spec v Hv Hmax) as [He Hr].
  split; [exact He|]. split; [lia|]. split.
  - intros e Hev Hle.
    destruct (Z.eq_dec (make_even v) v) as [->|Hne]; [exact Hle|].
    assert (E : make_even v = v + 1) by lia.
    rewrite E in *. destruct (Z.eq_dec e v) as [->|]; [|lia].
    rewrite Z.even_add in He. rewrite Hev in He. discriminate He.
  - unfold make_even at 1.
    destruct (Z.eqb_spec (Z.rem (make_even v) 2) 0) as [|Hodd]; [reflexivity|].
    exfalso. apply Hodd. apply Z.even_spec in He as [c ->].
    by rewrite Z.mul_comm, Z.rem_mul.
Qed.

Lemma X20_make_even_witness :
  Z.even (make_even (-3)) = true /\ make_even (-3) = -2.
Proof.
  split; [|reflexivity].
  apply (X20_make_even_least_even (-3));
    unfold in_int, INT_MIN, INT_MAX; lia.
Defined.

End MakeEvenFacts.


(** ** The two phases *)

Section PathFacts.
Import CInt Cxx ProbeText Paths Crop Phases.

Lemma filename_from_app d : forall s acc,
  filename_from (d +:+ s) acc = filename_from s (filename_from d acc).
Proof.
  induction d as [|c d IH]; intros s acc; [reflexivity|].
  simpl. destruct (Ascii.eqb c "/"); apply IH.
Qed.

Lemma filename_from_no_slash s : forall acc,
  all_chars (fun c => negb (Ascii.eqb c "/")) acc = true ->
  all_chars (fun c => negb (Ascii.eqb c "/")) (filename_from s acc) = true.
Proof.
  induction s as [|c s IH]; intros acc Hacc; [exact Hacc|].
  simpl. destruct (Ascii.eqb c "/") eqn:E; [by apply IH|].
  apply IH. clear IH. induction acc as [|a acc IHa]; simpl in *.
  - by rewrite E.
  - apply andb_true_iff in Hacc as [-> Hacc]. simpl. by apply IHa.
Qed.

Lemma append_empty_r (s : string) : s +:+ "" = s.
Proof.
  induction s as [|c s IH]; [reflexivity|].
  change (String c (s +:+ "") = String c s). by f_equal.
Qed.

Lemma append_assoc (a b c : string) : (a +:+ b) +:+ c = a +:+ (b +:+ c).
Proof.
  induction a as [|x a IH]; [reflexivity|].
  change (String x ((a +:+ b) +:+ c) = String x (a +:+ (b +:+ c))).
  by f_equal.
Qed.

Lemma filename_from_plain s : forall acc,
  all_chars (fun c => negb (Ascii.eqb c "/")) s = true ->
  filename_from s acc = acc +:+ s.
Proof.
  induction s as [|c s IH]; intros acc Hs.
  - symmetry. apply append_empty_r.
  - cbn [all_chars] in Hs. apply andb_true_iff in Hs as [Hc Hs].
    apply negb_true_iff in Hc. cbn [filename_from]. rewrite Hc, IH by done.
    apply append_assoc.
Qed.

Lemma filename_intermediate src_path :
  filename (intermediate src_path) = filename src_path.
Proof.
  unfold intermediate, path_append, filename.
  rewrite filename_from_app.
  change (filename_from (filename_from src_path "") ""
          = filename_from src_path "").
  rewrite filename_from_plain; [reflexivity|].
  by apply filename_from_no_slash.
Qed.

(** X17.  Phase 2 takes up the intermediate file of a video exactly when
    the file name of the video ends in [.mp4], in lower case; every such
    video is one phase 1 takes.  Phase 1 also takes videos whose extension
    is [.MP4], [.mkv], [.mov], [.avi] or [.webm] in any case: they are
    cropped or copied, and their intermediate file is never looked at. *)
Theorem X17_phase2_takes_only_mp4 (src_path : string) :
  phase2_selects (intermediate src_path)
  = String.eqb (extension (filename src_path)) ".mp4"
  /\ (phase2_selects (intermediate src_path) = true ->
      phase1_selects src_path = true)
  /\ (phase1_selects src_path = true ->
      extension (filename src_path) <> ".mp4" ->
      phase2_selects (intermediate src_path) = false).
Proof.
  unfold phase2_selects. rewrite filename_intermediate.
  split; [reflexivity|]. split.
  - intros H. apply String.eqb_eq in H. unfold phase1_selects. by rewrite H.
  - intros _ H. by apply String.eqb_neq.
Qed.

Lemma phase_examples :
  phase1_selects "../videos/clip.mkv" = true
  /\ phase2_selects (intermediate "../videos/clip.mkv") = false
  /\ phase1_selects "../videos/Holiday.MP4" = true
  /\ phase2_selects (intermediate "../videos/Holiday.MP4") = false
  /\ phase2_selects (intermediate "../videos/a.b.mp4") = true
  /\ phase1_selects "../videos/.mp4" = false.
Proof. vm_compute. repeat split. Qed.

End PathFacts.

Section SceneFacts.
Import CInt Cxx ProbeText Paths Crop Phases.

#[local] Instance frame_order_total : Total frame_order.
Proof. intros a b. unfold frame_order. lia. Qed.

#[local] Instance frame_order_trans : Transitive frame_order.
Proof. intros a b c. unfold frame_order. lia. Qed.

Lemma frame_file_ok entry keep :
  frame_file entry = Ok keep -> keep = is_frame_file entry.
Proof.
  unfold frame_file, is_frame_file.
  destruct (String.eqb _ ".png"); [|by intros [= <-]].
  destruct (stoi _) as [n|what]; [by intros [= <-]|].
  destruct (String.eqb what _); [by intros [= <-]|discriminate].
Qed.

Lemma collect_frames_ok entries : forall jpgs,
  collect_frames entries = Ok jpgs -> jpgs = List.filter is_frame_file entries.
Proof.
  induction entries as [|e entries IH]; intros jpgs; simpl.
  - by intros [= <-].
  - unfold bindR.
    destruct (frame_file e) as [keep|] eqn:Ef; [|discriminate].
    destruct (collect_frames entries) as [rest|]; [|discriminate].
    intros [= <-]. rewrite <- (frame_file_ok _ _ Ef), (IH rest eq_refl).
    reflexivity.
Qed.

Lemma collect_frames_overflow entries e what :
  e ∈ entries ->
  extension (filename e) = ".png" ->
  stoi (stem (filename e)) = Throw what -> what <> "stoi: invalid_argument" ->
  exists what', collect_frames entries = Throw what'.
Proof.
  intros Hin Hext Hst Hw. induction entries as [|a entries IH].
  - by apply elem_of_nil in Hin.
  - simpl. unfold bindR.
    destruct (frame_file a) as [keep|w] eqn:Ef; [|by exists w].
    apply elem_of_cons in Hin as [<-|Hin].
    + exfalso. unfold frame_file in Ef. rewrite Hext, String.eqb_refl, Hst in Ef.
      apply String.eqb_neq in Hw. rewrite Hw in Ef. discriminate Ef.
    + destruct (IH Hin) as [w ->]. by exists w.
Qed.

(** X18.  When the scene-detection command fails, [ffmpeg_scene_jpgs]
    returns no file.  When it succeeds, the files returned are those of the
    directory that end in [.png] and whose stem [std::stoi] reads, each
    once, in the order of these numbers (so [10.png] comes after [9.png]);
    a [.png] file whose number does not fit an [int] is not skipped: the
    exception leaves the function. *)
Theorem X18_scene_frames_sorted (ret : Z) (entries : list string) :
  (forall jpgs, ffmpeg_scene_jpgs ret entries = Ok jpgs ->
     (ret <> 0 -> jpgs = [])
     /\ (ret = 0 -> jpgs ≡ₚ List.filter is_frame_file entries)
     /\ StronglySorted frame_order jpgs
     /\ (forall p, p ∈ jpgs -> p ∈ entries /\ is_frame_file p = true))
  /\ (ret = 0 ->
      forall e what, e ∈ entries -> extension (filename e) = ".png" ->
        stoi (stem (filename e)) = Throw what ->
        what <> "stoi: invalid_argument" ->
        exists what', ffmpeg_scene_jpgs ret entries = Throw what').
Proof.
  split.
  - intros jpgs. unfold ffmpeg_scene_jpgs.
    destruct (Z.eqb_spec ret 0) as [->|Hne]; cbn [negb].
    + unfold bindR. destruct (collect_frames entries) as [l|] eqn:Ec; [|discriminate].
      intros [= <-]. apply collect_frames_ok in Ec. subst l.
      split; [done|]. split; [intros _; apply merge_sort_Permutation|].
      split; [apply StronglySorted_merge_sort; apply _|].
      intros p Hp. rewrite merge_sort_Permutation in Hp.
      apply list_elem_of_In, filter_In in Hp as [Hp Hf].
      split; [by apply list_elem_of_In|exact Hf].
    + intros [= <-]. split; [done|]. split; [done|].
      split; [constructor|]. intros p Hp. by apply elem_of_nil in Hp.
  - intros -> e what Hin Hext Hst Hw. unfold ffmpeg_scene_jpgs. cbn [Z.eqb negb].
    destruct (collect_frames_overflow entries e what Hin Hext Hst Hw) as [w ->].
    by exists w.
Qed.

Lemma scene_frames_example :
  ffmpeg_scene_jpgs 0 ["t/10.png"; "t/9.png"; "t/notes.txt"; "t/x.png"; "t/2.png"]
  = Ok ["t/2.png"; "t/9.png"; "t/10.png"].
Proof. vm_compute. reflexivity. Qed.

End SceneFacts.

Section FallbackFacts.
Import CInt Phases.

Lemma fallback_loop_spec grab total step rounds : forall count,
  let r := fallback_loop grab total step rounds count in
  r.2 = count + Z.of_nat (length r.1)
  /\ (count <= MIN_FRAMES + 1 -> r.2 <= MIN_FRAMES + 1)
  /\ (forall k i pos, r.1 !! k = Some (i, pos) ->
        i = count + Z.of_nat k /\ pos = (i - 1) * step
        /\ grab pos = Picture /\ (0 < total -> pos < total)).
Proof.
  induction rounds as [|rounds IH]; intros count; cbv zeta.
  - simpl. split; [lia|]. split; [done|]. intros k i pos H. discriminate H.
  - cbn [fallback_loop].
    destruct (Z.leb_spec count MIN_FRAMES) as [Hc|Hc].
    2:{ simpl. split; [lia|]. split; [done|]. intros k i pos H. discriminate H. }
    destruct ((_ >=? _) && (_ >? _)) eqn:Eb.
    { simpl. split; [lia|]. split; [done|]. intros k i pos H. discriminate H. }
    destruct (grab ((count - 1) * step)) eqn:Eg.
    + simpl. split; [lia|]. split; [done|]. intros k i pos H. discriminate H.
    + apply IH.
    + specialize (IH (count + 1)). cbv zeta in IH.
      destruct (fallback_loop grab total step rounds (count + 1)) as [written final].
      cbn [fst snd] in *. destruct IH as (IH1 & IH2 & IH3).
      split; [simpl; lia|]. split; [intros _; apply IH2; lia|].
      intros [|k] i pos H.
      * injection H as <- <-. split; [lia|]. split; [reflexivity|].
        split; [exact Eg|]. intros Ht.
        apply andb_false_iff in Eb as [Eb|Eb]; lia.
      * destruct (IH3 k i pos H) as (Hi & Hp & Hg & Ht).
        split; [lia|]. by repeat split.
Qed.

Lemma fallback_loop_stuck grab total step rounds count :
  grab ((count - 1) * step) = BlankFrame ->
  fallback_loop grab total step rounds count = ([], count).
Proof.
  intros Hb. induction rounds as [|rounds IH]; [reflexivity|].
  cbn [fallback_loop]. destruct (count <=? MIN_FRAMES); [|reflexivity].
  destruct ((_ >=? _) && (_ >? _)); [reflexivity|].
  by rewrite Hb.
Qed.

(** X19.  The fallback of the frame extraction numbers the frames it
    writes consecutively from the number the scene frames stopped at,
    takes frame [n] at position [(n - 1) * step], inside the video when
    its length is known, and never brings the total above [MIN_FRAMES];
    it does not move on from a frame that is of one colour: when the frame
    at the first position is, nothing is written. *)
Theorem X19_fallback_frames opened grab total start :
  1 <= start ->
  let step := fallback_step total in
  let r := fallback opened grab total start in
  r.2 = start + Z.of_nat (length r.1)
  /\ (start <= MIN_FRAMES -> r.2 - 1 <= MIN_FRAMES)
  /\ (forall k i pos, r.1 !! k = Some (i, pos) ->
        i = start + Z.of_nat k /\ pos = (i - 1) * step
        /\ grab pos = Picture /\ (0 < total -> pos < total))
  /\ (grab ((start - 1) * step) = BlankFrame -> r = ([], start)).
Proof.
  intros Hs. cbv zeta. unfold fallback.
  destruct (Z.leb_spec start MIN_FRAMES) as [Hc|Hc].
  2:{ simpl. split; [lia|]. split; [lia|]. split; [|done].
      intros k i pos H. discriminate H. }
  destruct opened; cbn [negb].
  2:{ simpl. split; [lia|]. split; [lia|]. split; [|done].
      intros k i pos H. discriminate H. }
  pose proof (fallback_loop_spec grab total (fallback_step total)
                (Z.to_nat (MIN_FRAMES * 2)) start) as H.
  cbv zeta in H. destruct H as (H1 & H2 & H3).
  split; [exact H1|]. split; [intros _; specialize (H2 ltac:(lia)); lia|].
  split; [exact H3|]. intros Hb. by apply fallback_loop_stuck.
Qed.

Lemma X19_fallback_witness :
  let grab := fun pos => if pos =? 40 then BlankFrame else Picture in
  fallback true grab 100 1 = ([(1, 0); (2, 20)], 3)
  /\ (fallback true grab 100 1).2 = 1 + 2.
Proof.
  split; [reflexivity|].
  exact (proj1 (X19_fallback_frames true
                  (fun pos => if pos =? 40 then BlankFrame else Picture)
                  100 1 ltac:(lia))).
Defined.

End FallbackFacts.


(** ** What the handler leaves alone *)

Section HandlerFrame.
Import CInt Cxx Crop.

Lemma crop_gpu_elsewhere W src_path dst_path rect ow oh (fs : FS) p :
  p <> dst_path ->
  (crop_gpu W src_path dst_path rect ow oh fs).2 !! p = fs !! p.
Proof.
  intros Hp. unfold crop_gpu.
  destruct (ffprobe_val W src_path "codec_name") as [codec|]; [|reflexivity].
  destruct (system W _) as [ret [content|]]; destruct (negb (ret =? 0)); simpl;
    try reflexivity; by rewrite lookup_insert_ne.
Qed.

Lemma copy_file_elsewhere src dst (fs fs' : FS) p :
  copy_file src dst fs = Ok fs' -> p <> dst -> fs' !! p = fs !! p.
Proof.
  intros (_ & content & _ & ->)%copy_file_returns Hp.
  by rewrite lookup_insert_ne.
Qed.

(** X22.  Whatever it returns or throws, the handler leaves every file
    but the intermediate one as it was (the engine being one that writes
    its output file only): in particular the original is never changed
    or removed. *)
Theorem X22_handler_touches_only_destination W src_path (fs fs' : FS)
    outcome log p :
  handle_video_phase1 W src_path fs = (outcome, fs', log) ->
  p <> path_append CROPPED_DIR (filename src_path) ->
  fs' !! p = fs !! p.
Proof.
  intros Hrun Hp. revert Hrun. unfold handle_video_phase1.
  destruct (probed_dimensions W src_path) as [[[ow oh]|]|];
    try (by intros [= _ <- _]).
  destruct (selected_rect W src_path ow oh) as [[rect mode]|];
    [|by intros [= _ <- _]].
  destruct (valid rect && is_good_crop rect ow oh).
  - pose proof (crop_gpu_elsewhere W src_path _ rect ow oh fs p Hp) as Hc.
    destruct (crop_gpu _ _ _ _ _ _ _) as [[u|e] fs1]; cbn [snd] in Hc.
    + by intros [= _ <- _].
    + destruct (copy_file _ _ fs1) as [fs2|e2] eqn:Ecp.
      * intros [= _ <- _]. by rewrite (copy_file_elsewhere _ _ _ _ _ Ecp Hp).
      * by intros [= _ <- _].
  - destruct (copy_file _ _ fs) as [fs2|e2] eqn:Ecp.
    + intros [= _ <- _]. by rewrite (copy_file_elsewhere _ _ _ _ _ Ecp Hp).
    + by intros [= _ <- _].
Qed.

Lemma X22_handler_witness :
  (<[Examples.clip_out := "original"]> Examples.disk : FS) !! Examples.clip
  = (Examples.disk : FS) !! Examples.clip.
Proof.
  apply (X22_handler_touches_only_destination Examples.world_failing
           Examples.clip Examples.disk _ (Ok "copy_after_error")
           [CallCropGpu Examples.clip Examples.clip_out
              (mkRect 0 0 100 50 true) 200 100;
            CallCopyFile Examples.clip Examples.clip_out]).
  - reflexivity.
  - vm_compute. discriminate.
Defined.

End HandlerFrame.
